(** * Signal: protocol codec and bit receiver

    Shallow embedding of [src/domain/protocol.ts] (the [Protocol] and
    [GridProtocol] classes) and of [src/domain/bit-receiver.ts]
    ([BitReceiver] and [ManualBitReceiver]).

    Representation choices:
    - a JS number that holds a bit, a byte or a length is a [Z];
    - a JS [string] is the list of its code points (a [Z] each, in
      [0, 0x10FFFF]); a lone surrogate shows up as a code point in
      [0xD800, 0xDFFF];
    - [TextEncoder.encode] and [new TextDecoder('utf-8', {fatal: true}).decode]
      are the WHATWG Encoding algorithms: the encoder replaces a lone
      surrogate by U+FFFD, the decoder rejects ill-formed input and, since
      [ignoreBOM] is left [false], drops a leading U+FEFF;
    - [new Uint8Array(xs)] applies ToUint8 ([x mod 256]) to every element. *)

From Stdlib Require Import ZArith List Bool Lia QArith Qminmax.
From Stdlib Require Strings.String.
Import ListNotations.
Open Scope Z_scope.

(** ** Constants ([src/constants/index.ts]) *)

Definition PREAMBLE : list Z := [1; 0; 1; 0; 1; 0; 1; 0].
Definition START_MARKER : list Z := [1; 1; 1; 1; 1; 1; 1; 1].
Definition MAX_MESSAGE_BYTES : Z := 200.
Definition MAX_BITS_TIMEOUT : Z := 2000.
Definition GAP_MS : Z := 300.

(** ** JS number primitives *)

(** ToInt32: the operand conversion of [<<], [>>], [&] and [|]. *)
Definition to_int32 (x : Z) : Z :=
  let m := x mod 2 ^ 32 in
  if m >=? 2 ^ 31 then m - 2 ^ 32 else m.

(** ToUint8: the element conversion of [new Uint8Array(xs)]. *)
Definition to_uint8 (x : Z) : Z := x mod 256.

Definition uint8array (xs : list Z) : list Z := map to_uint8 xs.

(** [a.slice(start, end)] for indices [0 <= start <= end]. *)
Definition slice {A} (l : list A) (start stop : nat) : list A :=
  firstn (stop - start) (skipn start l).

(** ** UTF-8 (platform [TextEncoder] / [TextDecoder]) *)

Definition text := list Z.

Definition is_surrogate (c : Z) : bool := (0xD800 <=? c) && (c <=? 0xDFFF).

(** A Unicode scalar value: what a well-formed string is made of. *)
Definition is_scalar (c : Z) : bool :=
  (0 <=? c) && (c <=? 0x10FFFF) && negb (is_surrogate c).

(** UTF-8 encoding of one code point (WHATWG "UTF-8 encoder"); a lone
    surrogate is first replaced by U+FFFD, whose encoding is EF BF BD. *)
Definition utf8_encode_cp (c : Z) : list Z :=
  if is_surrogate c then [0xEF; 0xBF; 0xBD]
  else if c <? 0x80 then [c]
  else if c <? 0x800 then [0xC0 + c / 64; 0x80 + c mod 64]
  else if c <? 0x10000 then
    [0xE0 + c / 4096; 0x80 + (c / 64) mod 64; 0x80 + c mod 64]
  else
    [0xF0 + c / 262144; 0x80 + (c / 4096) mod 64;
     0x80 + (c / 64) mod 64; 0x80 + c mod 64].

(** [new TextEncoder().encode(s)] *)
Definition text_encoder_encode (s : text) : list Z := flat_map utf8_encode_cp s.

Definition in_range (lo hi b : Z) : bool := (lo <=? b) && (b <=? hi).

(** Strict UTF-8 decoding (WHATWG "UTF-8 decoder" in fatal mode): the
    well-formed byte sequences of Unicode Table 3-7; [None] on any error. *)
Fixpoint utf8_decode (bs : list Z) : option text :=
  match bs with
  | [] => Some []
  | b0 :: r =>
    if in_range 0 0x7F b0 then option_map (cons b0) (utf8_decode r)
    else if in_range 0xC2 0xDF b0 then
      match r with
      | b1 :: r1 =>
        if in_range 0x80 0xBF b1
        then option_map (cons ((b0 - 0xC0) * 64 + (b1 - 0x80))) (utf8_decode r1)
        else None
      | _ => None
      end
    else if in_range 0xE0 0xEF b0 then
      match r with
      | b1 :: b2 :: r2 =>
        let lo1 := if b0 =? 0xE0 then 0xA0 else 0x80 in
        let hi1 := if b0 =? 0xED then 0x9F else 0xBF in
        if in_range lo1 hi1 b1 && in_range 0x80 0xBF b2
        then option_map
               (cons ((b0 - 0xE0) * 4096 + (b1 - 0x80) * 64 + (b2 - 0x80)))
               (utf8_decode r2)
        else None
      | _ => None
      end
    else if in_range 0xF0 0xF4 b0 then
      match r with
      | b1 :: b2 :: b3 :: r3 =>
        let lo1 := if b0 =? 0xF0 then 0x90 else 0x80 in
        let hi1 := if b0 =? 0xF4 then 0x8F else 0xBF in
        if in_range lo1 hi1 b1 && in_range 0x80 0xBF b2 && in_range 0x80 0xBF b3
        then option_map
               (cons ((b0 - 0xF0) * 262144 + (b1 - 0x80) * 4096
                      + (b2 - 0x80) * 64 + (b3 - 0x80)))
               (utf8_decode r3)
        else None
      | _ => None
      end
    else None
  end.

(** [new TextDecoder('utf-8', { fatal: true }).decode(bytes)]: strict decoding,
    then the leading byte order mark U+FEFF is dropped ([ignoreBOM] is
    [false] by default). *)
Definition text_decoder_decode (bytes : list Z) : option text :=
  match utf8_decode bytes with
  | Some (c :: t) => if c =? 0xFEFF then Some t else Some (c :: t)
  | r => r
  end.

(** ** Errors thrown by the codec ([src/types/index.ts]) *)

Inductive codec_error := MessageTooLongError.

Inductive result (A : Type) :=
| Ok (a : A)
| Throw (e : codec_error).
Arguments Ok {A} a.
Arguments Throw {A} e.

(** ** [Protocol] *)

Module Protocol.

(** [byteToBits]: [(byte >> i) & 1] for [i = 7 .. 0]. *)
Definition byteToBits (byte : Z) : list Z :=
  map (fun i => Z.land (Z.shiftr (to_int32 byte) i) 1) [7; 6; 5; 4; 3; 2; 1; 0].

(** [bitsToNumber]: [bits.reduce((acc, bit) => (acc << 1) | bit, 0)]. *)
Definition bitsToNumber (bits : list Z) : Z :=
  fold_left (fun acc bit => Z.lor (to_int32 (Z.shiftl (to_int32 acc) 1)) (to_int32 bit))
    bits 0.

(** [calculateChecksum]: XOR of the bytes. *)
Definition calculateChecksum (bytes : list Z) : Z := fold_left Z.lxor bytes 0.

Definition getByteLength (message : text) : Z :=
  Z.of_nat (length (text_encoder_encode message)).

Definition canEncode (message : text) : bool :=
  getByteLength message <=? MAX_MESSAGE_BYTES.

Definition calculateBitCount (message : text) : Z :=
  8 + 8 + 8 + getByteLength message * 8 + 8.

Definition encode (message : text) : result (list Z) :=
  let bytes := text_encoder_encode message in
  if Z.of_nat (length bytes) >? MAX_MESSAGE_BYTES then Throw MessageTooLongError
  else Ok (PREAMBLE ++ START_MARKER ++ byteToBits (Z.of_nat (length bytes))
           ++ flat_map byteToBits bytes ++ byteToBits (calculateChecksum bytes)).

(** [bits[i + j] !== 1] for [j = 0 .. 7]; every index is in range. *)
Definition all_ones8 (window : list Z) : bool :=
  forallb (fun b => b =? 1) (firstn 8 window).

(** [findStartMarker]: the loop over [i = 0 .. bits.length - 8], written as a
    walk over the suffix [skipn i bits]; [None] is the sentinel [-1]. *)
Fixpoint find_from (l : list Z) (i : nat) : option nat :=
  match l with
  | [] => None
  | _ :: t =>
    if (8 <=? length l)%nat && all_ones8 l then Some i else find_from t (S i)
  end.

Definition findStartMarker (bits : list Z) : option nat := find_from bits 0.

(** The data loop of [decode]: [dataLength] slices of 8 bits from
    [bitIndex]; [None] is the early [return null] on a short slice. *)
Fixpoint read_bytes (bits : list Z) (n : nat) (bitIndex : nat)
  : option (list Z * nat) :=
  match n with
  | O => Some ([], bitIndex)
  | S n' =>
    let byteBits := slice bits bitIndex (bitIndex + 8) in
    if (length byteBits <? 8)%nat then None
    else match read_bytes bits n' (bitIndex + 8) with
         | Some (bs, j) => Some (bitsToNumber byteBits :: bs, j)
         | None => None
         end
  end.

Definition decode (bits : list Z) : option text :=
  match findStartMarker bits with
  | None => None
  | Some markerIndex =>
    let dataStart := (markerIndex + 8)%nat in
    let lengthBits := slice bits dataStart (dataStart + 8) in
    if (length lengthBits <? 8)%nat then None else
    let dataLength := bitsToNumber lengthBits in
    if (dataLength >? MAX_MESSAGE_BYTES) || (dataLength =? 0) then None else
    match read_bytes bits (Z.to_nat dataLength) (dataStart + 8) with
    | None => None
    | Some (dataBytes, bitIndex) =>
      let checksumBits := slice bits bitIndex (bitIndex + 8) in
      if (length checksumBits <? 8)%nat then None else
      let receivedChecksum := bitsToNumber checksumBits in
      let calculatedChecksum := calculateChecksum (uint8array dataBytes) in
      if negb (receivedChecksum =? calculatedChecksum) then None
      else text_decoder_decode (uint8array dataBytes)
    end
  end.

End Protocol.

(** [a.slice(start, end)] with JS index normalisation: a negative index
    counts from the end, every index is clamped to [0, length]. *)
Definition js_slice {A} (l : list A) (start stop : Z) : list A :=
  let len := Z.of_nat (length l) in
  let norm i := if i <? 0 then Z.max (len + i) 0 else Z.min i len in
  let s := norm start in
  let e := norm stop in
  firstn (Z.to_nat (e - s)) (skipn (Z.to_nat s) l).

(** [a[i]]: [None] is [undefined] (a negative or too large index). *)
Definition js_index {A} (l : list A) (i : Z) : option A :=
  if i <? 0 then None else nth_error l (Z.to_nat i).

Module GridProtocol.

(** A grid frame [[highByte, lowByte]]. *)
Definition frame := (Z * Z)%type.

Definition calculateChecksum (bytes : list Z) : Z := fold_left Z.lxor bytes 0.

(** [for (i = 0; i < payload.length; i += 2) frames.push([payload[i], payload[i + 1]])];
    [encode] only calls it on an even-length payload, so the one-element
    case (where [payload[i + 1]] would be [undefined]) is never reached. *)
Fixpoint split_frames (payload : list Z) : list frame :=
  match payload with
  | a :: b :: r => (a, b) :: split_frames r
  | [a] => [(a, 0)]
  | [] => []
  end.

Definition encode (message : text) : result (list frame) :=
  let data := text_encoder_encode message in
  if Z.of_nat (length data) >? MAX_MESSAGE_BYTES then Throw MessageTooLongError
  else
    let payload := [Z.of_nat (length data)] ++ data ++ [calculateChecksum data] in
    let payload :=
      if negb (Z.rem (Z.of_nat (length payload)) 2 =? 0) then payload ++ [0] else payload in
    Ok (split_frames payload).

(** [for (const frame of frames) bytes.push(frame[0], frame[1])] *)
Definition flatten (frames : list frame) : list Z :=
  flat_map (fun '(hi, lo) => [hi; lo]) frames.

Definition decode (frames : list frame) : option text :=
  match frames with
  | [] => None
  | (dataLength, _) :: _ =>
    let bytes := flatten frames in
    if (dataLength =? 0) || (dataLength >? MAX_MESSAGE_BYTES) then None else
    let minBytes := dataLength + 2 in
    let expectedBytes := if Z.rem minBytes 2 =? 0 then minBytes else minBytes + 1 in
    if Z.of_nat (length bytes) <? expectedBytes then None else
    let data := js_slice bytes 1 (1 + dataLength) in
    let receivedChecksum := js_index bytes (1 + dataLength) in
    let calculatedChecksum := calculateChecksum (uint8array data) in
    match receivedChecksum with
    | Some r => if negb (r =? calculatedChecksum) then None
                else text_decoder_decode (uint8array data)
    | None => None
    end
  end.

(** [(byte >> i) & 1] for [i = 7 .. 0] *)
Definition byte_cells (byte : Z) : list Z :=
  map (fun i => Z.land (Z.shiftr (to_int32 byte) i) 1) [7; 6; 5; 4; 3; 2; 1; 0].

Definition frameToCells (f : frame) : list Z :=
  let '(highByte, lowByte) := f in byte_cells highByte ++ byte_cells lowByte.

(** [cells[i] ? 1 : 0]: [undefined] and [0] are falsy. *)
Definition cell_bit (c : option Z) : Z :=
  match c with
  | Some v => if v =? 0 then 0 else 1
  | None => 0
  end.

(** [for (i = from; i < to; i++) acc = (acc << 1) | (cells[i] ? 1 : 0)] *)
Definition pack_cells (cells : list Z) (idx : list nat) : Z :=
  fold_left (fun acc i => Z.lor (to_int32 (Z.shiftl (to_int32 acc) 1))
                                (cell_bit (nth_error cells i))) idx 0.

Definition cellsToFrame (cells : list Z) : frame :=
  (pack_cells cells (seq 0 8), pack_cells cells (seq 8 8)).

End GridProtocol.

(** ** [Protocol.decodePartial] *)

(** Modelled from the spec: [Protocol.decodePartial], called by
    [BitReceiver.handleBitsState] but absent from the [Protocol] class in the
    sources.  §4.1: "attempt decode of however many complete data bytes are
    currently available (ignoring checksum), trimming any trailing incomplete
    UTF-8 sequence; returns none if fewer than 32 bits are available or no
    valid marker/length can be located yet"; and "returns whatever prefix of
    the data bytes can be interpreted as UTF-8".  Only the [text] field of the
    result is modelled. *)
Module DecodePartialModel.
Import Protocol.

(** Modelled from the spec: the longest prefix of [bs] that is well-formed
    UTF-8, decoded; it stops at the first ill-formed or incomplete sequence. *)
Fixpoint utf8_decode_prefix (bs : list Z) : text :=
  match bs with
  | [] => []
  | b0 :: r =>
    if in_range 0 0x7F b0 then b0 :: utf8_decode_prefix r
    else if in_range 0xC2 0xDF b0 then
      match r with
      | b1 :: r1 =>
        if in_range 0x80 0xBF b1
        then ((b0 - 0xC0) * 64 + (b1 - 0x80)) :: utf8_decode_prefix r1
        else []
      | _ => []
      end
    else if in_range 0xE0 0xEF b0 then
      match r with
      | b1 :: b2 :: r2 =>
        let lo1 := if b0 =? 0xE0 then 0xA0 else 0x80 in
        let hi1 := if b0 =? 0xED then 0x9F else 0xBF in
        if in_range lo1 hi1 b1 && in_range 0x80 0xBF b2
        then ((b0 - 0xE0) * 4096 + (b1 - 0x80) * 64 + (b2 - 0x80))
               :: utf8_decode_prefix r2
        else []
      | _ => []
      end
    else if in_range 0xF0 0xF4 b0 then
      match r with
      | b1 :: b2 :: b3 :: r3 =>
        let lo1 := if b0 =? 0xF0 then 0x90 else 0x80 in
        let hi1 := if b0 =? 0xF4 then 0x8F else 0xBF in
        if in_range lo1 hi1 b1 && in_range 0x80 0xBF b2 && in_range 0x80 0xBF b3
        then ((b0 - 0xF0) * 262144 + (b1 - 0x80) * 4096
              + (b2 - 0x80) * 64 + (b3 - 0x80)) :: utf8_decode_prefix r3
        else []
      | _ => []
      end
    else []
  end.

(** Modelled from the spec: the 32-bit minimum, then the marker and length
    checks of [decode]; then as many complete data bytes as are available,
    at most [N], decoded by [utf8_decode_prefix]; the checksum is not read. *)
Definition decodePartial (bits : list Z) : option text :=
  if (length bits <? 32)%nat then None else
  match findStartMarker bits with
  | None => None
  | Some markerIndex =>
    let dataStart := (markerIndex + 8)%nat in
    let lengthBits := slice bits dataStart (dataStart + 8) in
    if (length lengthBits <? 8)%nat then None else
    let dataLength := bitsToNumber lengthBits in
    if (dataLength >? MAX_MESSAGE_BYTES) || (dataLength =? 0) then None else
    let available := Nat.min (Z.to_nat dataLength)
                             ((length bits - (dataStart + 8)) / 8) in
    match read_bytes bits available (dataStart + 8) with
    | None => None
    | Some (dataBytes, _) => Some (utf8_decode_prefix (uint8array dataBytes))
    end
  end.

End DecodePartialModel.

(** ** Receiver types ([src/types/index.ts]) *)

Inductive ReceiverState := Idle | Pilot | Gap | Bits.

(** [ReceiverStatus]; [progress] is a JS number in [0, 1]. *)
Inductive ReceiverStatus :=
| StIdle
| StPilot
| StGap
| StReceiving (progress : Q) (partialText : option text)
| StSuccess
| StError (message : String.string).

Inductive ErrorType := ErrChecksum | ErrTimeout | ErrPermission | ErrDecode.

(** One callback invocation: [onStatusChange], [onMessage] or [onError]. *)
Inductive Event :=
| StatusChange (s : ReceiverStatus)
| OnMessage (m : text)
| OnError (type : ErrorType) (message : String.string).

Module Messages.
Import Strings.String.
Local Open Scope string_scope.
Definition timeout : string := "timeout".
Definition timeout_long : string := "Receive timeout: too many bits without valid message".
Definition decode_failed : string := "decode failed".
Definition checksum_failed : string := "Checksum verification failed".
End Messages.

(** ** [BitReceiver]: one [processFrame] per poll tick *)

Module BitReceiver.

Definition PARTIAL_DECODE_MIN_BITS : nat := 32.

(** [gapMs] is [config.gapMs ?? GAP_MS]; timestamps are [performance.now()]
    values, taken here as integers (milliseconds). *)
Record Config := { bitMs : Z; guardMs : Z; gapMs : Z }.

Definition bitInterval (cfg : Config) : Z := bitMs cfg + guardMs cfg.

Record Receiver := {
  state : ReceiverState;
  bits : list Z;
  gapStartTime : Z;
  lastBitTime : Z;
  running : bool
}.

(** What the two detector callbacks answer on this tick; each is read only
    where the source calls it. *)
Record Sample := { detectPilot : bool; detectBit : option Z }.

Definition set_state (r : Receiver) (s : ReceiverState) : Receiver :=
  {| state := s; bits := bits r; gapStartTime := gapStartTime r;
     lastBitTime := lastBitTime r; running := running r |}.

Definition reset (r : Receiver) : Receiver :=
  {| state := Idle; bits := []; gapStartTime := 0; lastBitTime := 0;
     running := running r |}.

Definition handleIdleState (r : Receiver) (smp : Sample) : Receiver * list Event :=
  if detectPilot smp then (set_state r Pilot, [StatusChange StPilot]) else (r, []).

Definition handlePilotState (r : Receiver) (now : Z) (smp : Sample)
  : Receiver * list Event :=
  if negb (detectPilot smp) then
    ({| state := Gap; bits := bits r; gapStartTime := now;
        lastBitTime := lastBitTime r; running := running r |},
     [StatusChange StGap])
  else (r, []).

(** [elapsed >= gapMs * GAP_THRESHOLD_MULTIPLIER] with the multiplier [0.6]
    taken as the exact rational [6/10]. *)
Definition handleGapState (cfg : Config) (r : Receiver) (now : Z)
  : Receiver * list Event :=
  let elapsed := now - gapStartTime r in
  if 6 * gapMs cfg <=? 10 * elapsed then
    ({| state := Bits; bits := []; gapStartTime := gapStartTime r;
        lastBitTime := now; running := running r |},
     [StatusChange (StReceiving 0%Q None)])
  else (r, []).

Definition tryDecode (r : Receiver) : Receiver * list Event :=
  match Protocol.decode (bits r) with
  | Some message =>
    (reset r, [StatusChange StSuccess; OnMessage message; StatusChange StIdle])
  | None => (r, [])
  end.

Definition handleTimeout (r : Receiver) : Receiver * list Event :=
  (reset r,
   [StatusChange (StError Messages.timeout);
    OnError ErrTimeout Messages.timeout_long;
    StatusChange StIdle]).

Definition handleBitsState (cfg : Config) (r : Receiver) (now : Z) (smp : Sample)
  : Receiver * list Event :=
  let elapsed := now - lastBitTime r in
  if bitInterval cfg <=? elapsed then
    match detectBit smp with
    | None => (r, [])
    | Some bit =>
      let r1 := {| state := state r; bits := bits r ++ [bit];
                   gapStartTime := gapStartTime r; lastBitTime := now;
                   running := running r |} in
      let n := length (bits r1) in
      let progress := Qmin 1%Q (inject_Z (Z.of_nat n) / inject_Z (24 + 8))%Q in
      let partialText :=
        if (PARTIAL_DECODE_MIN_BITS <=? n)%nat then
          match DecodePartialModel.decodePartial (bits r1) with
          | Some (_ :: _ as t) => Some t
          | _ => None
          end
        else None in
      let ev1 := [StatusChange (StReceiving progress partialText)] in
      let '(r2, ev2) := if (24 <=? n)%nat then tryDecode r1 else (r1, []) in
      let '(r3, ev3) :=
        if Z.of_nat (length (bits r2)) >? MAX_BITS_TIMEOUT then handleTimeout r2
        else (r2, []) in
      (r3, ev1 ++ ev2 ++ ev3)
    end
  else (r, []).

Definition processFrame (cfg : Config) (r : Receiver) (now : Z) (smp : Sample)
  : Receiver * list Event :=
  match state r with
  | Idle => handleIdleState r smp
  | Pilot => handlePilotState r now smp
  | Gap => handleGapState cfg r now
  | Bits => handleBitsState cfg r now smp
  end.

(** [stop]: [running = false], the pending animation frame is cancelled,
    then [reset]. *)
Definition stop (r : Receiver) : Receiver :=
  reset {| state := state r; bits := bits r; gapStartTime := gapStartTime r;
           lastBitTime := lastBitTime r; running := false |}.

(** [poll]: [if (!this.running) return; this.processFrame();] then the next
    [poll] is scheduled; one call is one animation frame. *)
Definition poll (cfg : Config) (r : Receiver) (now : Z) (smp : Sample)
  : Receiver * list Event :=
  if negb (running r) then (r, []) else processFrame cfg r now smp.

(** [start]: [if (this.running) return; running = true; reset();
    notifyStatus idle; poll()]. *)
Definition start (cfg : Config) (r : Receiver) (now : Z) (smp : Sample)
  : Receiver * list Event :=
  if running r then (r, [])
  else
    let r1 := reset {| state := state r; bits := bits r; gapStartTime := gapStartTime r;
                       lastBitTime := lastBitTime r; running := true |} in
    let '(r2, ev) := poll cfg r1 now smp in
    (r2, StatusChange StIdle :: ev).

(** The [requestAnimationFrame] loop: one [poll] per tick [(now, sample)]. *)
Fixpoint run (cfg : Config) (r : Receiver) (ticks : list (Z * Sample))
  : Receiver * list Event :=
  match ticks with
  | [] => (r, [])
  | (now, smp) :: ts =>
    let '(r1, ev1) := poll cfg r now smp in
    let '(r2, ev2) := run cfg r1 ts in
    (r2, ev1 ++ ev2)
  end.

End BitReceiver.

(** ** [ManualBitReceiver]: explicit single-step methods *)

Module ManualBitReceiver.

Record Receiver := { state : ReceiverState; bits : list Z }.

Definition initial : Receiver := {| state := Idle; bits := [] |}.

Definition status_of (s : ReceiverState) : ReceiverStatus :=
  match s with
  | Idle => StIdle
  | Pilot => StPilot
  | Gap => StGap
  | Bits => StReceiving 0%Q None
  end.

Definition setState (r : Receiver) (s : ReceiverState) : Receiver * list Event :=
  ({| state := s; bits := bits r |}, [StatusChange (status_of s)]).

Definition addBit (r : Receiver) (bit : Z) : Receiver :=
  {| state := state r; bits := bits r ++ [bit] |}.

Definition clearBits (r : Receiver) : Receiver := {| state := state r; bits := [] |}.

Definition processPilotDetected (r : Receiver) (detected : bool) : Receiver * list Event :=
  match state r, detected with
  | Idle, true => ({| state := Pilot; bits := bits r |}, [StatusChange StPilot])
  | Pilot, false => ({| state := Gap; bits := bits r |}, [StatusChange StGap])
  | _, _ => (r, [])
  end.

Definition startBitCollection (r : Receiver) : Receiver * list Event :=
  match state r with
  | Gap => ({| state := Bits; bits := [] |}, [StatusChange (StReceiving 0%Q None)])
  | _ => (r, [])
  end.

Definition reset (r : Receiver) : Receiver * list Event :=
  ({| state := Idle; bits := [] |}, [StatusChange StIdle]).

Definition tryDecode (r : Receiver) : Receiver * list Event :=
  match Protocol.decode (bits r) with
  | Some message =>
    let '(r', ev) := reset r in
    (r', [StatusChange StSuccess; OnMessage message] ++ ev)
  | None =>
    (r, [StatusChange (StError Messages.decode_failed);
         OnError ErrChecksum Messages.checksum_failed])
  end.

End ManualBitReceiver.

(** ** [GridAnalyzer] and the checkerboard pattern ([src/infrastructure/video-manager.ts],
    [src/infrastructure/canvas-manager.ts]) *)

Definition GRID_ROWS : Z := 4.
Definition GRID_COLS : Z := 4.

(** [for (row = 0; row < n; row++)]: the loop indices [0 .. n-1]. *)
Definition range (n : Z) : list Z := map Z.of_nat (seq 0 (Z.to_nat n)).

(** [createCheckerboardPattern]: [bits.push((row + col) % 2)] row by row. *)
Definition createCheckerboardPattern : list Z :=
  flat_map (fun row => map (fun col => (row + col) mod 2) (range GRID_COLS)) (range GRID_ROWS).

Module GridAnalyzer.

(** [isCheckerboard]: count the cells with [bits[row * GRID_COLS + col] === (row + col) % 2]
    (a missing cell is [undefined] and does not match), then
    [matchCount / (GRID_ROWS * GRID_COLS) >= 0.75]. *)
Definition isCheckerboard (bits : list Z) : bool :=
  let matchCount :=
    fold_left (fun acc row =>
      fold_left (fun acc col =>
        let index := row * GRID_COLS + col in
        let expected := (row + col) mod 2 in
        match js_index bits index with
        | Some v => if v =? expected then acc + 1 else acc
        | None => acc
        end) (range GRID_COLS) acc) (range GRID_ROWS) 0 in
  Qle_bool (3 # 4) (inject_Z matchCount / inject_Z (GRID_ROWS * GRID_COLS)).

End GridAnalyzer.

(** ** [GridChannel]: the receive loop of the grid channel ([src/channels/grid-channel.ts]) *)

Module GridMessages.
Import Strings.String.
Local Open Scope string_scope.
Definition too_many_frames : string := "too many frames".
Definition too_many_frames_long : string := "Too many frames received".
End GridMessages.

Module GridChannel.

Definition GRID_FRAME_MS : Z := 400.
Definition GRID_GAP_MS : Z := 400.

(** The receive state of a [GridChannel]; the model covers the time between
    [startReceive] and [stopReceive], while the analyzers are set and the
    callbacks are registered (with no callbacks, [notify*] does nothing). *)
Record Receiver := {
  state : ReceiverState;
  frames : list GridProtocol.frame;
  gapStartTime : Z;
  lastFrameTime : Z
}.

(** What the camera frame of one tick gives: [isAllWhite(imageData)] and
    [analyzeGrid(imageData)]. *)
Record Sample := { isAllWhite : bool; cells : list Z }.

Definition resetState (r : Receiver) : Receiver * list Event :=
  ({| state := Idle; frames := []; gapStartTime := gapStartTime r;
      lastFrameTime := lastFrameTime r |}, [StatusChange StIdle]).

Definition tryDecode (r : Receiver) : Receiver * list Event :=
  let ev :=
    match GridProtocol.decode (frames r) with
    | Some message => [StatusChange StSuccess; OnMessage message]
    | None => [StatusChange (StError Messages.decode_failed);
               OnError ErrChecksum Messages.checksum_failed]
    end in
  let '(r', ev') := resetState r in
  (r', ev ++ ev').

Definition handleIdleState (r : Receiver) (smp : Sample) : Receiver * list Event :=
  if isAllWhite smp then
    ({| state := Pilot; frames := frames r; gapStartTime := gapStartTime r;
        lastFrameTime := lastFrameTime r |}, [StatusChange StPilot])
  else (r, []).

Definition handlePilotState (r : Receiver) (smp : Sample) (now : Z) : Receiver * list Event :=
  if negb (isAllWhite smp) then
    ({| state := Gap; frames := frames r; gapStartTime := now;
        lastFrameTime := lastFrameTime r |}, [StatusChange StGap])
  else (r, []).

(** [elapsed >= GRID_GAP_MS * GAP_THRESHOLD_MULTIPLIER] with the multiplier
    [0.6] taken as the exact rational [6/10]. *)
Definition handleGapState (r : Receiver) (now : Z) : Receiver * list Event :=
  let elapsed := now - gapStartTime r in
  if 6 * GRID_GAP_MS <=? 10 * elapsed then
    ({| state := Bits; frames := []; gapStartTime := gapStartTime r;
        lastFrameTime := now |}, [StatusChange (StReceiving 0%Q None)])
  else (r, []).

Definition handleBitsState (r : Receiver) (bits : list Z) (now : Z) : Receiver * list Event :=
  let elapsed := now - lastFrameTime r in
  if GRID_FRAME_MS <=? elapsed then
    if GridAnalyzer.isCheckerboard bits then tryDecode r
    else
      let frame := GridProtocol.cellsToFrame bits in
      let r1 := {| state := state r; frames := frames r ++ [frame];
                   gapStartTime := gapStartTime r; lastFrameTime := now |} in
      let progress := Qmin 1%Q (inject_Z (Z.of_nat (length (frames r1))) / inject_Z 10)%Q in
      let ev1 := [StatusChange (StReceiving progress None)] in
      if (200 <? length (frames r1))%nat then
        let '(r2, ev2) := resetState r1 in
        (r2, ev1 ++ [StatusChange (StError GridMessages.too_many_frames);
                     OnError ErrTimeout GridMessages.too_many_frames_long] ++ ev2)
      else (r1, ev1)
  else (r, []).

Definition processFrame (r : Receiver) (now : Z) (smp : Sample) : Receiver * list Event :=
  match state r with
  | Idle => handleIdleState r smp
  | Pilot => handlePilotState r smp now
  | Gap => handleGapState r now
  | Bits => handleBitsState r (cells smp) now
  end.

(** The polling loop of [startPolling]: one [processFrame] per tick. *)
Fixpoint run (r : Receiver) (ticks : list (Z * Sample)) : Receiver * list Event :=
  match ticks with
  | [] => (r, [])
  | (now, smp) :: ts =>
    let '(r1, ev1) := processFrame r now smp in
    let '(r2, ev2) := run r1 ts in
    (r2, ev1 ++ ev2)
  end.

End GridChannel.

(** ** Sample inputs of the test suite *)

(** Code points of a JS string are in [0, 0x10FFFF]. *)
Definition is_code_point (c : Z) : bool := (0 <=? c) && (c <=? 0x10FFFF).

(** "Test" *)
Definition test_text : text := [84; 101; 115; 116].
(** "こんにちは" *)
Definition konnichiwa : text := [0x3053; 0x3093; 0x306B; 0x3061; 0x306F].
(** "A" *)
Definition a_text : text := [65].
(** "\uFEFF" (ZERO WIDTH NO-BREAK SPACE, the byte order mark) *)
Definition bom_text : text := [0xFEFF].
(** ['a'.repeat(n)] *)
Definition a_repeat (n : nat) : text := repeat 97 n.

(** [bits[bits.length - 1] = bits[bits.length - 1] === 0 ? 1 : 0] *)
Definition flip_last (bits : list Z) : list Z :=
  match rev bits with
  | [] => []
  | b :: r => rev r ++ [if b =? 0 then 1 else 0]
  end.

(** The first 80 bits of [encode("こんにちは")]: the header and 7 of the 15
    data bytes, the last of them the lead byte of the third character. *)
Definition konnichiwa_partial_bits : list Z :=
  firstn 80 (match Protocol.encode konnichiwa with Ok b => b | Throw _ => [] end).

(** [encode("A")] *)
Definition a_bits : list Z :=
  match Protocol.encode a_text with Ok b => b | Throw _ => [] end.

(** A configuration, a receiver in the [bits] state holding [bs] with its
    last bit read at time 0, and a tick on which the detector reads [b]. *)
Definition sample_config : BitReceiver.Config :=
  {| BitReceiver.bitMs := 100; BitReceiver.guardMs := 20; BitReceiver.gapMs := GAP_MS |}.
Definition bits_receiver (bs : list Z) : BitReceiver.Receiver :=
  {| BitReceiver.state := Bits; BitReceiver.bits := bs; BitReceiver.gapStartTime := 0;
     BitReceiver.lastBitTime := 0; BitReceiver.running := true |}.
Definition bit_sample (b : Z) : BitReceiver.Sample :=
  {| BitReceiver.detectPilot := false; BitReceiver.detectBit := Some b |}.
Definition manual_bits_receiver (bs : list Z) : ManualBitReceiver.Receiver :=
  {| ManualBitReceiver.state := Bits; ManualBitReceiver.bits := bs |}.

(** [i % 2] for [i = 0 .. n-1]: the alternating bits of the timeout scenario. *)
Definition alternating (n : nat) : list Z := map (fun i => Z.of_nat i mod 2) (seq 0 n).

(** [bits[i] = bits[i] === 0 ? 1 : 0] for an index [i] in range. *)
Definition flip_at (bits : list Z) (i : nat) : list Z :=
  firstn i bits ++ (if nth i bits 0 =? 0 then 1 else 0) :: skipn (S i) bits.

(** A transmitter that shows one bit per [interval], the first [interval]
    after [t]; the detector reads each bit on its tick. *)
Fixpoint bit_ticks (interval t : Z) (bs : list Z) : list (Z * BitReceiver.Sample) :=
  match bs with
  | [] => []
  | b :: bs' =>
    (t + interval, {| BitReceiver.detectPilot := false; BitReceiver.detectBit := Some b |})
      :: bit_ticks interval (t + interval) bs'
  end.

(** The frames of [GridChannel.send] seen by the camera, one every
    [GRID_FRAME_MS] after [t], then the checkerboard end marker. *)
Fixpoint grid_ticks (t : Z) (frames : list GridProtocol.frame)
  : list (Z * GridChannel.Sample) :=
  match frames with
  | [] => [(t + GridChannel.GRID_FRAME_MS,
            {| GridChannel.isAllWhite := false; GridChannel.cells := createCheckerboardPattern |})]
  | f :: fs =>
    (t + GridChannel.GRID_FRAME_MS,
     {| GridChannel.isAllWhite := false; GridChannel.cells := GridProtocol.frameToCells f |})
      :: grid_ticks (t + GridChannel.GRID_FRAME_MS) fs
  end.

(** The number of bit positions in which two bytes differ. *)
Definition hamming8 (a b : Z) : nat :=
  length (filter (fun i => xorb (Z.testbit a i) (Z.testbit b i)) (range 8)).

(** "ZZ" *)
Definition zz_text : text := [90; 90].

(** [bits[i + j] === 1] for [j = 0 .. 7]: a start marker at [i]. *)
Definition ones_at (l : list Z) (i : nat) : Prop :=
  forall j, (j < 8)%nat -> nth_error l (i + j) = Some 1.

(** The byte list with byte [q] replaced by [x]. *)
Definition replace_at (l : list Z) (q : nat) (x : Z) : list Z :=
  firstn q l ++ x :: skipn (S q) l.

(** * Proofs *)

Definition is_byte (b : Z) : Prop := 0 <= b < 256.

(** ** Arithmetic helpers *)

(** Decide a bounded comparison or a case split on the numeric tests of the goal. *)
Ltac zcases :=
  repeat match goal with
  | |- context [?x <=? ?y] => destruct (Z.leb_spec x y); try (exfalso; lia)
  | |- context [?x <? ?y] => destruct (Z.ltb_spec x y); try (exfalso; lia)
  | |- context [?x =? ?y] => destruct (Z.eqb_spec x y); try (exfalso; lia)
  end.

(** A boolean test over [0 .. n-1], checked by evaluation, holds on the whole range. *)
Lemma Z_range_check (f : Z -> bool) (n : nat) :
  forallb f (map Z.of_nat (seq 0 n)) = true -> forall z, 0 <= z < Z.of_nat n -> f z = true.
Proof.
  intros H z Hz.
  rewrite forallb_forall in H. apply H.
  apply in_map_iff. exists (Z.to_nat z). split; [lia|].
  apply in_seq. lia.
Qed.

(** ** UTF-8 round trip *)

Lemma in_range_spec lo hi b : in_range lo hi b = true <-> lo <= b <= hi.
Proof. unfold in_range. rewrite andb_true_iff, !Z.leb_le. tauto. Qed.

Lemma in_range_false lo hi b : b < lo \/ hi < b -> in_range lo hi b = false.
Proof. unfold in_range. intros H. zcases; reflexivity. Qed.

Lemma utf8_decode_cons b0 r : utf8_decode (b0 :: r) =
  if in_range 0 0x7F b0 then option_map (cons b0) (utf8_decode r)
  else if in_range 0xC2 0xDF b0 then
    match r with
    | b1 :: r1 =>
      if in_range 0x80 0xBF b1
      then option_map (cons ((b0 - 0xC0) * 64 + (b1 - 0x80))) (utf8_decode r1)
      else None
    | _ => None
    end
  else if in_range 0xE0 0xEF b0 then
    match r with
    | b1 :: b2 :: r2 =>
      let lo1 := if b0 =? 0xE0 then 0xA0 else 0x80 in
      let hi1 := if b0 =? 0xED then 0x9F else 0xBF in
      if in_range lo1 hi1 b1 && in_range 0x80 0xBF b2
      then option_map
             (cons ((b0 - 0xE0) * 4096 + (b1 - 0x80) * 64 + (b2 - 0x80)))
             (utf8_decode r2)
      else None
    | _ => None
    end
  else if in_range 0xF0 0xF4 b0 then
    match r with
    | b1 :: b2 :: b3 :: r3 =>
      let lo1 := if b0 =? 0xF0 then 0x90 else 0x80 in
      let hi1 := if b0 =? 0xF4 then 0x8F else 0xBF in
      if in_range lo1 hi1 b1 && in_range 0x80 0xBF b2 && in_range 0x80 0xBF b3
      then option_map
             (cons ((b0 - 0xF0) * 262144 + (b1 - 0x80) * 4096
                    + (b2 - 0x80) * 64 + (b3 - 0x80)))
             (utf8_decode r3)
      else None
    | _ => None
    end
  else None.
Proof. reflexivity. Qed.

(** Settle the numeric tests of the goal that the context decides. *)
Ltac decide_tests :=
  repeat (match goal with
   | |- context [in_range ?lo ?hi ?b] =>
       first [ rewrite (proj2 (in_range_spec lo hi b)) by lia
             | rewrite (in_range_false lo hi b) by lia ]
   | |- context [?x =? ?y] =>
       first [ rewrite (proj2 (Z.eqb_eq x y)) by lia
             | rewrite (proj2 (Z.eqb_neq x y)) by lia ]
   | |- context [?x <=? ?y] =>
       first [ rewrite (proj2 (Z.leb_le x y)) by lia
             | rewrite (proj2 (Z.leb_gt x y)) by lia ]
   | |- context [?x <? ?y] =>
       first [ rewrite (proj2 (Z.ltb_lt x y)) by lia
             | rewrite (proj2 (Z.ltb_ge x y)) by lia ]
   end; cbn [andb orb negb]).

Lemma utf8_decode2 (q d : Z) (r : list Z) :
  2 <= q <= 31 -> 0 <= d < 64 ->
  utf8_decode ((192 + q) :: (128 + d) :: r) = option_map (cons (64 * q + d)) (utf8_decode r).
Proof.
  intros Hq Hd. rewrite utf8_decode_cons. decide_tests.
  do 2 f_equal; lia.
Qed.
Lemma utf8_decode3 (a b d : Z) (r : list Z) :
  0 <= a <= 15 -> 0 <= b < 64 -> 0 <= d < 64 ->
  (a = 0 -> 32 <= b) -> (a = 13 -> b < 32) ->
  utf8_decode ((224 + a) :: (128 + b) :: (128 + d) :: r)
  = option_map (cons (4096 * a + 64 * b + d)) (utf8_decode r).
Proof.
  intros Ha Hb Hd H0 H13. rewrite utf8_decode_cons.
  destruct (Z.eq_dec a 0); [|destruct (Z.eq_dec a 13)]; decide_tests.
  all: do 2 f_equal; lia.
Qed.
Lemma utf8_decode4 (h g b d : Z) (r : list Z) :
  0 <= h <= 4 -> 0 <= g < 64 -> 0 <= b < 64 -> 0 <= d < 64 ->
  (h = 0 -> 16 <= g) -> (h = 4 -> g < 16) ->
  utf8_decode ((240 + h) :: (128 + g) :: (128 + b) :: (128 + d) :: r)
  = option_map (cons (262144 * h + 4096 * g + 64 * b + d)) (utf8_decode r).
Proof.
  intros Hh Hg Hb Hd H0 H4. rewrite utf8_decode_cons.
  destruct (Z.eq_dec h 0); [|destruct (Z.eq_dec h 4)]; decide_tests.
  all: do 2 f_equal; lia.
Qed.

(** Split a code point [c] into its base-64 digits [h g b d]
    ([c = 262144 h + 4096 g + 64 b + d]), the digits the encoder's divisions pick. *)
Ltac cp_digits c :=
  replace (c / 4096) with (c / 64 / 64) by (rewrite Z.div_div by lia; reflexivity);
  replace (c / 262144) with (c / 64 / 64 / 64) by (rewrite !Z.div_div by lia; reflexivity);
  pose proof (Z.div_mod c 64 ltac:(lia)) as E1;
  pose proof (Z.mod_pos_bound c 64 ltac:(lia)) as B1;
  pose proof (Z.div_mod (c / 64) 64 ltac:(lia)) as E2;
  pose proof (Z.mod_pos_bound (c / 64) 64 ltac:(lia)) as B2;
  pose proof (Z.div_mod (c / 64 / 64) 64 ltac:(lia)) as E3;
  pose proof (Z.mod_pos_bound (c / 64 / 64) 64 ltac:(lia)) as B3;
  remember (c mod 64) as d eqn:Hd; remember (c / 64) as e eqn:He;
  remember (e mod 64) as b eqn:Hb; remember (e / 64) as f eqn:Hf;
  remember (f mod 64) as g eqn:Hg; remember (f / 64) as h eqn:Hh;
  clear Hd He Hb Hf Hg Hh.

Lemma utf8_decode_cp (c : Z) (r : list Z) :
  is_scalar c = true ->
  utf8_decode (utf8_encode_cp c ++ r) = option_map (cons c) (utf8_decode r).
Proof.
  unfold is_scalar, is_surrogate. intros Hc.
  rewrite !andb_true_iff, negb_true_iff, andb_false_iff, !Z.leb_le, !Z.leb_gt in Hc.
  destruct Hc as [[H0 H1] Hs].
  unfold utf8_encode_cp, is_surrogate.
  cp_digits c.
  assert (c < 0x80 \/ 0x80 <= c < 0x800 \/ 0x800 <= c < 0x10000 \/ 0x10000 <= c)
    as [Hr|[Hr|[Hr|Hr]]] by lia;
    destruct Hs; decide_tests; rewrite <- ?app_comm_cons, ?app_nil_l; try lia.
  all: first
    [ rewrite utf8_decode_cons; decide_tests; reflexivity
    | replace c with (64 * e + d) by lia; apply utf8_decode2; lia
    | replace c with (4096 * f + 64 * b + d) by lia; apply utf8_decode3; lia
    | replace c with (262144 * h + 4096 * g + 64 * b + d) by lia;
      apply utf8_decode4; lia ].
Qed.

Lemma utf8_roundtrip (s : text) :
  Forall (fun c => is_scalar c = true) s ->
  utf8_decode (text_encoder_encode s) = Some s.
Proof.
  induction 1 as [|c s Hc _ IH]; [reflexivity|].
  unfold text_encoder_encode in *. cbn [flat_map].
  rewrite utf8_decode_cp, IH by exact Hc. reflexivity.
Qed.

Lemma utf8_encode_cp_bytes (c : Z) :
  0 <= c <= 0x10FFFF -> Forall is_byte (utf8_encode_cp c).
Proof.
  intros Hc. unfold utf8_encode_cp, is_surrogate, is_byte.
  cp_digits c.
  assert (c < 0x80 \/ 0x80 <= c < 0x800 \/ 0x800 <= c < 0x10000 \/ 0x10000 <= c)
    as [Hr|[Hr|[Hr|Hr]]] by lia;
    assert (c < 0xD800 \/ 0xD800 <= c <= 0xDFFF \/ 0xDFFF < c) as [Hs|[Hs|Hs]] by lia;
    decide_tests; repeat constructor; lia.
Qed.

Lemma text_encoder_encode_bytes (s : text) :
  forallb is_scalar s = true -> Forall is_byte (text_encoder_encode s).
Proof.
  induction s as [|c s IH]; cbn [forallb]; intros H; [constructor|].
  apply andb_true_iff in H as [Hc Hs].
  unfold text_encoder_encode in *. cbn [flat_map]. apply Forall_app. split.
  - apply utf8_encode_cp_bytes. unfold is_scalar in Hc.
    rewrite !andb_true_iff, !Z.leb_le in Hc. lia.
  - exact (IH Hs).
Qed.

Lemma lxor_byte (a b : Z) : is_byte a -> is_byte b -> is_byte (Z.lxor a b).
Proof.
  unfold is_byte. intros Ha Hb.
  assert (forall a, 0 <= a < Z.of_nat 256 ->
    forallb (fun b => in_range 0 255 (Z.lxor a b)) (map Z.of_nat (seq 0 256)) = true) as Hall.
  { apply (Z_range_check (fun a => forallb (fun b => in_range 0 255 (Z.lxor a b))
                                     (map Z.of_nat (seq 0 256)))).
    vm_compute. reflexivity. }
  specialize (Z_range_check _ 256 (Hall a ltac:(lia)) b ltac:(lia)).
  rewrite in_range_spec. lia.
Qed.

Lemma to_uint8_byte (b : Z) : is_byte b -> to_uint8 b = b.
Proof. unfold is_byte, to_uint8. intros. apply Z.mod_small. lia. Qed.

Lemma uint8array_bytes (bs : list Z) : Forall is_byte bs -> uint8array bs = bs.
Proof.
  unfold uint8array. induction 1; [reflexivity|].
  cbn [map]. rewrite to_uint8_byte by assumption. congruence.
Qed.

Module ProtocolFacts.
Import Protocol.

Lemma byteToBits_length (b : Z) : length (byteToBits b) = 8%nat.
Proof. reflexivity. Qed.

Lemma bitsToNumber_byteToBits (b : Z) : is_byte b -> bitsToNumber (byteToBits b) = b.
Proof.
  unfold is_byte. intros Hb. apply Z.eqb_eq.
  apply (Z_range_check (fun b => bitsToNumber (byteToBits b) =? b) 256); [|lia].
  vm_compute. reflexivity.
Qed.

Lemma firstn_byteToBits (b : Z) (l : list Z) : firstn 8 (byteToBits b ++ l) = byteToBits b.
Proof. reflexivity. Qed.

Lemma skipn_byteToBits (b : Z) (l : list Z) : skipn 8 (byteToBits b ++ l) = l.
Proof. reflexivity. Qed.

Lemma checksum_byte_acc (bytes : list Z) (acc : Z) :
  is_byte acc -> Forall is_byte bytes -> is_byte (fold_left Z.lxor bytes acc).
Proof.
  intros Hacc Hb. revert acc Hacc.
  induction Hb; intros acc Hacc; cbn; [assumption|].
  apply IHHb. apply lxor_byte; assumption.
Qed.

Lemma checksum_byte (bytes : list Z) :
  Forall is_byte bytes -> is_byte (calculateChecksum bytes).
Proof. intros. apply checksum_byte_acc; [unfold is_byte; lia | assumption]. Qed.

Lemma slice_8 (l : list Z) (i : nat) : slice l i (i + 8) = firstn 8 (skipn i l).
Proof. unfold slice. f_equal. lia. Qed.

Lemma read_bytes_frame (l : list Z) (bytes rest : list Z) (i : nat) :
  Forall is_byte bytes ->
  skipn i l = flat_map byteToBits bytes ++ rest ->
  read_bytes l (length bytes) i = Some (bytes, (i + 8 * length bytes)%nat).
Proof.
  intros Hb. revert i. induction Hb as [|b bytes Hb1 Hbs IH]; intros i Hskip.
  - cbn. f_equal. f_equal. lia.
  - cbn [length read_bytes]. rewrite slice_8, Hskip. cbn [flat_map].
    rewrite <- app_assoc, firstn_byteToBits, byteToBits_length. cbn [Nat.ltb Nat.leb].
    rewrite (IH (i + 8)%nat).
    + rewrite bitsToNumber_byteToBits by assumption. do 2 f_equal. lia.
    + replace (i + 8)%nat with (8 + i)%nat by lia.
      rewrite <- skipn_skipn, Hskip. cbn [flat_map].
      rewrite <- app_assoc. apply skipn_byteToBits.
Qed.

Lemma skipn_flat_map_byteToBits (bytes r : list Z) :
  skipn (8 * length bytes) (flat_map byteToBits bytes ++ r) = r.
Proof.
  induction bytes as [|b bytes IH]; [reflexivity|].
  cbn [length flat_map]. replace (8 * S (length bytes))%nat with (8 * length bytes + 8)%nat by lia.
  rewrite <- skipn_skipn, <- app_assoc, skipn_byteToBits. exact IH.
Qed.

Lemma slice_app_shift (p l : list Z) (a b : nat) :
  slice (p ++ l) (length p + a) (length p + b) = slice l a b.
Proof.
  unfold slice. replace (length p + b - (length p + a))%nat with (b - a)%nat by lia.
  rewrite skipn_app, (skipn_all2 p) by lia. cbn [app].
  do 2 f_equal. lia.
Qed.

Lemma read_bytes_shift (p l : list Z) (n i : nat) :
  read_bytes (p ++ l) n (length p + i)
  = option_map (fun '(bs, j) => (bs, (length p + j)%nat)) (read_bytes l n i).
Proof.
  revert i. induction n as [|n IH]; intros i; [reflexivity|].
  cbn [read_bytes]. replace (length p + i + 8)%nat with (length p + (i + 8))%nat by lia.
  rewrite slice_app_shift. destruct (length (slice l i (i + 8)) <? 8)%nat; [reflexivity|].
  rewrite IH. destruct (read_bytes l n (i + 8)) as [[bs j]|]; reflexivity.
Qed.

(** [decode] reads the frame right after the marker it finds, so bits placed
    in front of the buffer change nothing once the marker index moves with them. *)
Lemma decode_shift (p l : list Z) (k : nat) :
  findStartMarker l = Some k ->
  findStartMarker (p ++ l) = Some (length p + k)%nat ->
  decode (p ++ l) = decode l.
Proof.
  intros Hl Hpl. unfold decode. rewrite Hl, Hpl.
  replace (length p + k + 8)%nat with (length p + (k + 8))%nat by lia.
  replace (length p + (k + 8) + 8)%nat with (length p + (k + 8 + 8))%nat by lia.
  rewrite slice_app_shift.
  destruct (length (slice l (k + 8) (k + 8 + 8)) <? 8)%nat; [reflexivity|].
  destruct (_ || _); [reflexivity|].
  rewrite read_bytes_shift.
  destruct (read_bytes l _ (k + 8 + 8)) as [[bs j]|]; [|reflexivity]. cbn [option_map].
  replace (length p + j + 8)%nat with (length p + (j + 8))%nat by lia.
  rewrite slice_app_shift. reflexivity.
Qed.

(** [decode] on a buffer holding a frame with a byte [c] in the checksum
    position, right after its first marker. *)
Lemma decode_frame (l : list Z) (k : nat) (bytes : list Z) (c : Z) (rest : list Z) :
  findStartMarker l = Some k ->
  skipn (k + 8) l = byteToBits (Z.of_nat (length bytes)) ++ flat_map byteToBits bytes
                    ++ byteToBits c ++ rest ->
  Forall is_byte bytes -> is_byte c ->
  (1 <= length bytes <= 200)%nat ->
  decode l = if c =? calculateChecksum bytes then text_decoder_decode bytes else None.
Proof.
  intros Hk Hskip Hb Hc Hlen. unfold decode. rewrite Hk.
  rewrite slice_8, Hskip, firstn_byteToBits, byteToBits_length. cbn [Nat.ltb Nat.leb negb].
  rewrite bitsToNumber_byteToBits by (unfold is_byte; lia).
  unfold MAX_MESSAGE_BYTES. rewrite Z.gtb_ltb. decide_tests. rewrite Nat2Z.id.
  rewrite (read_bytes_frame l bytes (byteToBits c ++ rest)).
  - rewrite slice_8.
    replace (k + 8 + 8 + 8 * length bytes)%nat with (8 * length bytes + (8 + (k + 8)))%nat by lia.
    rewrite <- (skipn_skipn (8 * length bytes)), <- (skipn_skipn 8 (k + 8)).
    rewrite Hskip, skipn_byteToBits, skipn_flat_map_byteToBits.
    rewrite firstn_byteToBits, byteToBits_length. cbn [Nat.ltb Nat.leb].
    rewrite uint8array_bytes, bitsToNumber_byteToBits by assumption.
    destruct (c =? calculateChecksum bytes); reflexivity.
  - exact Hb.
  - replace (k + 8 + 8)%nat with (8 + (k + 8))%nat by lia.
    rewrite <- skipn_skipn, Hskip, skipn_byteToBits. reflexivity.
Qed.

Lemma find_from_shift (l : list Z) (i : nat) :
  find_from l i = option_map (Nat.add i) (find_from l 0).
Proof.
  revert i. induction l as [|a l IH]; intros i; [reflexivity|].
  cbn [find_from]. destruct (_ && _).
  - cbn. f_equal. lia.
  - rewrite (IH (S i)), (IH 1%nat). destruct (find_from l 0); cbn; [f_equal; lia | reflexivity].
Qed.

(** The marker search skips a prefix followed by the preamble as long as
    that stretch holds no run of eight 1-bits. *)
Lemma findStartMarker_frame (prefix rest : list Z) :
  findStartMarker (prefix ++ PREAMBLE) = None ->
  findStartMarker (prefix ++ PREAMBLE ++ START_MARKER ++ rest) = Some (length prefix + 8)%nat.
Proof.
  unfold findStartMarker. induction prefix as [|a p IH]; intros H; [reflexivity|].
  cbn [find_from app] in H |- *.
  assert (Hlen : (8 <=? length (a :: p ++ PREAMBLE))%nat = true).
  { apply Nat.leb_le. cbn [length]. rewrite length_app. cbn [length PREAMBLE]. lia. }
  assert (Hlen' : (8 <=? length (a :: p ++ PREAMBLE ++ START_MARKER ++ rest))%nat = true).
  { apply Nat.leb_le. cbn [length]. rewrite !length_app. cbn [length PREAMBLE START_MARKER]. lia. }
  rewrite Hlen in H. rewrite Hlen'. cbn [andb] in H |- *.
  assert (Hw : all_ones8 (a :: p ++ PREAMBLE ++ START_MARKER ++ rest)
               = all_ones8 (a :: p ++ PREAMBLE)).
  { unfold all_ones8. rewrite app_comm_cons, (app_assoc (a :: p)).
    rewrite firstn_app.
    replace (8 - length ((a :: p) ++ PREAMBLE))%nat with 0%nat
      by (rewrite length_app; cbn [length PREAMBLE]; lia).
    rewrite app_nil_r. reflexivity. }
  rewrite Hw. destruct (all_ones8 (a :: p ++ PREAMBLE)); [discriminate|].
  rewrite find_from_shift in H |- *.
  destruct (find_from (p ++ PREAMBLE) 0) eqn:E; [discriminate|].
  rewrite (IH eq_refl). reflexivity.
Qed.

(** The shape of a successful [encode]. *)
Lemma encode_ok (m : text) (bits : list Z) :
  encode m = Ok bits ->
  (length (text_encoder_encode m) <= 200)%nat /\
  bits = PREAMBLE ++ START_MARKER
         ++ byteToBits (Z.of_nat (length (text_encoder_encode m)))
         ++ flat_map byteToBits (text_encoder_encode m)
         ++ byteToBits (calculateChecksum (text_encoder_encode m)).
Proof.
  unfold encode, MAX_MESSAGE_BYTES. rewrite Z.gtb_ltb.
  destruct (Z.ltb_spec 200 (Z.of_nat (length (text_encoder_encode m)))).
  - discriminate.
  - intros H'. injection H' as <-. split; [lia | reflexivity].
Qed.

Lemma findStartMarker_encoded (prefix rest : list Z) :
  findStartMarker (prefix ++ PREAMBLE) = None ->
  findStartMarker (prefix ++ PREAMBLE ++ START_MARKER ++ rest) = Some (length prefix + 8)%nat.
Proof. apply findStartMarker_frame. Qed.

(** [calculateChecksum] of encoded text is a byte, and so is every data byte. *)
Lemma encoded_bytes (m : text) :
  forallb is_scalar m = true ->
  Forall is_byte (text_encoder_encode m) /\ is_byte (calculateChecksum (text_encoder_encode m)).
Proof.
  intros H. pose proof (text_encoder_encode_bytes m H).
  split; [assumption | apply checksum_byte; assumption].
Qed.
End ProtocolFacts.

Lemma scalar_Forall (m : text) :
  forallb is_scalar m = true -> Forall (fun c => is_scalar c = true) m.
Proof. intros H. apply Forall_forall. intros x Hx. exact (proj1 (forallb_forall _ _) H x Hx). Qed.

Lemma code_point_bytes (m : text) :
  forallb is_code_point m = true -> Forall is_byte (text_encoder_encode m).
Proof.
  induction m as [|c m IH]; cbn [forallb]; intros H; [constructor|].
  apply andb_true_iff in H as [Hc Hm]. unfold is_code_point in Hc.
  rewrite andb_true_iff, !Z.leb_le in Hc.
  unfold text_encoder_encode in *. cbn [flat_map]. apply Forall_app.
  split; [apply utf8_encode_cp_bytes; lia | exact (IH Hm)].
Qed.

Lemma scalar_code_point (m : text) :
  forallb is_scalar m = true -> forallb is_code_point m = true.
Proof.
  intros H. apply forallb_forall. intros x Hx.
  pose proof (proj1 (forallb_forall _ _) H x Hx) as Hs.
  unfold is_scalar in Hs. unfold is_code_point.
  apply andb_true_iff in Hs as [Hs _]. exact Hs.
Qed.

Lemma text_decoder_decode_roundtrip (m : text) :
  forallb is_scalar m = true -> hd_error m <> Some 0xFEFF ->
  text_decoder_decode (text_encoder_encode m) = Some m.
Proof.
  intros Hs Hbom. unfold text_decoder_decode.
  rewrite utf8_roundtrip by (apply scalar_Forall; exact Hs).
  destruct m as [|c t]; [reflexivity|]. cbn in Hbom.
  destruct (Z.eqb_spec c 0xFEFF); [subst; congruence | reflexivity].
Qed.

Lemma read_bytes_short (bits : list Z) (n i : nat) :
  (i <= length bits)%nat -> (length bits < i + 8 * n)%nat -> Protocol.read_bytes bits n i = None.
Proof.
  revert i. induction n as [|n IH]; intros i Hi Hlt; [lia|].
  cbn [Protocol.read_bytes]. unfold slice.
  rewrite length_firstn, length_skipn.
  destruct (Nat.ltb_spec (Nat.min (i + 8 - i) (length bits - i)) 8) as [|Hge]; [reflexivity|].
  assert (8 <= length bits - i)%nat by (eapply Nat.le_trans; [exact Hge | apply Nat.le_min_r]).
  rewrite IH by lia. reflexivity.
Qed.

Lemma read_bytes_index (bits : list Z) (n i : nat) (bs : list Z) (j : nat) :
  Protocol.read_bytes bits n i = Some (bs, j) -> j = (i + 8 * n)%nat.
Proof.
  revert i bs j. induction n as [|n IH]; intros i bs j H; cbn [Protocol.read_bytes] in H.
  - injection H as _ <-. lia.
  - destruct (_ <? 8)%nat; [discriminate|].
    destruct (Protocol.read_bytes bits n (i + 8)) as [[bs' j']|] eqn:E; [|discriminate].
    injection H as _ <-. apply IH in E. lia.
Qed.

Lemma flip_last_app (x y : list Z) :
  y <> [] -> flip_last (x ++ y) = x ++ flip_last y.
Proof.
  intros Hy. unfold flip_last. rewrite rev_app_distr.
  destruct (rev y) as [|b r] eqn:E.
  - apply (f_equal (@rev Z)) in E. rewrite rev_involutive in E. contradiction.
  - cbn [app]. rewrite rev_app_distr, rev_involutive, app_assoc. reflexivity.
Qed.

Lemma flip_last_byteToBits (c : Z) :
  is_byte c -> flip_last (Protocol.byteToBits c) = Protocol.byteToBits (Z.lxor c 1).
Proof.
  unfold is_byte. intros Hc.
  pose proof (Z_range_check (fun c => if list_eq_dec Z.eq_dec (flip_last (Protocol.byteToBits c))
                            (Protocol.byteToBits (Z.lxor c 1)) then true else false) 256
                ltac:(vm_compute; reflexivity) c ltac:(lia)) as H.
  cbv beta in H. destruct (list_eq_dec _ _ _); [assumption | discriminate].
Qed.

Lemma lxor_1_neq (c : Z) : Z.lxor c 1 <> c.
Proof.
  intros H. apply (f_equal (fun x => Z.testbit x 0)) in H.
  rewrite Z.lxor_spec in H. destruct (Z.testbit c 0); discriminate.
Qed.

(** Flipping the last bit of any encoding makes [decode] fail. *)
Lemma decode_flip_last (m : text) (bits : list Z) :
  forallb is_code_point m = true ->
  Protocol.encode m = Ok bits -> Protocol.decode (flip_last bits) = None.
Proof.
  intros Hm He. apply ProtocolFacts.encode_ok in He as [Hlen ->].
  pose proof (code_point_bytes m Hm) as Hb.
  pose proof (ProtocolFacts.checksum_byte _ Hb) as Hc.
  revert Hlen Hb Hc. generalize (text_encoder_encode m) as bytes. intros bytes Hlen Hb Hc.
  destruct bytes as [|b0 bytes'] eqn:Eb.
  - vm_compute. reflexivity.
  - rewrite <- Eb in *.
    rewrite !app_assoc, flip_last_app by discriminate. rewrite <- !app_assoc.
    rewrite flip_last_byteToBits by exact Hc.
    rewrite (ProtocolFacts.decode_frame _ 8 bytes (Z.lxor (Protocol.calculateChecksum bytes) 1) []).
    + destruct (Z.eqb_spec (Z.lxor (Protocol.calculateChecksum bytes) 1)
                           (Protocol.calculateChecksum bytes)) as [E|]; [|reflexivity].
      exfalso. exact (lxor_1_neq _ E).
    + exact (ProtocolFacts.findStartMarker_frame [] _ eq_refl).
    + rewrite app_nil_r. reflexivity.
    + exact Hb.
    + apply lxor_byte; [exact Hc | unfold is_byte; lia].
    + subst bytes. cbn [length] in *. lia.
Qed.

Lemma slice_length {A} (l : list A) (i j : nat) :
  length (slice l i j) = Nat.min (j - i) (length l - i).
Proof. unfold slice. rewrite length_firstn, length_skipn. reflexivity. Qed.

Lemma slice8_short {A} (l : list A) (i j : nat) :
  (j - i = 8)%nat -> (length l < j)%nat -> (length (slice l i j) <? 8)%nat = true.
Proof.
  intros Hj H. apply Nat.ltb_lt. rewrite slice_length.
  eapply Nat.le_lt_trans; [apply Nat.le_min_r | lia].
Qed.

(** [Protocol.decode] once the start marker has been found at [k]. *)
Lemma decode_at (bits : list Z) (k : nat) :
  Protocol.findStartMarker bits = Some k ->
  Protocol.decode bits =
    let lengthBits := slice bits (k + 8) (k + 16) in
    if (length lengthBits <? 8)%nat then None else
    let dataLength := Protocol.bitsToNumber lengthBits in
    if (dataLength >? MAX_MESSAGE_BYTES) || (dataLength =? 0) then None else
    match Protocol.read_bytes bits (Z.to_nat dataLength) (k + 16) with
    | None => None
    | Some (dataBytes, bitIndex) =>
      let checksumBits := slice bits bitIndex (bitIndex + 8) in
      if (length checksumBits <? 8)%nat then None else
      if negb (Protocol.bitsToNumber checksumBits
               =? Protocol.calculateChecksum (uint8array dataBytes)) then None
      else text_decoder_decode (uint8array dataBytes)
    end.
Proof.
  intros Hk. unfold Protocol.decode. rewrite Hk.
  replace (k + 8 + 8)%nat with (k + 16)%nat by lia. reflexivity.
Qed.

(** * Claims *)

(** C1 (as the code does it): every well-formed message (only Unicode scalar
    values) whose UTF-8 length is between 1 and 200 bytes and which does not
    begin with U+FEFF is encoded, and decoding the encoding gives the message
    back. The empty message is excluded: [decode] rejects the length 0. *)
Theorem Protocol_roundtrip (m : text) :
  forallb is_scalar m = true ->
  1 <= Protocol.getByteLength m <= 200 ->
  hd_error m <> Some 0xFEFF ->
  exists bits, Protocol.encode m = Ok bits /\ Protocol.decode bits = Some m.
Proof.
  intros Hs Hlen Hbom. unfold Protocol.getByteLength in Hlen.
  destruct (ProtocolFacts.encoded_bytes m Hs) as [Hb Hc].
  unfold Protocol.encode, MAX_MESSAGE_BYTES. rewrite Z.gtb_ltb.
  rewrite (proj2 (Z.ltb_ge _ _)) by lia.
  eexists; split; [reflexivity|].
  rewrite (ProtocolFacts.decode_frame _ 8 (text_encoder_encode m)
             (Protocol.calculateChecksum (text_encoder_encode m)) []).
  - rewrite Z.eqb_refl. apply text_decoder_decode_roundtrip; assumption.
  - exact (ProtocolFacts.findStartMarker_frame [] _ eq_refl).
  - rewrite app_nil_r. reflexivity.
  - exact Hb.
  - exact Hc.
  - lia.
Qed.

Lemma Protocol_roundtrip_witness :
  (forallb is_scalar konnichiwa = true /\
   1 <= Protocol.getByteLength konnichiwa <= 200 /\
   hd_error konnichiwa <> Some 0xFEFF) /\
  exists bits, Protocol.encode konnichiwa = Ok bits /\ Protocol.decode bits = Some konnichiwa.
Proof.
  assert (H1 : forallb is_scalar konnichiwa = true) by reflexivity.
  assert (H2 : 1 <= Protocol.getByteLength konnichiwa <= 200)
    by (vm_compute; split; discriminate).
  assert (H3 : hd_error konnichiwa <> Some 0xFEFF) by (vm_compute; discriminate).
  split; [split; [exact H1 | split; [exact H2 | exact H3]] |].
  apply Protocol_roundtrip; assumption.
Defined.

(** C1 fails on the empty string: its byte length 0 is at most 200, it is
    encoded, but [decode] rejects the length field 0. *)
Lemma Protocol_roundtrip_empty_counterexample :
  ~ (forall m, Protocol.getByteLength m <= 200 ->
       exists bits, Protocol.encode m = Ok bits /\ Protocol.decode bits = Some m).
Proof.
  intros H. destruct (H [] ltac:(vm_compute; discriminate)) as [bits [He Hd]].
  vm_compute in He. injection He as <-. vm_compute in Hd. discriminate.
Qed.

(** A message made of U+FEFF alone is encoded but decodes to the empty
    string: [TextDecoder] drops a leading byte order mark. *)
Lemma Protocol_roundtrip_bom :
  exists bits, Protocol.encode bom_text = Ok bits /\ Protocol.decode bits = Some [].
Proof. eexists; split; [reflexivity | vm_compute; reflexivity]. Qed.

(** C5: [encode] throws [MessageTooLongError] exactly when the UTF-8 length
    exceeds 200 bytes and returns bits otherwise; [canEncode] holds exactly
    when the length is at most 200; on 201 ASCII letters [encode] throws and
    [canEncode] is false, on 200 it is true. *)
Theorem Protocol_encode_length_bound :
  (forall m, Protocol.encode m = Throw MessageTooLongError <-> Protocol.getByteLength m > 200) /\
  (forall m, (exists bits, Protocol.encode m = Ok bits) <-> Protocol.getByteLength m <= 200) /\
  (forall m, Protocol.canEncode m = true <-> Protocol.getByteLength m <= 200) /\
  Protocol.encode (a_repeat 201) = Throw MessageTooLongError /\
  Protocol.canEncode (a_repeat 201) = false /\
  Protocol.canEncode (a_repeat 200) = true.
Proof.
  split; [|split; [|split; [|split; [|split]]]].
  - intros m. unfold Protocol.encode, Protocol.getByteLength, MAX_MESSAGE_BYTES.
    rewrite Z.gtb_ltb. destruct (Z.ltb_spec 200 (Z.of_nat (length (text_encoder_encode m)))).
    + split; [lia | reflexivity].
    + split; [discriminate | lia].
  - intros m. unfold Protocol.encode, Protocol.getByteLength, MAX_MESSAGE_BYTES.
    rewrite Z.gtb_ltb. destruct (Z.ltb_spec 200 (Z.of_nat (length (text_encoder_encode m)))).
    + split; [intros [bits Hb]; discriminate | lia].
    + split; [lia | intros _; eexists; reflexivity].
  - intros m. unfold Protocol.canEncode, MAX_MESSAGE_BYTES. apply Z.leb_le.
  - vm_compute. reflexivity.
  - vm_compute. reflexivity.
  - vm_compute. reflexivity.
Qed.

(** C6: [decode] is a total function (it returns an [option], it never
    throws) and returns [None] when there is no run of eight 1-bits, when the
    length field at [k + 8] is truncated, when the declared length [N] is 0 or
    above 200, when a data byte or the checksum byte is truncated, when the
    received checksum differs from the XOR of the data bytes, or when the data
    bytes are not valid UTF-8. [decode []] and [decode] of sixteen zero bits
    are [None], and flipping the last bit of the encoding of any JS string
    makes [decode] return [None]. *)
Theorem Protocol_decode_total (bits : list Z) :
  (Protocol.findStartMarker bits = None -> Protocol.decode bits = None) /\
  (forall k, Protocol.findStartMarker bits = Some k ->
     let N := Protocol.bitsToNumber (slice bits (k + 8) (k + 16)) in
     ((length bits < k + 16)%nat -> Protocol.decode bits = None) /\
     ((N = 0 \/ N > 200) -> Protocol.decode bits = None) /\
     ((length bits < k + 16 + 8 * Z.to_nat N + 8)%nat -> Protocol.decode bits = None) /\
     (forall dataBytes j,
        Protocol.read_bytes bits (Z.to_nat N) (k + 16) = Some (dataBytes, j) ->
        (Protocol.bitsToNumber (slice bits j (j + 8))
           <> Protocol.calculateChecksum (uint8array dataBytes) ->
         Protocol.decode bits = None) /\
        (utf8_decode (uint8array dataBytes) = None -> Protocol.decode bits = None))) /\
  Protocol.decode [] = None /\
  Protocol.decode (repeat 0 16) = None /\
  (forall m enc, forallb is_code_point m = true ->
     Protocol.encode m = Ok enc -> Protocol.decode (flip_last enc) = None).
Proof.
  split; [|split; [|split; [|split]]].
  - intros H. unfold Protocol.decode. rewrite H. reflexivity.
  - intros k Hk N. rewrite (decode_at bits k Hk). cbv zeta. fold N.
    split; [|split; [|split]].
    + intros Hl. rewrite (slice8_short _ (k + 8) (k + 16)) by lia. reflexivity.
    + intros HN. destruct (_ <? 8)%nat; [reflexivity|].
      unfold MAX_MESSAGE_BYTES. rewrite Z.gtb_ltb.
      destruct HN as [-> | HN]; [rewrite orb_true_r; reflexivity|].
      rewrite (proj2 (Z.ltb_lt _ _)) by lia. reflexivity.
    + intros Hl. destruct (_ <? 8)%nat; [reflexivity|].
      destruct (_ || _); [reflexivity|].
      destruct (Protocol.read_bytes bits (Z.to_nat N) (k + 16)) as [[d j]|] eqn:E;
        [|reflexivity].
      apply read_bytes_index in E. subst j.
      rewrite (slice8_short _ (k + 16 + 8 * Z.to_nat N)) by lia. reflexivity.
    + intros d j Hr. rewrite Hr. split.
      * intros Hc. destruct (_ <? 8)%nat; [reflexivity|].
        destruct (_ || _); [reflexivity|]. destruct (_ <? 8)%nat; [reflexivity|].
        rewrite (proj2 (Z.eqb_neq _ _) Hc). reflexivity.
      * intros Hu. destruct (_ <? 8)%nat; [reflexivity|].
        destruct (_ || _); [reflexivity|]. destruct (_ <? 8)%nat; [reflexivity|].
        destruct (negb _); [reflexivity|].
        unfold text_decoder_decode. rewrite Hu. reflexivity.
  - reflexivity.
  - vm_compute. reflexivity.
  - exact decode_flip_last.
Qed.

Lemma Protocol_decode_total_witness :
  Protocol.findStartMarker (repeat 0 16) = None /\
  Protocol.decode (repeat 0 16) = None /\
  exists enc, Protocol.encode test_text = Ok enc /\ Protocol.decode (flip_last enc) = None.
Proof.
  assert (H : Protocol.findStartMarker (repeat 0 16) = None) by reflexivity.
  split; [exact H | split].
  - exact (proj1 (Protocol_decode_total (repeat 0 16)) H).
  - eexists; split; [reflexivity|].
    apply (proj2 (proj2 (proj2 (proj2 (Protocol_decode_total []))))
             test_text); reflexivity.
Defined.

(** C7 (as the code does it): prepending a prefix to an encoding does not
    change what [decode] returns, provided the prefix followed by the
    preamble contains no run of eight 1-bits, so that the first run found is
    the real start marker. *)
Theorem Protocol_decode_prefix (prefix : list Z) (m : text) (bits : list Z) :
  Protocol.encode m = Ok bits ->
  Protocol.findStartMarker (prefix ++ PREAMBLE) = None ->
  Protocol.decode (prefix ++ bits) = Protocol.decode bits.
Proof.
  intros He Hp. apply ProtocolFacts.encode_ok in He as [_ ->].
  apply (ProtocolFacts.decode_shift _ _ 8).
  - exact (ProtocolFacts.findStartMarker_frame [] _ eq_refl).
  - exact (ProtocolFacts.findStartMarker_frame prefix _ Hp).
Qed.

Lemma Protocol_decode_prefix_witness :
  exists bits, Protocol.encode test_text = Ok bits /\
    Protocol.findStartMarker ([0; 1; 0; 0; 1] ++ PREAMBLE) = None /\
    Protocol.decode ([0; 1; 0; 0; 1] ++ bits) = Some test_text.
Proof.
  eexists; split; [reflexivity|]. split; [reflexivity|].
  rewrite (Protocol_decode_prefix _ test_text); [vm_compute; reflexivity | reflexivity | reflexivity].
Defined.

(** C7 fails on the prefix of seven 1-bits before [encode "Test"]: the
    first run of eight 1-bits then starts inside the prefix, and [decode]
    returns [None]. *)
Lemma Protocol_decode_prefix_counterexample :
  exists bits, Protocol.encode test_text = Ok bits /\
    Protocol.decode bits = Some test_text /\
    Protocol.decode ([1; 1; 1; 1; 1; 1; 1] ++ bits) = None.
Proof. eexists; split; [reflexivity|]. split; vm_compute; reflexivity. Qed.

(** ** Grid cells *)

Module GridFacts.
Import GridProtocol.

(** [pack_cells] only reads the cells at the given indices. *)
Lemma pack_cells_nth (l1 l2 : list Z) (idx1 idx2 : list nat) :
  map (nth_error l1) idx1 = map (nth_error l2) idx2 ->
  pack_cells l1 idx1 = pack_cells l2 idx2.
Proof.
  unfold pack_cells. generalize 0. revert idx2.
  induction idx1 as [|i idx1 IH]; intros [|j idx2] acc H; try discriminate; [reflexivity|].
  cbn in H. injection H as Hij Hr. cbn [fold_left]. rewrite Hij. apply IH. exact Hr.
Qed.

Lemma pack_cells_app8 (A B : list Z) :
  length A = 8%nat ->
  pack_cells (A ++ B) (seq 0 8) = pack_cells A (seq 0 8) /\
  pack_cells (A ++ B) (seq 8 8) = pack_cells B (seq 0 8).
Proof.
  intros H. do 8 (destruct A as [|? A]; [discriminate|]).
  destruct A; [|discriminate]. split; apply pack_cells_nth; reflexivity.
Qed.

Lemma byte_cells_length (b : Z) : length (byte_cells b) = 8%nat.
Proof. reflexivity. Qed.

Lemma pack_byte_cells (b : Z) : is_byte b -> pack_cells (byte_cells b) (seq 0 8) = b.
Proof.
  unfold is_byte. intros Hb.
  pose proof (Z_range_check (fun b => pack_cells (byte_cells b) (seq 0 8) =? b) 256
                ltac:(vm_compute; reflexivity) b ltac:(lia)) as H.
  apply Z.eqb_eq. exact H.
Qed.

(** All lists of [n] cells with values 0 or 1. *)
Fixpoint bitlists (n : nat) : list (list Z) :=
  match n with
  | O => [[]]
  | S n => flat_map (fun l => [0 :: l; 1 :: l]) (bitlists n)
  end.

Lemma bitlists_complete (l : list Z) :
  Forall (fun c => c = 0 \/ c = 1) l -> In l (bitlists (length l)).
Proof.
  induction 1 as [|x l Hx _ IH]; [left; reflexivity|].
  cbn [length bitlists]. apply in_flat_map. exists l. split; [exact IH|].
  destruct Hx as [-> | ->]; [left | right; left]; reflexivity.
Qed.

Lemma byte_cells_pack (A : list Z) :
  length A = 8%nat -> Forall (fun c => c = 0 \/ c = 1) A ->
  byte_cells (pack_cells A (seq 0 8)) = A.
Proof.
  intros HA H01. apply bitlists_complete in H01. rewrite HA in H01.
  assert (Hall : forallb (fun A => if list_eq_dec Z.eq_dec (byte_cells (pack_cells A (seq 0 8))) A
                                   then true else false) (bitlists 8) = true)
    by (vm_compute; reflexivity).
  rewrite forallb_forall in Hall. specialize (Hall A H01).
  destruct (list_eq_dec _ _ _); [assumption | discriminate].
Qed.

Lemma Forall_firstn_skipn {X} (P : X -> Prop) (l : list X) (n : nat) :
  Forall P l -> Forall P (firstn n l) /\ Forall P (skipn n l).
Proof.
  intros H. rewrite <- (firstn_skipn n l) in H. apply Forall_app in H. exact H.
Qed.

Lemma rem2_even (x : Z) : 0 <= x -> (Z.rem x 2 =? 0) = Z.even x.
Proof. intros Hx. rewrite Z.rem_mod_nonneg by lia. rewrite Zeven_mod. reflexivity. Qed.

Lemma flatten_bytes (frames : list frame) :
  Forall (fun f => is_byte (fst f) /\ is_byte (snd f)) frames -> Forall is_byte (flatten frames).
Proof.
  induction 1 as [|[hi lo] fs [Hh Hl] _ IH]; [constructor|].
  cbn. constructor; [exact Hh | constructor; [exact Hl | exact IH]].
Qed.

Lemma js_slice_data (bytes : list Z) (n : Z) :
  0 <= n -> n + 1 <= Z.of_nat (length bytes) ->
  js_slice bytes 1 (1 + n) = firstn (Z.to_nat n) (skipn 1 bytes).
Proof.
  intros Hn Hl. unfold js_slice.
  rewrite (proj2 (Z.ltb_ge 1 0)), (proj2 (Z.ltb_ge (1 + n) 0)) by lia.
  rewrite (Z.min_l 1), (Z.min_l (1 + n)) by lia.
  replace (1 + n - 1) with n by lia. reflexivity.
Qed.

Lemma js_index_nat (bytes : list Z) (i : Z) :
  0 <= i -> js_index bytes i = nth_error bytes (Z.to_nat i).
Proof. intros Hi. unfold js_index. rewrite (proj2 (Z.ltb_ge i 0)) by lia. reflexivity. Qed.

(** [decode] once the length checks have passed. *)
Lemma decode_checked (a b : Z) (fs : list frame) :
  let bytes := flatten ((a, b) :: fs) in
  let data := firstn (Z.to_nat a) (skipn 1 bytes) in
  Forall is_byte bytes -> 1 <= a <= 200 ->
  a + 2 <= Z.of_nat (length bytes) ->
  (Z.of_nat (length bytes) <? (if Z.even (a + 2) then a + 2 else a + 3)) = false ->
  decode ((a, b) :: fs) =
    match nth_error bytes (Z.to_nat (1 + a)) with
    | Some r => if negb (r =? calculateChecksum data) then None else text_decoder_decode data
    | None => None
    end.
Proof.
  intros bytes data Hb Ha Hl Hexp. unfold decode. fold bytes.
  unfold MAX_MESSAGE_BYTES. rewrite Z.gtb_ltb.
  rewrite (proj2 (Z.eqb_neq a 0)), (proj2 (Z.ltb_ge 200 a)) by lia. cbn [orb].
  rewrite rem2_even by lia. replace (a + 2 + 1) with (a + 3) by ring. rewrite Hexp.
  rewrite js_slice_data, js_index_nat by lia. fold data.
  rewrite uint8array_bytes; [reflexivity|].
  apply (Forall_firstn_skipn _ _ (Z.to_nat a)), (Forall_firstn_skipn _ _ 1), Hb.
Qed.

(** Decoding a grid encoding, for messages of 1..200 bytes. *)
Lemma flatten_split_frames (payload : list Z) :
  Nat.Even (length payload) -> flatten (split_frames payload) = payload.
Proof.
  intros [n Hn]. revert payload Hn. induction n as [|n IH]; intros payload Hn.
  - destruct payload; [reflexivity | discriminate].
  - destruct payload as [|x [|y r]]; cbn in Hn; try lia.
    cbn. rewrite IH by lia. reflexivity.
Qed.

Lemma decode_cases (a b : Z) (fs : list frame) :
  let bytes := flatten ((a, b) :: fs) in
  let expected := if Z.even (a + 2) then a + 2 else a + 3 in
  Forall is_byte bytes ->
  ((a = 0 \/ a > 200) -> decode ((a, b) :: fs) = None) /\
  (1 <= a <= 200 -> Z.of_nat (length bytes) < expected -> decode ((a, b) :: fs) = None) /\
  (1 <= a <= 200 -> expected <= Z.of_nat (length bytes) ->
   decode ((a, b) :: fs) =
     match nth_error bytes (Z.to_nat (1 + a)) with
     | Some r => if negb (r =? calculateChecksum (firstn (Z.to_nat a) (skipn 1 bytes)))
                 then None
                 else text_decoder_decode (firstn (Z.to_nat a) (skipn 1 bytes))
     | None => None
     end).
Proof.
  intros bytes expected Hb. split; [|split].
  - intros Ha. unfold decode, MAX_MESSAGE_BYTES. rewrite Z.gtb_ltb.
    destruct Ha as [-> | Ha]; [reflexivity|].
    rewrite (proj2 (Z.ltb_lt 200 a)) by lia. rewrite orb_true_r. reflexivity.
  - intros Ha Hl. unfold decode, MAX_MESSAGE_BYTES. fold bytes. rewrite Z.gtb_ltb.
    rewrite (proj2 (Z.eqb_neq a 0)), (proj2 (Z.ltb_ge 200 a)) by lia. cbn [orb].
    rewrite rem2_even by lia. replace (a + 2 + 1) with (a + 3) by ring.
    fold expected. rewrite (proj2 (Z.ltb_lt _ _) Hl). reflexivity.
  - intros Ha Hl. apply decode_checked; [exact Hb | exact Ha | |].
    + unfold expected, bytes in Hl. destruct (Z.even (a + 2)); lia.
    + apply Z.ltb_ge. exact Hl.
Qed.

Lemma byte_cells_bit (b : Z) (i : nat) :
  is_byte b -> (i < 8)%nat ->
  nth_error (byte_cells b) i = Some (Z.b2z (Z.testbit b (Z.of_nat (7 - i)))).
Proof.
  unfold is_byte. intros Hb Hi.
  pose proof (Z_range_check
                (fun b => forallb (fun i => match nth_error (byte_cells b) i with
                                            | Some c => c =? Z.b2z (Z.testbit b (Z.of_nat (7 - i)))
                                            | None => false
                                            end) (seq 0 8)) 256
                ltac:(vm_compute; reflexivity) b ltac:(lia)) as H.
  cbv beta in H. rewrite forallb_forall in H.
  specialize (H i ltac:(apply in_seq; lia)).
  destruct (nth_error (byte_cells b) i); [|discriminate].
  apply Z.eqb_eq in H. rewrite H. reflexivity.
Qed.

Lemma checksum_byte_grid (bytes : list Z) :
  Forall is_byte bytes -> is_byte (calculateChecksum bytes).
Proof. apply ProtocolFacts.checksum_byte. Qed.

(** The grid encoding of a payload: length byte, data, checksum, padding. *)
Lemma decode_payload (data pad : list Z) :
  Forall is_byte data -> Forall is_byte pad -> (1 <= length data <= 200)%nat ->
  Nat.Even (length data + 2 + length pad) -> (length pad <= 1)%nat ->
  decode (split_frames ([Z.of_nat (length data)] ++ data ++ [calculateChecksum data] ++ pad))
  = text_decoder_decode data.
Proof.
  intros Hb Hp Hlen Hev Hpad.
  destruct data as [|d0 data']; [cbn in Hlen; lia|].
  set (data := d0 :: data') in *.
  set (n := Z.of_nat (length data)).
  set (cs := calculateChecksum data).
  set (rest := data' ++ [cs] ++ pad).
  change (split_frames ([n] ++ data ++ [cs] ++ pad)) with ((n, d0) :: split_frames rest).
  assert (Hfl : flatten ((n, d0) :: split_frames rest) = n :: data ++ [cs] ++ pad).
  { cbn [flatten flat_map]. rewrite flatten_split_frames; [reflexivity|].
    destruct Hev as [k Hk]. exists (k - 1)%nat. unfold rest.
    rewrite !length_app. unfold data in Hk. cbn [length] in *. lia. }
  assert (Hbytes : Forall is_byte (flatten ((n, d0) :: split_frames rest))).
  { rewrite Hfl. constructor; [unfold is_byte, n; lia|].
    apply Forall_app. split; [exact Hb|].
    constructor; [apply checksum_byte_grid; exact Hb | exact Hp]. }
  pose proof (decode_cases n d0 (split_frames rest) Hbytes) as [_ [_ Hok]].
  rewrite Hok; rewrite ?Hfl.
  - replace (Z.to_nat (1 + n)) with (S (length data)) by lia.
    cbn [nth_error]. rewrite nth_error_app2, Nat.sub_diag by lia. cbn [nth_error app].
    replace (Z.to_nat n) with (length data) by lia. cbn [skipn].
    rewrite firstn_app, firstn_all, Nat.sub_diag, firstn_O, app_nil_r.
    rewrite Z.eqb_refl. reflexivity.
  - unfold n. lia.
  - cbn [length]. rewrite !length_app. cbn [length].
    destruct pad as [|p [|]]; cbn [length] in *; [|destruct (Z.even (n + 2)); lia|lia].
    assert (He : Z.even (n + 2) = true).
    { apply Z.even_spec. destruct Hev as [k Hk]. exists (Z.of_nat k). unfold n. lia. }
    rewrite He. lia.
Qed.

End GridFacts.

(** C8: [frameToCells] and [cellsToFrame] are mutually inverse on frames of
    two bytes and on 16 cells of value 0 or 1; cells 0..7 are bits 7..0 of
    the high byte and cells 8..15 are bits 7..0 of the low byte; the sample
    frame [[0b10101010, 0b01010101]] gives the alternating cells. *)
Theorem Grid_cells_roundtrip :
  (forall hi lo, is_byte hi -> is_byte lo ->
     GridProtocol.cellsToFrame (GridProtocol.frameToCells (hi, lo)) = (hi, lo)) /\
  (forall cells, length cells = 16%nat -> Forall (fun c => c = 0 \/ c = 1) cells ->
     GridProtocol.frameToCells (GridProtocol.cellsToFrame cells) = cells) /\
  (forall hi lo i, is_byte hi -> is_byte lo -> (i < 8)%nat ->
     nth_error (GridProtocol.frameToCells (hi, lo)) i
       = Some (Z.b2z (Z.testbit hi (Z.of_nat (7 - i)))) /\
     nth_error (GridProtocol.frameToCells (hi, lo)) (8 + i)
       = Some (Z.b2z (Z.testbit lo (Z.of_nat (7 - i))))) /\
  GridProtocol.frameToCells (0xAA, 0x55) = [1; 0; 1; 0; 1; 0; 1; 0; 0; 1; 0; 1; 0; 1; 0; 1].
Proof.
  split; [|split; [|split]].
  - intros hi lo Hhi Hlo. unfold GridProtocol.cellsToFrame, GridProtocol.frameToCells.
    destruct (GridFacts.pack_cells_app8 (GridProtocol.byte_cells hi) (GridProtocol.byte_cells lo)
                (GridFacts.byte_cells_length hi)) as [-> ->].
    rewrite !GridFacts.pack_byte_cells by assumption. reflexivity.
  - intros cells Hlen H01.
    rewrite <- (firstn_skipn 8 cells) in H01 |- *.
    apply Forall_app in H01 as [HA HB].
    assert (LA : length (firstn 8 cells) = 8%nat) by (rewrite length_firstn; lia).
    assert (LB : length (skipn 8 cells) = 8%nat) by (rewrite length_skipn; lia).
    unfold GridProtocol.cellsToFrame, GridProtocol.frameToCells.
    destruct (GridFacts.pack_cells_app8 _ (skipn 8 cells) LA) as [-> ->].
    rewrite !GridFacts.byte_cells_pack by assumption. reflexivity.
  - intros hi lo i Hhi Hlo Hi. unfold GridProtocol.frameToCells. split.
    + rewrite nth_error_app1 by (rewrite GridFacts.byte_cells_length; lia).
      apply GridFacts.byte_cells_bit; assumption.
    + rewrite nth_error_app2 by (rewrite GridFacts.byte_cells_length; lia).
      rewrite GridFacts.byte_cells_length. replace (8 + i - 8)%nat with i by lia.
      apply GridFacts.byte_cells_bit; assumption.
  - reflexivity.
Qed.

Lemma Grid_cells_roundtrip_witness :
  GridProtocol.cellsToFrame (GridProtocol.frameToCells (0xAA, 0x55)) = (0xAA, 0x55) /\
  GridProtocol.frameToCells (GridProtocol.cellsToFrame
    [1; 0; 1; 0; 1; 0; 1; 0; 0; 1; 0; 1; 0; 1; 0; 1])
    = [1; 0; 1; 0; 1; 0; 1; 0; 0; 1; 0; 1; 0; 1; 0; 1] /\
  nth_error (GridProtocol.frameToCells (0xAA, 0x55)) 3 = Some (Z.b2z (Z.testbit 0xAA 4)).
Proof.
  split; [|split].
  - apply (proj1 Grid_cells_roundtrip); unfold is_byte; lia.
  - apply (proj1 (proj2 Grid_cells_roundtrip)); [reflexivity|].
    repeat apply Forall_cons; try apply Forall_nil; lia.
  - apply (proj1 (proj1 (proj2 (proj2 Grid_cells_roundtrip)) 0xAA 0x55 3%nat
                   ltac:(unfold is_byte; lia) ltac:(unfold is_byte; lia) ltac:(lia))).
Defined.

(** C9: [GridProtocol.decode] returns [None] on no frames; on frames of
    bytes, with [bytes] the flattened frames and [N] the first byte, it
    returns [None] when [N] is 0 or above 200, when fewer than [N + 2]
    rounded up to an even number of bytes are available, when the byte at
    offset [1 + N] is not the XOR of the [N] bytes from offset 1, and when
    those [N] bytes are not valid UTF-8. *)
Theorem Grid_decode_rejects (frames : list GridProtocol.frame) :
  GridProtocol.decode [] = None /\
  (Forall (fun f => is_byte (fst f) /\ is_byte (snd f)) frames ->
   let bytes := GridProtocol.flatten frames in
   let N := nth 0 bytes 0 in
   let data := firstn (Z.to_nat N) (skipn 1 bytes) in
   ((N = 0 \/ N > 200) -> GridProtocol.decode frames = None) /\
   (Z.of_nat (length bytes) < (if Z.even (N + 2) then N + 2 else N + 3) ->
    GridProtocol.decode frames = None) /\
   (nth_error bytes (Z.to_nat (1 + N)) <> Some (GridProtocol.calculateChecksum data) ->
    GridProtocol.decode frames = None) /\
   (utf8_decode data = None -> GridProtocol.decode frames = None)).
Proof.
  split; [reflexivity|]. intros Hf bytes N data.
  destruct frames as [|[a b] fs]; [repeat split; intros; reflexivity|].
  pose proof (GridFacts.flatten_bytes _ Hf) as Hb.
  change N with a. change N with a in data.
  destruct (GridFacts.decode_cases a b fs Hb) as [Hout [Hshort Hok]].
  fold bytes in Hshort, Hok.
  assert (Hrange : a = 0 \/ a > 200 \/ 1 <= a <= 200).
  { unfold is_byte in Hb. inversion Hb as [|x l Ha _]. lia. }
  assert (Hcase : forall P : Prop,
             ((a = 0 \/ a > 200) -> P) ->
             (1 <= a <= 200 -> Z.of_nat (length bytes) < (if Z.even (a + 2) then a + 2 else a + 3) -> P) ->
             (1 <= a <= 200 -> (if Z.even (a + 2) then a + 2 else a + 3) <= Z.of_nat (length bytes) -> P) ->
             P).
  { intros P H1 H2 H3. destruct Hrange as [H|[H|H]]; [apply H1; lia | apply H1; lia|].
    destruct (Z.lt_ge_cases (Z.of_nat (length bytes)) (if Z.even (a + 2) then a + 2 else a + 3));
      [apply H2 | apply H3]; assumption. }
  split; [exact Hout|]. split; [|split].
  - intros Hl. apply Hcase; [exact Hout | exact Hshort | intros _ H; lia].
  - intros Hc. apply Hcase; [exact Hout | exact Hshort|]. intros Ha Hl.
    refine (eq_trans (Hok Ha Hl) _).
    change (GridProtocol.flatten ((a, b) :: fs)) with bytes.
    change (firstn (Z.to_nat a) (skipn 1 bytes)) with data.
    destruct (nth_error bytes (Z.to_nat (1 + a))) as [r|]; [|reflexivity].
    rewrite (proj2 (Z.eqb_neq r _)) by congruence. reflexivity.
  - intros Hu. apply Hcase; [exact Hout | exact Hshort|]. intros Ha Hl.
    refine (eq_trans (Hok Ha Hl) _).
    change (GridProtocol.flatten ((a, b) :: fs)) with bytes.
    change (firstn (Z.to_nat a) (skipn 1 bytes)) with data.
    destruct (nth_error bytes (Z.to_nat (1 + a))) as [r|]; [|reflexivity].
    destruct (negb _); [reflexivity|]. unfold text_decoder_decode. rewrite Hu. reflexivity.
Qed.

Lemma Grid_decode_rejects_witness :
  Forall (fun f => is_byte (fst f) /\ is_byte (snd f)) [(1, 65); (0, 0)] /\
  GridProtocol.decode [(1, 65); (0, 0)] = None.
Proof.
  assert (Hf : Forall (fun f => is_byte (fst f) /\ is_byte (snd f)) [(1, 65); (0, 0)])
    by (repeat constructor; cbn; lia).
  split; [exact Hf|].
  apply (proj1 (proj2 (proj2 (proj2 (Grid_decode_rejects _) Hf)))).
  vm_compute. discriminate.
Defined.

(** Grid round trip for well-formed messages of 1..200 bytes that do not
    begin with U+FEFF. *)
Lemma Grid_roundtrip_no_bom (m : text) :
  forallb is_scalar m = true ->
  1 <= Protocol.getByteLength m <= 200 ->
  hd_error m <> Some 0xFEFF ->
  exists frames, GridProtocol.encode m = Ok frames /\ GridProtocol.decode frames = Some m.
Proof.
  intros Hs Hlen Hbom. unfold Protocol.getByteLength in Hlen.
  destruct (ProtocolFacts.encoded_bytes m Hs) as [Hb _].
  unfold GridProtocol.encode, MAX_MESSAGE_BYTES. rewrite Z.gtb_ltb.
  rewrite (proj2 (Z.ltb_ge _ _)) by lia.
  eexists; split; [reflexivity|].
  set (data := text_encoder_encode m) in *.
  rewrite length_app, length_app. cbn [length].
  replace (Z.of_nat (1 + (length data + 1))) with (Z.of_nat (length data) + 2) by lia.
  rewrite GridFacts.rem2_even by lia. cbn [negb].
  destruct (Z.even (Z.of_nat (length data) + 2)) eqn:He; cbn [negb].
  - rewrite <- (app_nil_r [GridProtocol.calculateChecksum data]).
    rewrite GridFacts.decode_payload; cycle 1.
    + exact Hb.
    + constructor.
    + lia.
    + apply Z.even_spec in He. destruct He as [k Hk]. exists (Z.to_nat k).
      cbn [length]. lia.
    + cbn [length]. lia.
    + apply text_decoder_decode_roundtrip; assumption.
  - rewrite <- !app_assoc.
    rewrite GridFacts.decode_payload; cycle 1.
    + exact Hb.
    + repeat constructor; unfold is_byte; lia.
    + lia.
    + assert (Ho : Z.odd (Z.of_nat (length data) + 2) = true) by (rewrite <- Z.negb_even, He; reflexivity).
      apply Z.odd_spec in Ho. destruct Ho as [k Hk]. exists (Z.to_nat k + 1)%nat.
      cbn [length]. lia.
    + cbn [length]. lia.
    + apply text_decoder_decode_roundtrip; assumption.
Qed.

(** C10 fails on the message U+FEFF: it is encoded into grid frames, but
    [decode] returns the empty string, since [TextDecoder] drops a leading
    byte order mark. *)
Lemma Grid_roundtrip_counterexample :
  exists frames, GridProtocol.encode bom_text = Ok frames /\
    GridProtocol.decode frames = Some [] /\ bom_text <> [].
Proof. eexists; split; [reflexivity|]. split; [vm_compute; reflexivity | discriminate]. Qed.

(** ** Best-effort preview decoding *)

Module PartialFacts.
Import Protocol DecodePartialModel.

Lemma utf8_decode_prefix_cons b0 r : utf8_decode_prefix (b0 :: r) =
  if in_range 0 0x7F b0 then b0 :: utf8_decode_prefix r
  else if in_range 0xC2 0xDF b0 then
    match r with
    | b1 :: r1 =>
      if in_range 0x80 0xBF b1
      then ((b0 - 0xC0) * 64 + (b1 - 0x80)) :: utf8_decode_prefix r1
      else []
    | _ => []
    end
  else if in_range 0xE0 0xEF b0 then
    match r with
    | b1 :: b2 :: r2 =>
      if in_range (if b0 =? 0xE0 then 0xA0 else 0x80) (if b0 =? 0xED then 0x9F else 0xBF) b1
         && in_range 0x80 0xBF b2
      then ((b0 - 0xE0) * 4096 + (b1 - 0x80) * 64 + (b2 - 0x80)) :: utf8_decode_prefix r2
      else []
    | _ => []
    end
  else if in_range 0xF0 0xF4 b0 then
    match r with
    | b1 :: b2 :: b3 :: r3 =>
      if in_range (if b0 =? 0xF0 then 0x90 else 0x80) (if b0 =? 0xF4 then 0x8F else 0xBF) b1
         && in_range 0x80 0xBF b2 && in_range 0x80 0xBF b3
      then ((b0 - 0xF0) * 262144 + (b1 - 0x80) * 4096
            + (b2 - 0x80) * 64 + (b3 - 0x80)) :: utf8_decode_prefix r3
      else []
    | _ => []
    end
  else [].
Proof. reflexivity. Qed.

(** Bytes that [utf8_decode] accepts are decoded the same way by
    [utf8_decode_prefix], whatever follows them. *)
Lemma utf8_prefix_app (n : nat) (bs t r : list Z) :
  (length bs <= n)%nat -> utf8_decode bs = Some t ->
  utf8_decode_prefix (bs ++ r) = t ++ utf8_decode_prefix r.
Proof.
  revert bs t r. induction n as [|n IH]; intros bs t r Hlen H;
    (destruct bs as [|b0 bs]; [injection H as <-; reflexivity | cbn [length] in Hlen]); [lia|].
  rewrite utf8_decode_cons in H. cbn [app]. rewrite utf8_decode_prefix_cons.
  destruct (in_range 0 0x7F b0).
  { destruct (utf8_decode bs) as [t'|] eqn:E; [|discriminate]. injection H as <-.
    cbn [app]. f_equal. apply IH; [lia | exact E]. }
  destruct (in_range 0xC2 0xDF b0).
  { destruct bs as [|b1 r1]; [discriminate|]. cbn [app length] in *.
    destruct (in_range 0x80 0xBF b1); [|discriminate].
    destruct (utf8_decode r1) as [t'|] eqn:E; [|discriminate]. injection H as <-.
    cbn [app]. f_equal. apply IH; [lia | exact E]. }
  destruct (in_range 0xE0 0xEF b0).
  { destruct bs as [|b1 [|b2 r2]]; try discriminate. cbn [app length] in *.
    destruct (_ && _); [|discriminate].
    destruct (utf8_decode r2) as [t'|] eqn:E; [|discriminate]. injection H as <-.
    cbn [app]. f_equal. apply IH; [lia | exact E]. }
  destruct (in_range 0xF0 0xF4 b0); [|discriminate].
  destruct bs as [|b1 [|b2 [|b3 r3]]]; try discriminate. cbn [app length] in *.
  destruct (_ && _ && _); [|discriminate].
  destruct (utf8_decode r3) as [t'|] eqn:E; [|discriminate]. injection H as <-.
  cbn [app]. f_equal. apply IH; [lia | exact E].
Qed.

(** A proper prefix of the encoding of one code point decodes to nothing. *)
Lemma utf8_prefix_incomplete (c : Z) (j : nat) :
  is_scalar c = true -> (j < length (utf8_encode_cp c))%nat ->
  utf8_decode_prefix (firstn j (utf8_encode_cp c)) = [].
Proof.
  unfold is_scalar, is_surrogate. intros Hc Hj.
  rewrite !andb_true_iff, negb_true_iff, andb_false_iff, !Z.leb_le, !Z.leb_gt in Hc.
  destruct Hc as [[H0 H1] Hs].
  destruct j as [|j]; [reflexivity|].
  revert Hj. unfold utf8_encode_cp, is_surrogate. cp_digits c.
  assert (c < 0x80 \/ 0x80 <= c < 0x800 \/ 0x800 <= c < 0x10000 \/ 0x10000 <= c)
    as [Hr|[Hr|[Hr|Hr]]] by lia;
    destruct Hs; decide_tests; cbn [length]; intros Hj; try lia;
    destruct j as [|[|[|]]]; try lia; cbn [firstn];
    rewrite utf8_decode_prefix_cons; decide_tests; reflexivity.
Qed.

Lemma firstn_encode_cp_bytes (c : Z) (j : nat) :
  0 <= c <= 0x10FFFF -> Forall is_byte (firstn j (utf8_encode_cp c)).
Proof.
  intros Hc. pose proof (utf8_encode_cp_bytes c Hc) as H.
  rewrite <- (firstn_skipn j) in H. apply Forall_app in H. apply H.
Qed.

End PartialFacts.

Lemma length_flat_map_byteToBits (bytes : list Z) :
  length (flat_map Protocol.byteToBits bytes) = (8 * length bytes)%nat.
Proof.
  induction bytes as [|b bytes IH]; [reflexivity|].
  cbn [flat_map length]. rewrite length_app, IH, ProtocolFacts.byteToBits_length. lia.
Qed.

(** C2 (on the model of [decodePartial] written from the spec): fewer than 32
    bits, no run of eight 1-bits, a truncated length field or a length [N]
    of 0 or above 200 give [None]. Otherwise, when the bytes after the
    length field are the encoding of a text [t] followed by an incomplete
    UTF-8 sequence (a proper prefix of the encoding of one more character),
    and these are all the complete data bytes available (all [N] of them, or
    fewer when less than a byte of bits follows), the result is [t]: the
    checksum is not read and the incomplete sequence is dropped. *)
Theorem decodePartial_preview (bits : list Z) :
  ((length bits < 32)%nat -> DecodePartialModel.decodePartial bits = None) /\
  (Protocol.findStartMarker bits = None -> DecodePartialModel.decodePartial bits = None) /\
  (forall k, Protocol.findStartMarker bits = Some k ->
     (length bits < k + 16)%nat -> DecodePartialModel.decodePartial bits = None) /\
  (forall k, Protocol.findStartMarker bits = Some k ->
     let N := Protocol.bitsToNumber (slice bits (k + 8) (k + 16)) in
     (N = 0 \/ N > 200) -> DecodePartialModel.decodePartial bits = None) /\
  (forall k N t c j rest,
     (32 <= length bits)%nat ->
     Protocol.findStartMarker bits = Some k ->
     let D := text_encoder_encode t ++ firstn j (utf8_encode_cp c) in
     skipn (k + 8) bits = Protocol.byteToBits N ++ flat_map Protocol.byteToBits D ++ rest ->
     1 <= N <= 200 ->
     forallb is_scalar t = true -> is_scalar c = true ->
     (j < length (utf8_encode_cp c))%nat ->
     Z.of_nat (length D) <= N ->
     (Z.of_nat (length D) < N -> (length rest < 8)%nat) ->
     DecodePartialModel.decodePartial bits = Some t).
Proof.
  split; [|split; [|split; [|split]]].
  - intros H. unfold DecodePartialModel.decodePartial. rewrite (proj2 (Nat.ltb_lt _ _) H).
    reflexivity.
  - intros H. unfold DecodePartialModel.decodePartial.
    destruct (_ <? 32)%nat; [reflexivity|]. rewrite H. reflexivity.
  - intros k Hk Hl. unfold DecodePartialModel.decodePartial.
    destruct (_ <? 32)%nat; [reflexivity|]. rewrite Hk. cbv zeta.
    replace (k + 8 + 8)%nat with (k + 16)%nat by lia.
    rewrite (slice8_short _ (k + 8) (k + 16)) by lia. reflexivity.
  - intros k Hk N HN. unfold DecodePartialModel.decodePartial.
    destruct (_ <? 32)%nat; [reflexivity|]. rewrite Hk. cbv zeta.
    replace (k + 8 + 8)%nat with (k + 16)%nat by lia. fold N.
    destruct (_ <? 8)%nat; [reflexivity|].
    unfold MAX_MESSAGE_BYTES. rewrite Z.gtb_ltb.
    destruct HN as [-> | HN]; [rewrite orb_true_r; reflexivity|].
    rewrite (proj2 (Z.ltb_lt _ _)) by lia. reflexivity.
  - intros k N t c j rest H32 Hk D Hskip HN Ht Hc Hj HD Hrest.
    assert (Hc' : 0 <= c <= 0x10FFFF).
    { unfold is_scalar in Hc. rewrite !andb_true_iff, !Z.leb_le in Hc. lia. }
    assert (HbD : Forall is_byte D).
    { apply Forall_app. split; [apply text_encoder_encode_bytes; exact Ht |
                                apply PartialFacts.firstn_encode_cp_bytes; exact Hc']. }
    unfold DecodePartialModel.decodePartial. rewrite (proj2 (Nat.ltb_ge _ _) H32), Hk. cbv zeta.
    rewrite ProtocolFacts.slice_8, Hskip, ProtocolFacts.firstn_byteToBits,
      ProtocolFacts.byteToBits_length. cbn [Nat.ltb Nat.leb].
    rewrite ProtocolFacts.bitsToNumber_byteToBits by (unfold is_byte; lia).
    unfold MAX_MESSAGE_BYTES. rewrite Z.gtb_ltb.
    rewrite (proj2 (Z.ltb_ge 200 N)), (proj2 (Z.eqb_neq N 0)) by lia. cbn [orb].
    assert (Hskip16 : skipn (k + 8 + 8) bits = flat_map Protocol.byteToBits D ++ rest).
    { replace (k + 8 + 8)%nat with (8 + (k + 8))%nat by lia.
      rewrite <- skipn_skipn, Hskip. apply ProtocolFacts.skipn_byteToBits. }
    assert (Havail : Nat.min (Z.to_nat N) ((length bits - (k + 8 + 8)) / 8) = length D).
    { rewrite <- length_skipn, Hskip16, length_app, length_flat_map_byteToBits.
      rewrite Nat.mul_comm, Nat.div_add_l by lia.
      destruct (Z.lt_ge_cases (Z.of_nat (length D)) N) as [Hlt|Hge].
      - rewrite Nat.div_small by (apply Hrest; exact Hlt). lia.
      - lia. }
    rewrite Havail.
    rewrite (ProtocolFacts.read_bytes_frame bits D rest _ HbD Hskip16).
    rewrite uint8array_bytes by exact HbD.
    unfold D. rewrite (PartialFacts.utf8_prefix_app (length (text_encoder_encode t))
                         (text_encoder_encode t) t);
      [| lia | apply utf8_roundtrip, scalar_Forall; exact Ht].
    rewrite PartialFacts.utf8_prefix_incomplete by assumption.
    rewrite app_nil_r. reflexivity.
Qed.

Lemma decodePartial_preview_witness :
  DecodePartialModel.decodePartial konnichiwa_partial_bits = Some [0x3053; 0x3093].
Proof.
  apply (proj2 (proj2 (proj2 (proj2 (decodePartial_preview konnichiwa_partial_bits))))
           8%nat 15 [0x3053; 0x3093] 0x306B 1%nat []);
    [ apply Nat.leb_le; vm_compute; reflexivity | vm_compute; reflexivity
    | vm_compute; reflexivity | lia | vm_compute; reflexivity | vm_compute; reflexivity
    | apply Nat.ltb_lt; vm_compute; reflexivity | vm_compute; discriminate
    | intros _; apply Nat.ltb_lt; vm_compute; reflexivity ].
Defined.

(** ** Receivers *)

Module ReceiverFacts.
Import BitReceiver.

(** One tick in the [bits] state that samples a bit [b]: the events of the
    tick start with the progress status [ev1]; the session ends on a
    successful decode or on the bit-count timeout, and goes on otherwise. *)
Lemma bits_step (cfg : Config) (r : Receiver) (now : Z) (smp : Sample) (b : Z) :
  state r = Bits -> bitInterval cfg <= now - lastBitTime r -> detectBit smp = Some b ->
  let bs := bits r ++ [b] in
  let r1 := {| state := state r; bits := bs; gapStartTime := gapStartTime r;
               lastBitTime := now; running := running r |} in
  exists ev1,
    processFrame cfg r now smp =
      match (if (24 <=? length bs)%nat then Protocol.decode bs else None) with
      | Some m => (reset r1, ev1 ++ [StatusChange StSuccess; OnMessage m; StatusChange StIdle])
      | None =>
        if Z.of_nat (length bs) >? MAX_BITS_TIMEOUT
        then (reset r1, ev1 ++ [StatusChange (StError Messages.timeout);
                                OnError ErrTimeout Messages.timeout_long;
                                StatusChange StIdle])
        else (r1, ev1)
      end.
Proof.
  intros Hs Hel Hb bs r1. unfold processFrame. rewrite Hs. unfold handleBitsState.
  rewrite (proj2 (Z.leb_le _ _) Hel), Hb. cbv zeta. unfold tryDecode. fold bs.
  change (bits (Build_Receiver (state r) bs (gapStartTime r) now (running r))) with bs.
  eexists.
  destruct (24 <=? length bs)%nat; [destruct (Protocol.decode bs) as [m|]|].
  - reflexivity.
  - change (bits (Build_Receiver (state r) bs (gapStartTime r) now (running r))) with bs.
    destruct (Z.of_nat (length bs) >? MAX_BITS_TIMEOUT); [reflexivity|].
    rewrite !app_nil_r. reflexivity.
  - change (bits (Build_Receiver (state r) bs (gapStartTime r) now (running r))) with bs.
    destruct (Z.of_nat (length bs) >? MAX_BITS_TIMEOUT); [reflexivity|].
    rewrite !app_nil_r. reflexivity.
Qed.

End ReceiverFacts.

(** Where a session ends: a tick of [BitReceiver] in the [bits] state
    that reads a bit ends the session (state [idle], no bits) when the bits
    decode, and when there are more than 2000 of them; when they do not
    decode and there are at most 2000, the receiver keeps its state and all
    bits read so far. [BitReceiver.tryDecode] leaves a receiver whose bits do
    not decode unchanged, [handleTimeout] always ends the session, and
    [ManualBitReceiver.tryDecode] ends the session on a successful decode. *)
Theorem Receiver_session_end :
  (forall cfg r now smp b,
     BitReceiver.state r = Bits ->
     BitReceiver.bitInterval cfg <= now - BitReceiver.lastBitTime r ->
     BitReceiver.detectBit smp = Some b ->
     let bs := BitReceiver.bits r ++ [b] in
     let r' := fst (BitReceiver.processFrame cfg r now smp) in
     ((24 <= length bs)%nat -> Protocol.decode bs <> None ->
      BitReceiver.state r' = Idle /\ BitReceiver.bits r' = []) /\
     ((2000 < length bs)%nat -> BitReceiver.state r' = Idle /\ BitReceiver.bits r' = []) /\
     ((length bs <= 2000)%nat -> Protocol.decode bs = None ->
      BitReceiver.state r' = Bits /\ BitReceiver.bits r' = bs)) /\
  (forall r, Protocol.decode (BitReceiver.bits r) = None -> BitReceiver.tryDecode r = (r, [])) /\
  (forall r, BitReceiver.state (fst (BitReceiver.handleTimeout r)) = Idle /\
             BitReceiver.bits (fst (BitReceiver.handleTimeout r)) = []) /\
  (forall mr, Protocol.decode (ManualBitReceiver.bits mr) <> None ->
     ManualBitReceiver.state (fst (ManualBitReceiver.tryDecode mr)) = Idle /\
     ManualBitReceiver.bits (fst (ManualBitReceiver.tryDecode mr)) = []).
Proof.
  split; [|split; [|split]].
  - intros cfg r now smp b Hs Hel Hb bs r'.
    destruct (ReceiverFacts.bits_step cfg r now smp b Hs Hel Hb) as [ev1 E].
    unfold r'. rewrite E. fold bs. split; [|split].
    + intros Hl Hd. rewrite (proj2 (Nat.leb_le _ _) Hl).
      destruct (Protocol.decode bs); [split; reflexivity | contradiction].
    + intros Hl. unfold MAX_BITS_TIMEOUT.
      destruct (24 <=? length bs)%nat; [destruct (Protocol.decode bs)|];
        try (split; reflexivity);
        rewrite Z.gtb_ltb, (proj2 (Z.ltb_lt _ _)) by lia; split; reflexivity.
    + intros Hl Hd. unfold MAX_BITS_TIMEOUT. rewrite Hd.
      replace (if (24 <=? length bs)%nat then None else None) with (@None text)
        by (destruct (24 <=? length bs)%nat; reflexivity).
      rewrite Z.gtb_ltb, (proj2 (Z.ltb_ge _ _)) by lia. split; [exact Hs | reflexivity].
  - intros r Hd. unfold BitReceiver.tryDecode. rewrite Hd. reflexivity.
  - intros r. split; reflexivity.
  - intros mr Hd. unfold ManualBitReceiver.tryDecode.
    destruct (Protocol.decode (ManualBitReceiver.bits mr)); [split; reflexivity | contradiction].
Qed.

Lemma Receiver_session_end_witness :
  BitReceiver.state (fst (BitReceiver.processFrame sample_config
                            (bits_receiver (removelast a_bits)) 200 (bit_sample (last a_bits 0))))
    = Idle /\
  ManualBitReceiver.state (fst (ManualBitReceiver.tryDecode (manual_bits_receiver a_bits))) = Idle.
Proof.
  split.
  - apply (proj1 (proj1 Receiver_session_end sample_config (bits_receiver (removelast a_bits))
                    200 (bit_sample (last a_bits 0)) (last a_bits 0)
                    eq_refl ltac:(vm_compute; discriminate) eq_refl));
      [apply Nat.leb_le; vm_compute; reflexivity | vm_compute; discriminate].
  - apply (proj2 (proj2 (proj2 Receiver_session_end)) (manual_bits_receiver a_bits)).
    vm_compute. discriminate.
Defined.

(** C3 fails for [ManualBitReceiver.tryDecode]: the bits of [encode("A")]
    with the last checksum bit flipped do not decode; [tryDecode] reports
    the [checksum] error but does not reset, so the receiver stays in the
    [bits] state with all 40 bits and no [idle] status is reported. *)
Lemma Receiver_session_end_counterexample :
  Protocol.decode (flip_last a_bits) = None /\
  ManualBitReceiver.tryDecode (manual_bits_receiver (flip_last a_bits)) =
    (manual_bits_receiver (flip_last a_bits),
     [StatusChange (StError Messages.decode_failed);
      OnError ErrChecksum Messages.checksum_failed]) /\
  length (flip_last a_bits) = 40%nat /\
  ~ (forall mr, ManualBitReceiver.state (fst (ManualBitReceiver.tryDecode mr)) = Idle /\
                ManualBitReceiver.bits (fst (ManualBitReceiver.tryDecode mr)) = []).
Proof.
  split; [vm_compute; reflexivity|].
  split; [vm_compute; reflexivity|].
  split; [vm_compute; reflexivity|].
  intros H. destruct (H (manual_bits_receiver (flip_last a_bits))) as [Hs _].
  vm_compute in Hs. discriminate.
Qed.

(** [ManualBitReceiver.tryDecode] on bits that do not decode reports the
    error but keeps the state and the bits. *)
Lemma ManualBitReceiver_tryDecode_failure (mr : ManualBitReceiver.Receiver) :
  Protocol.decode (ManualBitReceiver.bits mr) = None ->
  ManualBitReceiver.tryDecode mr =
    (mr, [StatusChange (StError Messages.decode_failed);
          OnError ErrChecksum Messages.checksum_failed]).
Proof. intros Hd. unfold ManualBitReceiver.tryDecode. rewrite Hd. reflexivity. Qed.

(** C4: a tick in the [bits] state that reads a bit which brings the buffer
    above 2000 bits without a frame decoding ends with the timeout: the
    events end with [error "timeout"], [onError] of type [timeout] and
    [idle], and the receiver is idle with no bits. 2001 alternating bits
    hold no start marker. *)
Theorem BitReceiver_timeout :
  Protocol.findStartMarker (alternating 2001) = None /\
  (forall cfg r now smp b,
     BitReceiver.state r = Bits ->
     BitReceiver.bitInterval cfg <= now - BitReceiver.lastBitTime r ->
     BitReceiver.detectBit smp = Some b ->
     (2000 < length (BitReceiver.bits r ++ [b]))%nat ->
     Protocol.decode (BitReceiver.bits r ++ [b]) = None ->
     let '(r', ev) := BitReceiver.processFrame cfg r now smp in
     BitReceiver.state r' = Idle /\ BitReceiver.bits r' = [] /\
     exists ev0, ev = ev0 ++ [StatusChange (StError Messages.timeout);
                             OnError ErrTimeout Messages.timeout_long;
                             StatusChange StIdle]).
Proof.
  split; [vm_compute; reflexivity|].
  intros cfg r now smp b Hs Hel Hb Hl Hd.
  destruct (ReceiverFacts.bits_step cfg r now smp b Hs Hel Hb) as [ev1 E].
  rewrite E. cbv zeta. rewrite Hd.
  replace (if (24 <=? length (BitReceiver.bits r ++ [b]))%nat then None else None)
    with (@None text) by (destruct (24 <=? _)%nat; reflexivity).
  unfold MAX_BITS_TIMEOUT. rewrite Z.gtb_ltb, (proj2 (Z.ltb_lt _ _)) by lia.
  split; [reflexivity | split; [reflexivity | exists ev1; reflexivity]].
Qed.

Lemma BitReceiver_timeout_witness :
  alternating 2000 ++ [0] = alternating 2001 /\
  let '(r', ev) := BitReceiver.processFrame sample_config (bits_receiver (alternating 2000))
                     200 (bit_sample 0) in
  BitReceiver.state r' = Idle /\ BitReceiver.bits r' = [] /\
  exists ev0, ev = ev0 ++ [StatusChange (StError Messages.timeout);
                          OnError ErrTimeout Messages.timeout_long;
                          StatusChange StIdle].
Proof.
  split; [vm_compute; reflexivity|].
  apply (proj2 BitReceiver_timeout sample_config (bits_receiver (alternating 2000)) 200
           (bit_sample 0) 0 eq_refl ltac:(vm_compute; discriminate) eq_refl).
  - apply Nat.ltb_lt. vm_compute. reflexivity.
  - vm_compute. reflexivity.
Defined.

(** * Further properties of the code *)

(** ** [Protocol]: helpers *)

Module CodecFacts.
Import Protocol.

Lemma land1 (y : Z) : Z.land y 1 = y mod 2.
Proof. apply (Z.land_ones y 1). lia. Qed.

Lemma byteToBits_01 (b : Z) : Forall (fun x => x = 0 \/ x = 1) (byteToBits b).
Proof.
  unfold byteToBits. apply Forall_forall. intros x Hx.
  apply in_map_iff in Hx as [i [<- _]]. rewrite land1.
  pose proof (Z.mod_pos_bound (Z.shiftr (to_int32 b) i) 2 ltac:(lia)). lia.
Qed.

Lemma flat_map_byteToBits_01 (bytes : list Z) :
  Forall (fun x => x = 0 \/ x = 1) (flat_map byteToBits bytes).
Proof.
  induction bytes as [|b bytes IH]; cbn [flat_map]; [constructor|].
  apply Forall_app. split; [apply byteToBits_01 | exact IH].
Qed.

(** The window test of [findStartMarker] at the head of a list. *)
Lemma window_spec (l : list Z) :
  ((8 <=? length l)%nat && all_ones8 l = true) <->
  (forall j, (j < 8)%nat -> nth_error l j = Some 1).
Proof.
  split.
  - intros H. apply andb_true_iff in H as [Hl Ho]. apply Nat.leb_le in Hl.
    do 8 (destruct l as [|? l]; [cbn in Hl; lia|]).
    unfold all_ones8 in Ho. cbn in Ho. rewrite !andb_true_iff, !Z.eqb_eq in Ho.
    intros j Hj. do 8 (destruct j as [|j]; [cbn; f_equal; tauto|]). lia.
  - intros H.
    assert (Hl : (7 < length l)%nat)
      by (apply nth_error_Some; rewrite (H 7%nat) by lia; discriminate).
    pose proof (H 0%nat ltac:(lia)) as H0; pose proof (H 1%nat ltac:(lia)) as H1;
    pose proof (H 2%nat ltac:(lia)) as H2; pose proof (H 3%nat ltac:(lia)) as H3;
    pose proof (H 4%nat ltac:(lia)) as H4; pose proof (H 5%nat ltac:(lia)) as H5;
    pose proof (H 6%nat ltac:(lia)) as H6; pose proof (H 7%nat ltac:(lia)) as H7.
    do 8 (destruct l as [|? l]; [cbn in Hl; lia|]).
    cbn in H0, H1, H2, H3, H4, H5, H6, H7.
    injection H0 as ->; injection H1 as ->; injection H2 as ->; injection H3 as ->;
    injection H4 as ->; injection H5 as ->; injection H6 as ->; injection H7 as ->.
    reflexivity.
Qed.

Lemma ones_at_cons (a : Z) (l : list Z) (i : nat) : ones_at (a :: l) (S i) <-> ones_at l i.
Proof. unfold ones_at. reflexivity. Qed.

Lemma find_from_spec (l : list Z) :
  match find_from l 0 with
  | Some k => ones_at l k /\ forall i, (i < k)%nat -> ~ ones_at l i
  | None => forall i, ~ ones_at l i
  end.
Proof.
  induction l as [|a t IH].
  - intros i H. specialize (H 0%nat ltac:(lia)). destruct i; discriminate.
  - cbn [find_from]. destruct ((8 <=? length (a :: t))%nat && all_ones8 (a :: t)) eqn:E.
    + split; [|lia]. exact (proj1 (window_spec (a :: t)) E).
    + assert (H0 : ~ ones_at (a :: t) 0).
      { intros H. rewrite (proj2 (window_spec (a :: t)) H) in E. discriminate. }
      rewrite ProtocolFacts.find_from_shift. destruct (find_from t 0) as [k|]; cbn [option_map].
      * destruct IH as [Hk Hmin]. split; [exact Hk|].
        intros [|i] Hi; [exact H0|]. rewrite ones_at_cons. apply Hmin. lia.
      * intros [|i]; [exact H0|]. rewrite ones_at_cons. apply IH.
Qed.

Lemma findStartMarker_char (l : list Z) (k : nat) :
  findStartMarker l = Some k <-> ones_at l k /\ forall i, (i < k)%nat -> ~ ones_at l i.
Proof.
  unfold findStartMarker. pose proof (find_from_spec l) as H.
  split.
  - intros E. rewrite E in H. exact H.
  - intros [Hk Hmin]. destruct (find_from l 0) as [k'|].
    + destruct H as [Hk' Hmin'].
      destruct (Nat.lt_total k k') as [Hlt|[Heq|Hgt]].
      * exfalso. exact (Hmin' k Hlt Hk).
      * subst. reflexivity.
      * exfalso. exact (Hmin k' Hgt Hk').
    + exfalso. exact (H k Hk).
Qed.

Lemma ones_at_length (l : list Z) (i : nat) : ones_at l i -> (i + 8 <= length l)%nat.
Proof.
  intros H. specialize (H 7%nat ltac:(lia)).
  assert (nth_error l (i + 7) <> None) by (rewrite H; discriminate).
  apply nth_error_Some in H0. lia.
Qed.

Lemma ones_at_app (l r : list Z) (i : nat) :
  (i + 8 <= length l)%nat -> ones_at (l ++ r) i <-> ones_at l i.
Proof.
  intros Hi. unfold ones_at.
  split; intros H j Hj; specialize (H j Hj).
  - rewrite <- H. symmetry. apply nth_error_app1. lia.
  - rewrite <- H. apply nth_error_app1. lia.
Qed.

Lemma findStartMarker_app (l r : list Z) (k : nat) :
  findStartMarker l = Some k -> findStartMarker (l ++ r) = Some k.
Proof.
  rewrite !findStartMarker_char. intros [Hk Hmin].
  pose proof (ones_at_length l k Hk) as Hl.
  split.
  - apply ones_at_app; assumption.
  - intros i Hi H. apply (Hmin i Hi). apply (ones_at_app l r i); [lia | exact H].
Qed.

Lemma slice_app (l r : list Z) (a b : nat) :
  (b <= length l)%nat -> slice (l ++ r) a b = slice l a b.
Proof.
  intros Hb. unfold slice. rewrite skipn_app, firstn_app, length_skipn.
  replace (b - a - (length l - a))%nat with 0%nat by lia.
  rewrite firstn_O, app_nil_r. reflexivity.
Qed.

Lemma slice_full (l : list Z) (a b : nat) :
  (length (slice l a b) <? 8)%nat = false -> (b - a = 8)%nat -> (b <= length l)%nat.
Proof.
  intros H Hab. rewrite slice_length in H. apply Nat.ltb_ge in H.
  pose proof (Nat.le_min_r (b - a) (length l - a)). lia.
Qed.

Lemma read_bytes_app (l r : list Z) (n i : nat) (res : list Z * nat) :
  read_bytes l n i = Some res -> read_bytes (l ++ r) n i = Some res.
Proof.
  revert i res. induction n as [|n IH]; intros i res H; cbn [read_bytes] in H |- *; [exact H|].
  destruct (length (slice l i (i + 8)) <? 8)%nat eqn:E; [discriminate|].
  rewrite (slice_app l r i (i + 8)) by (apply (slice_full l i); [exact E | lia]).
  rewrite E.
  destruct (read_bytes l n (i + 8)) as [[bs j]|] eqn:E'; [|discriminate].
  rewrite (IH _ _ E'). exact H.
Qed.

Lemma slice_firstn (l : list Z) (k a b : nat) :
  (b <= k)%nat -> slice (firstn k l) a b = slice l a b.
Proof.
  intros Hb. unfold slice. rewrite skipn_firstn_comm, firstn_firstn.
  f_equal. lia.
Qed.

Lemma encode_length (m : text) (bits : list Z) :
  encode m = Ok bits ->
  length bits = (32 + 8 * length (text_encoder_encode m))%nat.
Proof.
  intros H. destruct (ProtocolFacts.encode_ok m bits H) as [_ ->].
  rewrite !length_app, length_flat_map_byteToBits, !ProtocolFacts.byteToBits_length.
  cbn [length PREAMBLE START_MARKER]. lia.
Qed.

(** No proper prefix of an encoding decodes. *)
Lemma decode_firstn_encode (m : text) (bits : list Z) (k : nat) :
  encode m = Ok bits -> (k < length bits)%nat -> decode (firstn k bits) = None.
Proof.
  intros He Hk. pose proof (encode_length m bits He) as Hlen.
  destruct (ProtocolFacts.encode_ok m bits He) as [Hn Eb].
  set (data := text_encoder_encode m) in *.
  set (n := length data) in *.
  set (rest := byteToBits (Z.of_nat n) ++ flat_map byteToBits data
               ++ byteToBits (calculateChecksum data)) in *.
  assert (Eb' : bits = (PREAMBLE ++ START_MARKER) ++ rest) by (rewrite Eb; reflexivity).
  destruct (Nat.lt_ge_cases k 16) as [Hk16|Hk16].
  - rewrite Eb', firstn_app.
    replace (k - length (PREAMBLE ++ START_MARKER))%nat with 0%nat by (cbn; lia).
    rewrite firstn_O, app_nil_r.
    do 16 (destruct k as [|k]; [vm_compute; reflexivity|]). lia.
  - assert (Ep : firstn k bits = [] ++ PREAMBLE ++ START_MARKER ++ firstn (k - 16) rest).
    { rewrite Eb', firstn_app. rewrite firstn_all2 by (cbn; lia). reflexivity. }
    assert (Hf : findStartMarker (firstn k bits) = Some 8%nat).
    { rewrite Ep. apply (ProtocolFacts.findStartMarker_frame [] (firstn (k - 16) rest)).
      vm_compute. reflexivity. }
    assert (Hpl : length (firstn k bits) = k) by (rewrite length_firstn; lia).
    rewrite (decode_at _ _ Hf). cbv zeta. cbn [Nat.add].
    destruct (Nat.lt_ge_cases k 24) as [Hk24|Hk24].
    { rewrite slice8_short by lia. reflexivity. }
    rewrite slice_firstn by lia.
    assert (El : slice bits 16 24 = byteToBits (Z.of_nat n)).
    { rewrite Eb'. unfold slice. rewrite skipn_app.
      replace (16 - length (PREAMBLE ++ START_MARKER))%nat with 0%nat by reflexivity.
      rewrite skipn_all2 by (cbn; lia). cbn [app skipn Nat.sub].
      unfold rest. apply ProtocolFacts.firstn_byteToBits. }
    rewrite El, ProtocolFacts.byteToBits_length, (proj2 (Nat.ltb_ge 8 8)) by lia.
    rewrite ProtocolFacts.bitsToNumber_byteToBits by (unfold is_byte; lia).
    unfold MAX_MESSAGE_BYTES. rewrite Z.gtb_ltb.
    destruct (Nat.eq_dec n 0) as [H0|H0].
    { rewrite H0. reflexivity. }
    rewrite (proj2 (Z.ltb_ge 200 (Z.of_nat n))) by lia.
    rewrite (proj2 (Z.eqb_neq (Z.of_nat n) 0)) by lia. cbn [orb].
    rewrite Nat2Z.id.
    destruct (Nat.lt_ge_cases k (24 + 8 * n)) as [Hkd|Hkd].
    { rewrite read_bytes_short by lia. reflexivity. }
    destruct (read_bytes (firstn k bits) n 24) as [[bs j]|] eqn:Er; [|reflexivity].
    apply read_bytes_index in Er. subst j.
    rewrite slice8_short by lia. reflexivity.
Qed.

(** [decode] keeps its answer when bits follow a frame it accepts. *)
Lemma decode_app (l r : list Z) (t : text) :
  decode l = Some t -> decode (l ++ r) = Some t.
Proof.
  intros H. destruct (findStartMarker l) as [k|] eqn:Ek.
  2:{ unfold decode in H. rewrite Ek in H. discriminate. }
  pose proof (findStartMarker_app l r k Ek) as Ek'.
  rewrite (decode_at _ _ Ek) in H. rewrite (decode_at _ _ Ek'). cbv zeta in H |- *.
  destruct (length (slice l (k + 8) (k + 16)) <? 8)%nat eqn:E1; [discriminate|].
  rewrite (slice_app l r (k + 8) (k + 16)) by (apply (slice_full l (k + 8)); [exact E1 | lia]).
  rewrite E1.
  destruct (_ || _); [discriminate|].
  destruct (read_bytes l _ (k + 16)) as [[bs j]|] eqn:E2; [|discriminate].
  rewrite (read_bytes_app l r _ _ _ E2).
  destruct (length (slice l j (j + 8)) <? 8)%nat eqn:E3; [discriminate|].
  rewrite (slice_app l r j (j + 8)) by (apply (slice_full l j); [exact E3 | lia]).
  rewrite E3. exact H.
Qed.

(** Flipping one bit. *)
Lemma flip_at_app_r (A B : list Z) (i : nat) :
  (length A <= i)%nat -> flip_at (A ++ B) i = A ++ flip_at B (i - length A).
Proof.
  intros Hi. unfold flip_at.
  rewrite firstn_app, firstn_all2 by lia. rewrite app_nth2 by lia.
  rewrite skipn_app, (skipn_all2 A) by lia.
  replace (S i - length A)%nat with (S (i - length A)) by lia.
  rewrite <- app_assoc. reflexivity.
Qed.

Lemma flip_at_app_l (A B : list Z) (i : nat) :
  (i < length A)%nat -> flip_at (A ++ B) i = flip_at A i ++ B.
Proof.
  intros Hi. unfold flip_at.
  rewrite firstn_app. replace (i - length A)%nat with 0%nat by lia.
  rewrite firstn_O, app_nil_r, app_nth1 by lia.
  rewrite skipn_app. replace (S i - length A)%nat with 0%nat by lia.
  rewrite skipn_O. rewrite <- app_assoc. reflexivity.
Qed.

Lemma flip_byte (b : Z) (p : nat) :
  is_byte b -> (p < 8)%nat ->
  flip_at (byteToBits b) p = byteToBits (Z.lxor b (2 ^ Z.of_nat (7 - p))).
Proof.
  unfold is_byte. intros Hb Hp.
  assert (Hall : forallb (fun b => if list_eq_dec Z.eq_dec (flip_at (byteToBits b) p)
                                        (byteToBits (Z.lxor b (2 ^ Z.of_nat (7 - p))))
                                   then true else false) (map Z.of_nat (seq 0 256)) = true).
  { do 8 (destruct p as [|p]; [vm_compute; reflexivity|]). lia. }
  pose proof (Z_range_check _ 256 Hall b ltac:(lia)) as H. cbv beta in H.
  destruct (list_eq_dec Z.eq_dec _ _); [assumption | discriminate].
Qed.

Lemma nth_skipn (l : list Z) (q : nat) :
  (q < length l)%nat -> skipn q l = nth q l 0 :: skipn (S q) l.
Proof.
  revert q. induction l as [|a l IH]; intros q Hq; [cbn in Hq; lia|].
  destruct q as [|q]; [reflexivity|]. cbn [skipn nth]. apply IH. cbn in Hq. lia.
Qed.

Lemma flip_flat_map (data : list Z) (q p : nat) :
  Forall is_byte data -> (q < length data)%nat -> (p < 8)%nat ->
  flip_at (flat_map byteToBits data) (8 * q + p)
  = flat_map byteToBits (replace_at data q (Z.lxor (nth q data 0) (2 ^ Z.of_nat (7 - p)))).
Proof.
  intros Hb. revert q. induction Hb as [|b data Hb Hd IH]; intros q Hq Hp; [cbn in Hq; lia|].
  cbn [flat_map]. destruct q as [|q].
  - rewrite flip_at_app_l by (rewrite ProtocolFacts.byteToBits_length; lia).
    rewrite flip_byte by assumption. reflexivity.
  - rewrite flip_at_app_r by (rewrite ProtocolFacts.byteToBits_length; lia).
    rewrite ProtocolFacts.byteToBits_length.
    replace (8 * S q + p - 8)%nat with (8 * q + p)%nat by lia.
    rewrite IH by (cbn in Hq; lia). reflexivity.
Qed.

Lemma fold_lxor (l : list Z) (a : Z) :
  fold_left Z.lxor l a = Z.lxor a (fold_left Z.lxor l 0).
Proof.
  revert a. induction l as [|y l IH]; intros a; cbn [fold_left]; [rewrite Z.lxor_0_r; reflexivity|].
  rewrite IH, (IH (Z.lxor 0 y)), Z.lxor_0_l, Z.lxor_assoc. reflexivity.
Qed.

Lemma checksum_replace (data : list Z) (q : nat) (v : Z) :
  (q < length data)%nat ->
  calculateChecksum (replace_at data q (Z.lxor (nth q data 0) v))
  = Z.lxor (calculateChecksum data) v.
Proof.
  intros Hq. unfold calculateChecksum, replace_at.
  assert (Ed : data = firstn q data ++ nth q data 0 :: skipn (S q) data)
    by (rewrite <- (nth_skipn data q Hq); symmetry; apply firstn_skipn).
  replace (fold_left Z.lxor data 0)
    with (fold_left Z.lxor (firstn q data ++ nth q data 0 :: skipn (S q) data) 0)
    by (rewrite <- Ed; reflexivity).
  rewrite !fold_left_app. cbn [fold_left].
  rewrite (fold_lxor (skipn (S q) data)
             (Z.lxor (fold_left Z.lxor (firstn q data) 0) (Z.lxor (nth q data 0) v))).
  rewrite (fold_lxor (skipn (S q) data)
             (Z.lxor (fold_left Z.lxor (firstn q data) 0) (nth q data 0))).
  rewrite !Z.lxor_assoc. f_equal. f_equal. apply Z.lxor_comm.
Qed.

Lemma lxor_pow2_neq (c : Z) (p : nat) : Z.lxor c (2 ^ Z.of_nat p) <> c.
Proof.
  intros H. assert (Hv : Z.lxor (Z.lxor c (2 ^ Z.of_nat p)) c = Z.lxor c c) by (rewrite H; reflexivity).
  rewrite (Z.lxor_comm c), Z.lxor_assoc, Z.lxor_nilpotent, Z.lxor_0_r in Hv.
  pose proof (Z.pow_pos_nonneg 2 (Z.of_nat p) ltac:(lia) ltac:(lia)). lia.
Qed.

Lemma pow2_byte (p : nat) : (p < 8)%nat -> is_byte (2 ^ Z.of_nat (7 - p)).
Proof.
  intros Hp. unfold is_byte. do 8 (destruct p as [|p]; [cbn; lia|]). lia.
Qed.

Lemma replace_at_length (l : list Z) (q : nat) (x : Z) :
  (q < length l)%nat -> length (replace_at l q x) = length l.
Proof.
  intros Hq. unfold replace_at. rewrite length_app, length_firstn. cbn [length].
  rewrite length_skipn. lia.
Qed.

Lemma replace_at_bytes (l : list Z) (q : nat) (x : Z) :
  Forall is_byte l -> is_byte x -> Forall is_byte (replace_at l q x).
Proof.
  intros Hl Hx. unfold replace_at. destruct (GridFacts.Forall_firstn_skipn is_byte l q Hl) as [H1 H2].
  apply Forall_app. split; [exact H1 | constructor; [exact Hx|]].
  destruct (GridFacts.Forall_firstn_skipn is_byte l (S q) Hl) as [_ H3]. exact H3.
Qed.

End CodecFacts.

Lemma not_ones_at (l : list Z) (i : nat) :
  ~ ones_at l i -> exists j, (j < 8)%nat /\ nth_error l (i + j) <> Some 1.
Proof.
  intros H.
  assert (Hd : forall j, {nth_error l (i + j) = Some 1} + {nth_error l (i + j) <> Some 1})
    by (intros j; decide equality; apply Z.eq_dec).
  destruct (Hd 0%nat) as [H0|H0]; [|exists 0%nat; split; [lia | exact H0]].
  destruct (Hd 1%nat) as [H1|H1]; [|exists 1%nat; split; [lia | exact H1]].
  destruct (Hd 2%nat) as [H2|H2]; [|exists 2%nat; split; [lia | exact H2]].
  destruct (Hd 3%nat) as [H3|H3]; [|exists 3%nat; split; [lia | exact H3]].
  destruct (Hd 4%nat) as [H4|H4]; [|exists 4%nat; split; [lia | exact H4]].
  destruct (Hd 5%nat) as [H5|H5]; [|exists 5%nat; split; [lia | exact H5]].
  destruct (Hd 6%nat) as [H6|H6]; [|exists 6%nat; split; [lia | exact H6]].
  destruct (Hd 7%nat) as [H7|H7]; [|exists 7%nat; split; [lia | exact H7]].
  exfalso. apply H. intros j Hj. do 8 (destruct j as [|j]; [assumption|]). lia.
Qed.

Lemma Forall_01_PM : Forall (fun x => x = 0 \/ x = 1) (PREAMBLE ++ START_MARKER).
Proof. repeat constructor; lia. Qed.

(** ** [Protocol]: properties *)

(** X1: [byteToBits] and [bitsToNumber] are inverse to each other: a byte
    [0 .. 255] comes back from its 8 bits, and a list of 8 values 0 or 1
    comes back from the number it packs into. *)
Theorem Protocol_byte_bits_roundtrip :
  (forall b, 0 <= b <= 255 -> Protocol.bitsToNumber (Protocol.byteToBits b) = b) /\
  (forall bs, length bs = 8%nat -> Forall (fun x => x = 0 \/ x = 1) bs ->
     Protocol.byteToBits (Protocol.bitsToNumber bs) = bs).
Proof.
  split.
  - intros b Hb. apply ProtocolFacts.bitsToNumber_byteToBits. unfold is_byte. lia.
  - intros bs Hl H01. apply GridFacts.bitlists_complete in H01. rewrite Hl in H01.
    assert (Hall : forallb (fun A => if list_eq_dec Z.eq_dec
                                          (Protocol.byteToBits (Protocol.bitsToNumber A)) A
                                     then true else false) (GridFacts.bitlists 8) = true)
      by (vm_compute; reflexivity).
    rewrite forallb_forall in Hall. specialize (Hall bs H01). cbv beta in Hall.
    destruct (list_eq_dec Z.eq_dec _ _); [assumption | discriminate].
Qed.

Lemma Protocol_byte_bits_roundtrip_witness :
  Protocol.bitsToNumber (Protocol.byteToBits 200) = 200 /\
  Protocol.byteToBits (Protocol.bitsToNumber [1; 1; 0; 0; 1; 0; 0; 0]) = [1; 1; 0; 0; 1; 0; 0; 0].
Proof.
  split.
  - apply (proj1 Protocol_byte_bits_roundtrip 200). lia.
  - apply (proj2 Protocol_byte_bits_roundtrip [1; 1; 0; 0; 1; 0; 0; 0]);
      [reflexivity | repeat constructor; lia].
Defined.

(** X2: when [Protocol.encode] succeeds, its output has exactly
    [calculateBitCount m] bits, every one of them 0 or 1, and starts with the
    preamble [10101010] and the start marker [11111111]. *)
Theorem Protocol_encode_bits (m : text) (bits : list Z) :
  Protocol.encode m = Ok bits ->
  Z.of_nat (length bits) = Protocol.calculateBitCount m /\
  Forall (fun b => b = 0 \/ b = 1) bits /\
  firstn 16 bits = PREAMBLE ++ START_MARKER.
Proof.
  intros H. pose proof (CodecFacts.encode_length m bits H) as Hl.
  destruct (ProtocolFacts.encode_ok m bits H) as [_ Eb].
  split; [|split].
  - rewrite Hl. unfold Protocol.calculateBitCount, Protocol.getByteLength. lia.
  - rewrite Eb, app_assoc, Forall_app. split; [exact Forall_01_PM|]. rewrite !Forall_app. split; [apply CodecFacts.byteToBits_01|].
    split; [apply CodecFacts.flat_map_byteToBits_01 | apply CodecFacts.byteToBits_01].
  - rewrite Eb. reflexivity.
Qed.

Lemma Protocol_encode_bits_witness :
  exists bits, Protocol.encode test_text = Ok bits /\
    Z.of_nat (length bits) = Protocol.calculateBitCount test_text.
Proof.
  eexists. split; [reflexivity|].
  exact (proj1 (Protocol_encode_bits test_text _ eq_refl)).
Defined.

(** X3: [findStartMarker] returns the first index at which eight bits equal
    to 1 follow; when it returns -1 (here [None]) there is no such index. *)
Theorem Protocol_findStartMarker_first (bits : list Z) :
  (forall i, Protocol.findStartMarker bits = Some i ->
     (i + 8 <= length bits)%nat /\
     (forall j, (j < 8)%nat -> nth_error bits (i + j) = Some 1) /\
     (forall i', (i' < i)%nat -> exists j, (j < 8)%nat /\ nth_error bits (i' + j) <> Some 1)) /\
  (Protocol.findStartMarker bits = None ->
     forall i, exists j, (j < 8)%nat /\ nth_error bits (i + j) <> Some 1).
Proof.
  split.
  - intros i H. apply CodecFacts.findStartMarker_char in H as [Hi Hmin].
    split; [exact (CodecFacts.ones_at_length _ _ Hi)|]. split; [exact Hi|].
    intros i' Hi'. apply not_ones_at. exact (Hmin i' Hi').
  - intros H i. apply not_ones_at.
    pose proof (CodecFacts.find_from_spec bits) as Hs.
    unfold Protocol.findStartMarker in H. rewrite H in Hs. exact (Hs i).
Qed.

Lemma Protocol_findStartMarker_first_witness :
  (8 + 8 <= length a_bits)%nat /\
  exists j, (j < 8)%nat /\ nth_error (alternating 20) (3 + j) <> Some 1.
Proof.
  split.
  - exact (proj1 (proj1 (Protocol_findStartMarker_first a_bits) 8%nat
                    ltac:(vm_compute; reflexivity))).
  - exact (proj2 (Protocol_findStartMarker_first (alternating 20))
             ltac:(vm_compute; reflexivity) 3%nat).
Defined.

(** X4: once [decode] accepts a list of bits, appending further bits does not
    change its answer. *)
Theorem Protocol_decode_append (bits rest : list Z) (t : text) :
  Protocol.decode bits = Some t -> Protocol.decode (bits ++ rest) = Some t.
Proof. apply CodecFacts.decode_app. Qed.

Lemma Protocol_decode_append_witness :
  Protocol.decode (a_bits ++ [1; 1; 1; 1; 1; 1; 1; 1; 0]) = Some a_text.
Proof. apply Protocol_decode_append. vm_compute. reflexivity. Defined.

(** X5: [decode] never accepts a proper prefix of an encoding: for every
    [k] below the length of [encode(m)], the first [k] bits decode to null. *)
Theorem Protocol_decode_proper_prefix (m : text) (bits : list Z) (k : nat) :
  Protocol.encode m = Ok bits -> (k < length bits)%nat ->
  Protocol.decode (firstn k bits) = None.
Proof. apply CodecFacts.decode_firstn_encode. Qed.

Lemma Protocol_decode_proper_prefix_witness :
  Protocol.decode (firstn 39 a_bits) = None.
Proof.
  apply (Protocol_decode_proper_prefix a_text); [reflexivity | vm_compute; lia].
Defined.

(** X6: flipping any single bit of the data bytes or of the checksum byte of
    an encoding (bit index 24 or more) makes [decode] return null. *)
Theorem Protocol_decode_detects_bit_flip (m : text) (bits : list Z) (i : nat) :
  forallb is_code_point m = true -> Protocol.encode m = Ok bits ->
  (24 <= i < length bits)%nat ->
  Protocol.decode (flip_at bits i) = None.
Proof.
  intros Hm He Hi.
  pose proof (CodecFacts.encode_length m bits He) as Hl.
  destruct (ProtocolFacts.encode_ok m bits He) as [Hn Eb].
  pose proof (code_point_bytes m Hm) as Hb.
  remember (text_encoder_encode m) as data eqn:Hdata. clear Hdata.
  assert (Hc : is_byte (Protocol.calculateChecksum data)) by exact (ProtocolFacts.checksum_byte data Hb).
  assert (Eb' : bits = (PREAMBLE ++ START_MARKER ++ Protocol.byteToBits (Z.of_nat (length data)))
                       ++ (flat_map Protocol.byteToBits data
                           ++ Protocol.byteToBits (Protocol.calculateChecksum data)))
    by (rewrite Eb, <- !app_assoc; reflexivity).
  assert (HP : length (PREAMBLE ++ START_MARKER ++ Protocol.byteToBits (Z.of_nat (length data)))
               = 24%nat)
    by (rewrite !length_app, ProtocolFacts.byteToBits_length; reflexivity).
  rewrite Eb', CodecFacts.flip_at_app_r by lia. rewrite HP.
  destruct data as [|b0 data'].
  { cbn in Hl. assert (Hp : (i - 24 < 8)%nat) by lia.
    remember (i - 24)%nat as p. clear - Hp.
    do 8 (destruct p as [|p]; [vm_compute; reflexivity|]). lia. }
  remember (b0 :: data') as data eqn:Hd.
  assert (Hn1 : (1 <= length data)%nat) by (subst data; cbn; lia).
  clear Hd b0 data'.
  assert (HF : forall rest, Protocol.findStartMarker
                 ((PREAMBLE ++ START_MARKER ++ Protocol.byteToBits (Z.of_nat (length data)))
                  ++ rest) = Some 8%nat).
  { intros rest. rewrite <- !app_assoc.
    apply (ProtocolFacts.findStartMarker_frame [] _). vm_compute. reflexivity. }
  pose proof (length_flat_map_byteToBits data) as HFl.
  destruct (Nat.lt_ge_cases (i - 24) (8 * length data)) as [Hin|Hin].
  - rewrite CodecFacts.flip_at_app_l by lia.
    pose proof (Nat.div_mod_eq (i - 24) 8) as Hdm.
    pose proof (Nat.mod_upper_bound (i - 24) 8 ltac:(lia)) as Hp.
    remember ((i - 24) / 8)%nat as q. remember ((i - 24) mod 8)%nat as p.
    rewrite Hdm. rewrite CodecFacts.flip_flat_map by (auto; lia).
    set (v := 2 ^ Z.of_nat (7 - p)).
    set (data2 := replace_at data q (Z.lxor (nth q data 0) v)).
    assert (Hl2 : length data2 = length data) by (apply CodecFacts.replace_at_length; lia).
    assert (Hb2 : Forall is_byte data2).
    { apply CodecFacts.replace_at_bytes; [exact Hb|]. apply lxor_byte; [|apply CodecFacts.pow2_byte; exact Hp].
      apply Forall_nth; [exact Hb | lia]. }
    rewrite (ProtocolFacts.decode_frame _ 8 data2 (Protocol.calculateChecksum data) [] (HF _)).
    + unfold data2. rewrite CodecFacts.checksum_replace by lia.
      rewrite (proj2 (Z.eqb_neq _ _)); [reflexivity|].
      intros E. apply (CodecFacts.lxor_pow2_neq (Protocol.calculateChecksum data) (7 - p)).
      symmetry. exact E.
    + rewrite Hl2, app_nil_r. reflexivity.
    + exact Hb2.
    + exact Hc.
    + lia.
  - rewrite CodecFacts.flip_at_app_r by lia. rewrite HFl.
    assert (Hp : (i - 24 - 8 * length data < 8)%nat) by lia.
    remember (i - 24 - 8 * length data)%nat as p.
    rewrite CodecFacts.flip_byte by assumption.
    set (c2 := Z.lxor (Protocol.calculateChecksum data) (2 ^ Z.of_nat (7 - p))).
    rewrite (ProtocolFacts.decode_frame _ 8 data c2 [] (HF _)).
    + rewrite (proj2 (Z.eqb_neq _ _)); [reflexivity|].
      apply CodecFacts.lxor_pow2_neq.
    + rewrite app_nil_r. reflexivity.
    + exact Hb.
    + apply lxor_byte; [exact Hc | apply CodecFacts.pow2_byte; exact Hp].
    + lia.
Qed.

Lemma Protocol_decode_detects_bit_flip_witness :
  Protocol.decode (flip_at (match Protocol.encode test_text with Ok b => b | Throw _ => [] end) 40)
  = None.
Proof.
  apply (Protocol_decode_detects_bit_flip test_text); [reflexivity | reflexivity | vm_compute; lia].
Defined.

(** ** Decoded texts *)

Module DecodedFacts.

Lemma div_mod_64 (q d : Z) : 0 <= d < 64 -> (64 * q + d) / 64 = q /\ (64 * q + d) mod 64 = d.
Proof.
  intros Hd. split.
  - symmetry. apply (Z.div_unique_pos _ 64 q d); lia.
  - symmetry. apply (Z.mod_unique_pos _ 64 q d); lia.
Qed.

Lemma encode_cp_1 (c : Z) : 0 <= c <= 0x7F -> utf8_encode_cp c = [c].
Proof. intros Hc. unfold utf8_encode_cp, is_surrogate. decide_tests. reflexivity. Qed.

Lemma encode_cp_2 (x y : Z) :
  2 <= x <= 31 -> 0 <= y < 64 -> utf8_encode_cp (64 * x + y) = [0xC0 + x; 0x80 + y].
Proof.
  intros Hx Hy. destruct (div_mod_64 x y Hy) as [E1 E2].
  unfold utf8_encode_cp, is_surrogate. decide_tests. rewrite E1, E2. reflexivity.
Qed.

Lemma encode_cp_3 (x y z : Z) :
  0 <= x <= 15 -> 0 <= y < 64 -> 0 <= z < 64 ->
  2048 <= 4096 * x + 64 * y + z -> ~ (0xD800 <= 4096 * x + 64 * y + z <= 0xDFFF) ->
  utf8_encode_cp (4096 * x + 64 * y + z) = [0xE0 + x; 0x80 + y; 0x80 + z].
Proof.
  intros Hx Hy Hz Hlo Hs.
  replace (4096 * x + 64 * y + z) with (64 * (64 * x + y) + z) by lia.
  destruct (div_mod_64 (64 * x + y) z Hz) as [E1 E2].
  destruct (div_mod_64 x y Hy) as [E3 E4].
  assert (Hns : is_surrogate (64 * (64 * x + y) + z) = false)
    by (unfold is_surrogate; destruct (Z.leb_spec 0xD800 (64 * (64 * x + y) + z)),
          (Z.leb_spec (64 * (64 * x + y) + z) 0xDFFF); reflexivity || lia).
  unfold utf8_encode_cp. rewrite Hns. decide_tests.
  replace ((64 * (64 * x + y) + z) / 4096) with ((64 * (64 * x + y) + z) / 64 / 64)
    by (rewrite Z.div_div by lia; reflexivity).
  rewrite E1, E3, E4, E2. reflexivity.
Qed.

Lemma encode_cp_4 (w x y z : Z) :
  0 <= w <= 4 -> 0 <= x < 64 -> 0 <= y < 64 -> 0 <= z < 64 ->
  65536 <= 262144 * w + 4096 * x + 64 * y + z ->
  utf8_encode_cp (262144 * w + 4096 * x + 64 * y + z)
  = [0xF0 + w; 0x80 + x; 0x80 + y; 0x80 + z].
Proof.
  intros Hw Hx Hy Hz Hlo.
  replace (262144 * w + 4096 * x + 64 * y + z) with (64 * (64 * (64 * w + x) + y) + z) by lia.
  destruct (div_mod_64 (64 * (64 * w + x) + y) z Hz) as [E1 E2].
  destruct (div_mod_64 (64 * w + x) y Hy) as [E3 E4].
  destruct (div_mod_64 w x Hx) as [E5 E6].
  unfold utf8_encode_cp, is_surrogate. decide_tests.
  replace ((64 * (64 * (64 * w + x) + y) + z) / 4096)
    with ((64 * (64 * (64 * w + x) + y) + z) / 64 / 64)
    by (rewrite Z.div_div by lia; reflexivity).
  replace ((64 * (64 * (64 * w + x) + y) + z) / 262144)
    with ((64 * (64 * (64 * w + x) + y) + z) / 64 / 64 / 64)
    by (rewrite !Z.div_div by lia; reflexivity).
  rewrite E1, E3, E5, E6, E4, E2. reflexivity.
Qed.

Lemma scalar_range (c : Z) : 0 <= c <= 0x10FFFF -> ~ (0xD800 <= c <= 0xDFFF) -> is_scalar c = true.
Proof.
  intros H Hs. unfold is_scalar, is_surrogate.
  rewrite (proj2 (Z.leb_le 0 c)), (proj2 (Z.leb_le c 0x10FFFF)) by lia.
  destruct (Z.leb_spec 0xD800 c), (Z.leb_spec c 0xDFFF); reflexivity || lia.
Qed.

(** Strict UTF-8 decoding is the inverse of the encoder: the decoded text is
    made of scalar values and encodes back to the input bytes. *)
Lemma utf8_decode_inv (bs : list Z) (t : text) :
  utf8_decode bs = Some t ->
  Forall (fun c => is_scalar c = true) t /\ text_encoder_encode t = bs.
Proof.
  remember (length bs) as n eqn:Hn. assert (Hle : (length bs <= n)%nat) by lia. clear Hn.
  revert bs t Hle. induction n as [|n IH]; intros bs t Hle H.
  { destruct bs; [|cbn in Hle; lia]. injection H as <-. split; [constructor | reflexivity]. }
  destruct bs as [|b0 r]; [injection H as <-; split; [constructor | reflexivity]|].
  cbn [length] in Hle. rewrite utf8_decode_cons in H.
  destruct (in_range 0 0x7F b0) eqn:E0.
  { apply in_range_spec in E0.
    destruct (utf8_decode r) as [t'|] eqn:Er; [|discriminate]. injection H as <-.
    destruct (IH r t' ltac:(lia) Er) as [Hs He].
    split; [constructor; [apply scalar_range; lia | exact Hs]|].
    unfold text_encoder_encode in *. cbn [flat_map]. rewrite encode_cp_1 by lia.
    rewrite He. reflexivity. }
  destruct (in_range 0xC2 0xDF b0) eqn:E1.
  { apply in_range_spec in E1.
    destruct r as [|b1 r1]; [discriminate|].
    destruct (in_range 0x80 0xBF b1) eqn:F1; [|discriminate]. apply in_range_spec in F1.
    destruct (utf8_decode r1) as [t'|] eqn:Er; [|discriminate]. injection H as <-.
    cbn [length] in Hle. destruct (IH r1 t' ltac:(lia) Er) as [Hs He].
    split; [constructor; [apply scalar_range; lia | exact Hs]|].
    unfold text_encoder_encode in *. cbn [flat_map].
    replace ((b0 - 0xC0) * 64 + (b1 - 0x80)) with (64 * (b0 - 0xC0) + (b1 - 0x80)) by lia.
    rewrite encode_cp_2 by lia. rewrite He. cbn [app]. do 2 f_equal; lia. }
  destruct (in_range 0xE0 0xEF b0) eqn:E2.
  { apply in_range_spec in E2.
    destruct r as [|b1 [|b2 r2]]; try discriminate.
    cbv zeta in H.
    destruct (in_range (if b0 =? 0xE0 then 0xA0 else 0x80) (if b0 =? 0xED then 0x9F else 0xBF) b1
              && in_range 0x80 0xBF b2) eqn:F; [|discriminate].
    apply andb_true_iff in F as [F1 F2]. apply in_range_spec in F1, F2.
    destruct (utf8_decode r2) as [t'|] eqn:Er; [|discriminate]. injection H as <-.
    cbn [length] in Hle. destruct (IH r2 t' ltac:(lia) Er) as [Hs He].
    assert (Hb1 : (b0 = 0xE0 -> 0xA0 <= b1) /\ (b0 = 0xED -> b1 <= 0x9F) /\ 0x80 <= b1 <= 0xBF).
    { destruct (Z.eqb_spec b0 0xE0), (Z.eqb_spec b0 0xED); lia. }
    replace ((b0 - 0xE0) * 4096 + (b1 - 0x80) * 64 + (b2 - 0x80))
      with (4096 * (b0 - 0xE0) + 64 * (b1 - 0x80) + (b2 - 0x80)) by lia.
    split; [constructor; [apply scalar_range; lia | exact Hs]|].
    unfold text_encoder_encode in *. cbn [flat_map].
    rewrite encode_cp_3 by lia. rewrite He. cbn [app]. do 3 f_equal; lia. }
  destruct (in_range 0xF0 0xF4 b0) eqn:E3; [|discriminate].
  apply in_range_spec in E3.
  destruct r as [|b1 [|b2 [|b3 r3]]]; try discriminate.
  cbv zeta in H.
  destruct (in_range (if b0 =? 0xF0 then 0x90 else 0x80) (if b0 =? 0xF4 then 0x8F else 0xBF) b1
            && in_range 0x80 0xBF b2 && in_range 0x80 0xBF b3) eqn:F; [|discriminate].
  apply andb_true_iff in F as [F F3]. apply andb_true_iff in F as [F1 F2].
  apply in_range_spec in F1, F2, F3.
  destruct (utf8_decode r3) as [t'|] eqn:Er; [|discriminate]. injection H as <-.
  cbn [length] in Hle. destruct (IH r3 t' ltac:(lia) Er) as [Hs He].
  assert (Hb1 : (b0 = 0xF0 -> 0x90 <= b1) /\ (b0 = 0xF4 -> b1 <= 0x8F) /\ 0x80 <= b1 <= 0xBF).
  { destruct (Z.eqb_spec b0 0xF0), (Z.eqb_spec b0 0xF4); lia. }
  replace ((b0 - 0xF0) * 262144 + (b1 - 0x80) * 4096 + (b2 - 0x80) * 64 + (b3 - 0x80))
    with (262144 * (b0 - 0xF0) + 4096 * (b1 - 0x80) + 64 * (b2 - 0x80) + (b3 - 0x80)) by lia.
  split; [constructor; [apply scalar_range; lia | exact Hs]|].
  unfold text_encoder_encode in *. cbn [flat_map].
  rewrite encode_cp_4 by lia. rewrite He. cbn [app]. do 4 f_equal; lia.
Qed.

Lemma text_decoder_decode_inv (bs : list Z) (t : text) :
  text_decoder_decode bs = Some t ->
  forallb is_scalar t = true /\ (length (text_encoder_encode t) <= length bs)%nat.
Proof.
  unfold text_decoder_decode. intros H.
  destruct (utf8_decode bs) as [t0|] eqn:E; [|discriminate].
  destruct (utf8_decode_inv bs t0 E) as [Hs He].
  assert (Hfb : forall u, Forall (fun c => is_scalar c = true) u -> forallb is_scalar u = true)
    by (intros u Hu; apply forallb_forall; intros x Hx; exact (proj1 (Forall_forall _ _) Hu x Hx)).
  destruct t0 as [|c t1].
  - injection H as <-. split; [reflexivity | cbn; lia].
  - destruct (c =? 0xFEFF); injection H as <-.
    + inversion Hs as [|? ? _ Hs1]; subst. split; [exact (Hfb _ Hs1)|].
      unfold text_encoder_encode. cbn [flat_map]. rewrite length_app. lia.
    + split; [exact (Hfb _ Hs)|]. subst bs. lia.
Qed.

Lemma read_bytes_length (bits : list Z) (n i : nat) (bs : list Z) (j : nat) :
  Protocol.read_bytes bits n i = Some (bs, j) -> length bs = n.
Proof.
  revert i bs j. induction n as [|n IH]; intros i bs j H; cbn [Protocol.read_bytes] in H.
  - injection H as <- _. reflexivity.
  - destruct (_ <? 8)%nat; [discriminate|].
    destruct (Protocol.read_bytes bits n (i + 8)) as [[bs' j']|] eqn:E; [|discriminate].
    injection H as <- _. cbn [length]. rewrite (IH _ _ _ E). reflexivity.
Qed.

Lemma js_slice_len (l : list Z) (n : Z) :
  0 <= 1 + n -> (length (js_slice l 1 (1 + n)) <= Z.to_nat n)%nat.
Proof.
  intros Hn. unfold js_slice. cbv zeta. rewrite length_firstn.
  rewrite (proj2 (Z.ltb_ge 1 0)) by lia. rewrite (proj2 (Z.ltb_ge (1 + n) 0)) by lia.
  lia.
Qed.

End DecodedFacts.

(** X7: every message that [Protocol.decode] or [GridProtocol.decode]
    returns is well-formed (Unicode scalar values only) and can be sent
    again: its UTF-8 form has at most 200 bytes, so [canEncode] holds. *)
Theorem decoded_message_encodable :
  (forall bits t, Protocol.decode bits = Some t ->
     forallb is_scalar t = true /\ Protocol.canEncode t = true) /\
  (forall frames t, GridProtocol.decode frames = Some t ->
     forallb is_scalar t = true /\ Protocol.canEncode t = true).
Proof.
  unfold Protocol.canEncode, Protocol.getByteLength, MAX_MESSAGE_BYTES. split.
  - intros bits t H. unfold Protocol.decode in H.
    destruct (Protocol.findStartMarker bits) as [k|]; [|discriminate]. cbv zeta in H.
    destruct (_ <? 8)%nat; [discriminate|].
    set (len := Protocol.bitsToNumber (slice bits (k + 8) (k + 8 + 8))) in H.
    destruct (len >? MAX_MESSAGE_BYTES) eqn:Eg; [discriminate|].
    destruct (len =? 0); [discriminate|]. cbn [orb] in H.
    destruct (Protocol.read_bytes _ _ _) as [[bs j]|] eqn:Er; [|discriminate].
    destruct (_ <? 8)%nat; [discriminate|].
    destruct (negb _); [discriminate|].
    apply DecodedFacts.text_decoder_decode_inv in H as [Hs Hl].
    apply DecodedFacts.read_bytes_length in Er.
    unfold uint8array in Hl. rewrite length_map, Er in Hl.
    unfold MAX_MESSAGE_BYTES in Eg. rewrite Z.gtb_ltb in Eg. apply Z.ltb_ge in Eg.
    split; [exact Hs|]. apply Z.leb_le. lia.
  - intros frames t H. unfold GridProtocol.decode in H.
    destruct frames as [|[a b] fs]; [discriminate|]. cbv zeta in H.
    destruct ((a =? 0) || (a >? MAX_MESSAGE_BYTES)) eqn:Ea; [discriminate|].
    apply orb_false_iff in Ea as [_ Ea]. unfold MAX_MESSAGE_BYTES in Ea.
    rewrite Z.gtb_ltb in Ea. apply Z.ltb_ge in Ea.
    destruct (_ <? _); [discriminate|].
    destruct (js_index _ (1 + a)) as [r|] eqn:Ei; [|discriminate].
    assert (Ha : 0 <= 1 + a) by (unfold js_index in Ei; destruct (Z.ltb_spec (1 + a) 0); [discriminate | lia]).
    destruct (negb _); [discriminate|].
    apply DecodedFacts.text_decoder_decode_inv in H as [Hs Hl].
    pose proof (DecodedFacts.js_slice_len (GridProtocol.flatten ((a, b) :: fs)) a Ha) as Hj.
    unfold uint8array in Hl. rewrite length_map in Hl.
    split; [exact Hs|]. apply Z.leb_le. pose proof (Nat.le_trans _ _ _ Hl Hj) as Ht. clear -Ht Ea. lia.
Qed.

Lemma decoded_message_encodable_witness :
  (forallb is_scalar konnichiwa = true /\ Protocol.canEncode konnichiwa = true) /\
  (forallb is_scalar a_text = true /\ Protocol.canEncode a_text = true).
Proof.
  split.
  - apply (proj1 decoded_message_encodable
             (match Protocol.encode konnichiwa with Ok b => b | Throw _ => [] end)).
    vm_compute. reflexivity.
  - apply (proj2 decoded_message_encodable
             (match GridProtocol.encode a_text with Ok f => f | Throw _ => [] end)).
    vm_compute. reflexivity.
Defined.

(** ** Grid frames and cells *)

Module GridCellFacts.
Import GridProtocol.

Lemma to_int32_testbit (x i : Z) : 0 <= i < 32 -> Z.testbit (to_int32 x) i = Z.testbit x i.
Proof.
  intros Hi.
  assert (Hm : to_int32 x mod 2 ^ 32 = x mod 2 ^ 32).
  { unfold to_int32. cbv zeta. destruct (_ >=? _).
    - replace (x mod 2 ^ 32 - 2 ^ 32) with (x mod 2 ^ 32 + (-1) * 2 ^ 32) by lia.
      rewrite Z.mod_add by lia. apply Z.mod_mod. lia.
    - apply Z.mod_mod. lia. }
  rewrite <- (Z.mod_pow2_bits_low (to_int32 x) 32 i) by lia.
  rewrite Hm. apply Z.mod_pow2_bits_low. lia.
Qed.

Lemma cell_of_byte_mod (b i : Z) : 0 <= i < 8 ->
  Z.land (Z.shiftr (to_int32 b) i) 1 = Z.land (Z.shiftr (to_int32 (b mod 256)) i) 1.
Proof.
  intros Hi. apply Z.bits_inj'. intros n Hn.
  rewrite !Z.land_spec, !Z.shiftr_spec by lia.
  destruct (Z.eq_dec n 0) as [->|Hn0].
  - rewrite !Z.add_0_l, !to_int32_testbit by lia.
    change 256 with (2 ^ 8). rewrite Z.mod_pow2_bits_low by lia. reflexivity.
  - replace (Z.testbit 1 n) with false; [rewrite !andb_false_r; reflexivity|].
    symmetry. destruct n; [lia | | lia]. destruct p; reflexivity.
Qed.

Lemma byte_cells_mod (b : Z) : byte_cells b = byte_cells (b mod 256).
Proof.
  unfold byte_cells. cbn [map].
  rewrite !(cell_of_byte_mod b) by lia. reflexivity.
Qed.

Lemma mod256_byte (b : Z) : is_byte (b mod 256).
Proof. unfold is_byte. apply Z.mod_pos_bound. lia. Qed.

Lemma cell_bit_01 (c : option Z) : cell_bit c = 0 \/ cell_bit c = 1.
Proof. destruct c as [v|]; cbn; [destruct (v =? 0)|]; auto. Qed.

Lemma pack_cells_cell_bit (l1 l2 : list Z) (idx : list nat) :
  (forall i, In i idx -> cell_bit (nth_error l1 i) = cell_bit (nth_error l2 i)) ->
  pack_cells l1 idx = pack_cells l2 idx.
Proof.
  unfold pack_cells. generalize 0. induction idx as [|i idx IH]; intros acc H; [reflexivity|].
  cbn [fold_left]. rewrite (H i (or_introl eq_refl)). apply IH.
  intros j Hj. apply H. right. exact Hj.
Qed.

(** The cells as [cellsToFrame] reads them. *)
Definition read_cells (c : list Z) : list Z := map (fun i => cell_bit (nth_error c i)) (seq 0 16).

Lemma read_cells_length (c : list Z) : length (read_cells c) = 16%nat.
Proof. unfold read_cells. rewrite length_map, length_seq. reflexivity. Qed.

Lemma read_cells_01 (c : list Z) : Forall (fun x => x = 0 \/ x = 1) (read_cells c).
Proof. unfold read_cells. apply Forall_map, Forall_forall. intros i _. apply cell_bit_01. Qed.

Lemma pack_read_cells (c : list Z) (idx : list nat) :
  (forall i, In i idx -> (i < 16)%nat) -> pack_cells c idx = pack_cells (read_cells c) idx.
Proof.
  intros Hi. apply pack_cells_cell_bit. intros i Hin. specialize (Hi i Hin).
  unfold read_cells. rewrite nth_error_map, nth_error_seq.
  rewrite (proj2 (Nat.ltb_lt i 16)) by exact Hi. cbn [option_map].
  rewrite Nat.add_0_l. destruct (cell_bit_01 (nth_error c i)) as [E|E]; rewrite E; reflexivity.
Qed.

Lemma pack_cells8_byte (A : list Z) :
  length A = 8%nat -> Forall (fun x => x = 0 \/ x = 1) A -> is_byte (pack_cells A (seq 0 8)).
Proof.
  intros HA H01. apply GridFacts.bitlists_complete in H01. rewrite HA in H01.
  assert (Hall : forallb (fun A => (0 <=? pack_cells A (seq 0 8)) && (pack_cells A (seq 0 8) <? 256))
                   (GridFacts.bitlists 8) = true) by (vm_compute; reflexivity).
  rewrite forallb_forall in Hall. specialize (Hall A H01).
  apply andb_true_iff in Hall as [H1 H2]. apply Z.leb_le in H1. apply Z.ltb_lt in H2.
  unfold is_byte. lia.
Qed.

(** [isCheckerboard] as a sum of per-cell matches. *)
Definition cell_match (bits : list Z) (row col : Z) : Z :=
  match js_index bits (row * GRID_COLS + col) with
  | Some v => if v =? (row + col) mod 2 then 1 else 0
  | None => 0
  end.

Definition half_matches (bits : list Z) : Z :=
  fold_left (fun acc row =>
    acc + fold_left (fun acc col => acc + cell_match bits row col) [0; 1; 2; 3] 0) [0; 1] 0.

Lemma fold_left_ext' {A B} (f g : A -> B -> A) (l : list B) (a : A) :
  (forall a b, f a b = g a b) -> fold_left f l a = fold_left g l a.
Proof. intros H. revert a. induction l as [|b l IH]; intros a; cbn; [reflexivity|]. rewrite H. apply IH. Qed.

Lemma fold_left_add {B} (h : B -> Z) (l : list B) (a : Z) :
  fold_left (fun acc x => acc + h x) l a = a + fold_left (fun acc x => acc + h x) l 0.
Proof.
  revert a. induction l as [|x l IH]; intros a; cbn [fold_left]; [lia|].
  rewrite (IH (a + h x)), (IH (0 + h x)). lia.
Qed.

Lemma isCheckerboard_sum (bits : list Z) :
  GridAnalyzer.isCheckerboard bits =
  Qle_bool (3 # 4)
    (inject_Z (fold_left (fun acc row =>
       acc + fold_left (fun acc col => acc + cell_match bits row col) [0; 1; 2; 3] 0)
       [0; 1; 2; 3] 0) / inject_Z 16).
Proof.
  unfold GridAnalyzer.isCheckerboard. do 3 f_equal.
  change (range GRID_ROWS) with [0; 1; 2; 3]. change (range GRID_COLS) with [0; 1; 2; 3].
  apply fold_left_ext'. intros acc row.
  rewrite (fold_left_ext' _ (fun acc col => acc + cell_match bits row col)).
  - apply fold_left_add.
  - intros a col. unfold cell_match. cbv zeta.
    destruct (js_index _ _); [destruct (_ =? _)|]; lia.
Qed.

Lemma js_index_app_l (A B : list Z) (i : Z) :
  0 <= i < Z.of_nat (length A) -> js_index (A ++ B) i = js_index A i.
Proof.
  intros Hi. rewrite !GridFacts.js_index_nat by lia. apply nth_error_app1. lia.
Qed.

Lemma js_index_app_r (A B : list Z) (i : Z) :
  Z.of_nat (length A) <= i -> js_index (A ++ B) i = js_index B (i - Z.of_nat (length A)).
Proof.
  intros Hi. rewrite !GridFacts.js_index_nat by lia. rewrite nth_error_app2 by lia.
  f_equal. lia.
Qed.

Lemma matches_app8 (A B : list Z) :
  length A = 8%nat ->
  fold_left (fun acc row =>
     acc + fold_left (fun acc col => acc + cell_match (A ++ B) row col) [0; 1; 2; 3] 0)
     [0; 1; 2; 3] 0
  = half_matches A + half_matches B.
Proof.
  intros HA. unfold half_matches. cbn [fold_left].
  assert (Hl : forall r c, 0 <= r <= 1 -> 0 <= c <= 3 ->
            cell_match (A ++ B) r c = cell_match A r c).
  { intros r c Hr Hc. unfold cell_match, GRID_COLS. rewrite js_index_app_l by (rewrite HA; lia).
    reflexivity. }
  assert (Hh : forall r c, 2 <= r <= 3 -> 0 <= c <= 3 ->
            cell_match (A ++ B) r c = cell_match B (r - 2) c).
  { intros r c Hr Hc. unfold cell_match, GRID_COLS. rewrite js_index_app_r by (rewrite HA; lia).
    rewrite HA. replace (r * 4 + c - Z.of_nat 8) with ((r - 2) * 4 + c) by lia.
    replace (r + c) with (r - 2 + c + 1 * 2) by lia. rewrite Z.mod_add by lia. reflexivity. }
  rewrite !(Hl 0), !(Hl 1), !(Hh 2), !(Hh 3) by lia.
  change (2 - 2) with 0. change (3 - 2) with 1. lia.
Qed.

Lemma half_matches_byte (b : Z) :
  is_byte b -> half_matches (byte_cells b) = 8 - Z.of_nat (hamming8 b 0x5A).
Proof.
  unfold is_byte. intros Hb.
  pose proof (Z_range_check (fun b => half_matches (byte_cells b) =? 8 - Z.of_nat (hamming8 b 0x5A)) 256
                ltac:(vm_compute; reflexivity) b ltac:(lia)) as H.
  apply Z.eqb_eq in H. exact H.
Qed.

Lemma hamming8_le (a b : Z) : (hamming8 a b <= 8)%nat.
Proof.
  unfold hamming8. etransitivity; [apply filter_length_le|].
  unfold range. rewrite length_map, length_seq. reflexivity.
Qed.

Lemma threshold_table (h1 h2 : nat) : (h1 <= 8)%nat -> (h2 <= 8)%nat ->
  Qle_bool (3 # 4) (inject_Z (8 - Z.of_nat h1 + (8 - Z.of_nat h2)) / inject_Z 16)
  = (h1 + h2 <=? 4)%nat.
Proof.
  intros H1 H2.
  assert (Hall : forallb (fun h1 => forallb (fun h2 =>
            Bool.eqb (Qle_bool (3 # 4) (inject_Z (8 - Z.of_nat h1 + (8 - Z.of_nat h2)) / inject_Z 16))
                     (h1 + h2 <=? 4)%nat) (seq 0 9)) (seq 0 9) = true)
    by (vm_compute; reflexivity).
  rewrite forallb_forall in Hall. specialize (Hall h1 ltac:(apply in_seq; lia)).
  rewrite forallb_forall in Hall. specialize (Hall h2 ltac:(apply in_seq; lia)).
  apply Bool.eqb_prop in Hall. exact Hall.
Qed.

Lemma isCheckerboard_frame (hi lo : Z) :
  is_byte hi -> is_byte lo ->
  GridAnalyzer.isCheckerboard (frameToCells (hi, lo))
  = (hamming8 hi 0x5A + hamming8 lo 0x5A <=? 4)%nat.
Proof.
  intros Hh Hl. rewrite isCheckerboard_sum. cbn [frameToCells].
  rewrite matches_app8 by reflexivity.
  rewrite !half_matches_byte by assumption.
  apply threshold_table; apply hamming8_le.
Qed.

End GridCellFacts.

Lemma frame_cells_mod (hi lo : Z) :
  GridProtocol.cellsToFrame (GridProtocol.frameToCells (hi, lo)) = (hi mod 256, lo mod 256).
Proof.
  unfold GridProtocol.frameToCells.
  rewrite (GridCellFacts.byte_cells_mod hi), (GridCellFacts.byte_cells_mod lo).
  unfold GridProtocol.cellsToFrame.
  destruct (GridFacts.pack_cells_app8 (GridProtocol.byte_cells (hi mod 256))
              (GridProtocol.byte_cells (lo mod 256)) eq_refl) as [E1 E2].
  rewrite E1, E2, !GridFacts.pack_byte_cells by apply GridCellFacts.mod256_byte.
  reflexivity.
Qed.

(** X8: drawing a frame as cells and reading it back keeps the low eight
    bits of each number: bytes come back unchanged, any other integer comes
    back reduced modulo 256 (e.g. 300 as 44, -1 as 255). *)
Theorem Grid_frame_cells_mod (hi lo : Z) :
  GridProtocol.cellsToFrame (GridProtocol.frameToCells (hi, lo)) = (hi mod 256, lo mod 256).
Proof. exact (frame_cells_mod hi lo). Qed.

Lemma cellsToFrame_reads (c : list Z) :
  let f := GridProtocol.cellsToFrame c in
  is_byte (fst f) /\ is_byte (snd f) /\
  GridProtocol.frameToCells f = map (fun i => GridProtocol.cell_bit (nth_error c i)) (seq 0 16).
Proof.
  cbv zeta. unfold GridProtocol.cellsToFrame. cbn [fst snd].
  rewrite (GridCellFacts.pack_read_cells c (seq 0 8)), (GridCellFacts.pack_read_cells c (seq 8 8))
    by (intros i Hi; apply in_seq in Hi; lia).
  pose proof (GridCellFacts.read_cells_length c) as Hlen.
  pose proof (GridCellFacts.read_cells_01 c) as H01.
  rewrite <- (firstn_skipn 8 (GridCellFacts.read_cells c)) in *.
  rewrite length_app in Hlen. apply Forall_app in H01 as [Hf Hs].
  assert (Hf8 : length (firstn 8 (GridCellFacts.read_cells c)) = 8%nat)
    by (rewrite length_firstn, GridCellFacts.read_cells_length; reflexivity).
  assert (Hs8 : length (skipn 8 (GridCellFacts.read_cells c)) = 8%nat) by lia.
  destruct (GridFacts.pack_cells_app8 _ (skipn 8 (GridCellFacts.read_cells c)) Hf8) as [E1 E2].
  rewrite E1, E2.
  split; [apply GridCellFacts.pack_cells8_byte; assumption|].
  split; [apply GridCellFacts.pack_cells8_byte; assumption|].
  cbn [GridProtocol.frameToCells].
  rewrite !GridFacts.byte_cells_pack by assumption.
  rewrite firstn_skipn. reflexivity.
Qed.

(** X9: [cellsToFrame] accepts any cell array: a non-zero cell reads as 1, a
    missing cell (short array) as 0, cells past the sixteenth are ignored;
    both numbers of the frame are bytes, and drawing the frame again gives
    exactly the sixteen cells as read. *)
Theorem Grid_cellsToFrame_reads (c : list Z) :
  let f := GridProtocol.cellsToFrame c in
  is_byte (fst f) /\ is_byte (snd f) /\
  GridProtocol.frameToCells f = map (fun i => GridProtocol.cell_bit (nth_error c i)) (seq 0 16).
Proof. exact (cellsToFrame_reads c). Qed.

(** X10: the end-marker test of the grid receiver, applied to the cells of a
    data frame (hi, lo), passes exactly when the frame differs from the
    checkerboard bytes (0x5A, 0x5A) in at most 4 of its 16 bits; so a data
    frame close to the checkerboard, such as the second frame (0x5A, 0x00)
    of the message "ZZ", is taken for the end marker. *)
Theorem GridAnalyzer_isCheckerboard_frame (hi lo : Z) :
  is_byte hi -> is_byte lo ->
  GridAnalyzer.isCheckerboard (GridProtocol.frameToCells (hi, lo))
  = (hamming8 hi 0x5A + hamming8 lo 0x5A <=? 4)%nat.
Proof. apply GridCellFacts.isCheckerboard_frame. Qed.

Lemma GridAnalyzer_isCheckerboard_frame_witness :
  GridProtocol.encode zz_text = Ok [(2, 90); (90, 0)] /\
  GridAnalyzer.isCheckerboard (GridProtocol.frameToCells (90, 0)) = true.
Proof.
  split; [vm_compute; reflexivity|].
  rewrite (GridAnalyzer_isCheckerboard_frame 90 0) by (unfold is_byte; lia).
  vm_compute. reflexivity.
Defined.

(** ** Grid payloads *)

Module GridPayloadFacts.
Import GridProtocol.

Lemma flatten_app (f1 f2 : list frame) : flatten (f1 ++ f2) = flatten f1 ++ flatten f2.
Proof. unfold flatten. apply flat_map_app. Qed.

Lemma flatten_length (fs : list frame) : length (flatten fs) = (2 * length fs)%nat.
Proof. unfold flatten. induction fs as [|[hi lo] fs IH]; cbn; [reflexivity|]. rewrite IH. lia. Qed.

Lemma flatten_Forall (P : Z -> Prop) (fs : list frame) :
  Forall P (flatten fs) -> Forall (fun f => P (fst f) /\ P (snd f)) fs.
Proof.
  induction fs as [|[hi lo] fs IH]; intros H; [constructor|].
  cbn in H. inversion H as [|? ? Hh H1]; subst. inversion H1 as [|? ? Hl H2]; subst.
  constructor; [split; assumption | apply IH; exact H2].
Qed.

Lemma js_slice_app (l x : list Z) (s e : Z) :
  0 <= s <= Z.of_nat (length l) -> 0 <= e <= Z.of_nat (length l) ->
  js_slice (l ++ x) s e = js_slice l s e.
Proof.
  intros Hs He. unfold js_slice. cbv zeta. rewrite length_app.
  rewrite (proj2 (Z.ltb_ge s 0)), (proj2 (Z.ltb_ge e 0)) by lia.
  rewrite !Z.min_l by lia.
  rewrite skipn_app, firstn_app.
  replace (Z.to_nat s - length l)%nat with 0%nat by lia. rewrite skipn_O.
  rewrite length_skipn.
  replace (Z.to_nat (e - s) - (length l - Z.to_nat s))%nat with 0%nat by lia.
  rewrite firstn_O, app_nil_r. reflexivity.
Qed.

End GridPayloadFacts.

Lemma encode_frames_spec (m : text) :
  forallb is_scalar m = true ->
  let data := text_encoder_encode m in
  let n := length data in
  match GridProtocol.encode m with
  | Ok frames =>
      (n <= 200)%nat /\
      GridProtocol.flatten frames
        = [Z.of_nat n] ++ data ++ [GridProtocol.calculateChecksum data]
          ++ (if Z.even (Z.of_nat n) then [] else [0]) /\
      length frames = ((n + 3) / 2)%nat /\
      Forall (fun f => is_byte (fst f) /\ is_byte (snd f)) frames
  | Throw e => e = MessageTooLongError /\ (200 < n)%nat
  end.
Proof.
  intros Hs data n.
  destruct (ProtocolFacts.encoded_bytes m Hs) as [Hb Hc].
  unfold GridProtocol.encode, MAX_MESSAGE_BYTES. fold data. rewrite Z.gtb_ltb.
  destruct (Z.ltb_spec 200 (Z.of_nat (length data))) as [Hgt|Hle].
  { split; [reflexivity | fold n in Hgt; lia]. }
  fold n in Hle |- *.
  rewrite !length_app. cbn [length]. fold n.
  replace (Z.of_nat (1 + (n + 1))) with (Z.of_nat n + 2 * 1) by lia.
  rewrite GridFacts.rem2_even by lia. rewrite Z.even_add_mul_2.
  assert (Hpay : forall pad : list Z, Forall is_byte pad ->
            Nat.Even (1 + (n + (1 + length pad))) ->
            let frames := GridProtocol.split_frames ([Z.of_nat n] ++ data ++ [GridProtocol.calculateChecksum data] ++ pad) in
            GridProtocol.flatten frames = [Z.of_nat n] ++ data ++ [GridProtocol.calculateChecksum data] ++ pad /\
            (2 * length frames = 1 + (n + (1 + length pad)))%nat /\
            Forall (fun f => is_byte (fst f) /\ is_byte (snd f)) frames).
  { intros pad Hp He frames.
    assert (Ef : GridProtocol.flatten frames = [Z.of_nat n] ++ data ++ [GridProtocol.calculateChecksum data] ++ pad)
      by (apply GridFacts.flatten_split_frames; rewrite !length_app; exact He).
    split; [exact Ef|]. split.
    - rewrite <- GridPayloadFacts.flatten_length, Ef, !length_app. reflexivity.
    - apply GridPayloadFacts.flatten_Forall. rewrite Ef.
      apply Forall_app; split; [constructor; [unfold is_byte; lia | constructor]|].
      apply Forall_app; split; [exact Hb|].
      apply Forall_app; split; [constructor; [exact Hc | constructor] | exact Hp]. }
  destruct (Z.even (Z.of_nat n)) eqn:Ev; cbn [negb].
  - destruct (Hpay [] ltac:(constructor)) as [E1 [E2 E3]].
    + apply Z.even_spec in Ev. destruct Ev as [k Hk]. exists (Z.to_nat k + 1)%nat. cbn. lia.
    + rewrite app_nil_r in E1, E2, E3 |- *. cbn [length] in E2.
      split; [lia|]. split; [exact E1|]. split; [|exact E3].
      apply (Nat.div_unique _ 2 _ 1); lia.
  - destruct (Hpay [0] ltac:(repeat constructor; unfold is_byte; lia)) as [E1 [E2 E3]].
    + assert (Ho : Z.odd (Z.of_nat n) = true) by (rewrite <- Z.negb_even, Ev; reflexivity).
      apply Z.odd_spec in Ho. destruct Ho as [k Hk]. exists (Z.to_nat k + 2)%nat. cbn. lia.
    + rewrite <- !app_assoc. cbn [length] in E2.
      split; [lia|]. split; [exact E1|]. split; [|exact E3].
      apply (Nat.div_unique _ 2 _ 0); lia.
Qed.

(** X11: the grid encoding of a message of n UTF-8 bytes (n at most 200):
    flattened, the frames are the length byte n, the data bytes, the XOR
    checksum and one padding 0 when n is odd; there are (n + 3) / 2 frames,
    every number in them is a byte; a longer message is refused with
    [MessageTooLongError]. *)
Theorem GridProtocol_encode_frames (m : text) :
  forallb is_scalar m = true ->
  let data := text_encoder_encode m in
  let n := length data in
  match GridProtocol.encode m with
  | Ok frames =>
      (n <= 200)%nat /\
      GridProtocol.flatten frames
        = [Z.of_nat n] ++ data ++ [GridProtocol.calculateChecksum data]
          ++ (if Z.even (Z.of_nat n) then [] else [0]) /\
      length frames = ((n + 3) / 2)%nat /\
      Forall (fun f => is_byte (fst f) /\ is_byte (snd f)) frames
  | Throw e => e = MessageTooLongError /\ (200 < n)%nat
  end.
Proof. exact (encode_frames_spec m). Qed.

Lemma GridProtocol_encode_frames_witness :
  GridProtocol.flatten (match GridProtocol.encode test_text with Ok f => f | Throw _ => [] end)
  = [4] ++ text_encoder_encode test_text
    ++ [GridProtocol.calculateChecksum (text_encoder_encode test_text)] ++ [].
Proof.
  pose proof (GridProtocol_encode_frames test_text eq_refl) as H. cbv zeta in H.
  destruct (GridProtocol.encode test_text) as [f|e] eqn:E; [|vm_compute in E; discriminate].
  destruct H as [_ [H _]]. rewrite H. vm_compute. reflexivity.
Defined.

(** X12: [GridProtocol.decode] only reads the frames it needs: frames
    received after a frame list that decodes do not change the result. *)
Theorem GridProtocol_decode_append (frames extra : list GridProtocol.frame) (t : text) :
  GridProtocol.decode frames = Some t -> GridProtocol.decode (frames ++ extra) = Some t.
Proof.
  intros H. destruct frames as [|[a b] fs]; [discriminate|].
  rewrite <- app_comm_cons. unfold GridProtocol.decode in *. cbv zeta in *.
  rewrite app_comm_cons, GridPayloadFacts.flatten_app.
  unfold GridProtocol.frame in *.
  set (bytes := GridProtocol.flatten ((a, b) :: fs)) in *.
  destruct ((a =? 0) || (a >? MAX_MESSAGE_BYTES)); [discriminate|].
  set (expected := if Z.rem (a + 2) 2 =? 0 then a + 2 else a + 2 + 1) in *.
  destruct (Z.ltb_spec (Z.of_nat (length bytes)) expected) as [|El]; [discriminate|].
  assert (Hlen : a + 2 <= Z.of_nat (length bytes)) by (unfold expected in El; destruct (_ =? 0); lia).
  destruct (js_index bytes (1 + a)) as [r|] eqn:Ei; [|discriminate].
  assert (Ha : 0 <= 1 + a) by (unfold js_index in Ei; destruct (Z.ltb_spec (1 + a) 0); [discriminate | lia]).
  rewrite length_app, (proj2 (Z.ltb_ge _ _)) by lia.
  rewrite GridCellFacts.js_index_app_l, Ei by lia.
  rewrite GridPayloadFacts.js_slice_app by lia.
  exact H.
Qed.

Lemma GridProtocol_decode_append_witness :
  GridProtocol.decode ((match GridProtocol.encode test_text with Ok f => f | Throw _ => [] end)
                       ++ [(0x5A, 0x5A); (1, 2)]) = Some test_text.
Proof. apply GridProtocol_decode_append. vm_compute. reflexivity. Defined.

(** ** The grid receive loop *)

Module GridChannelFacts.
Import GridChannel.

Lemma checkerboard_marker : GridAnalyzer.isCheckerboard createCheckerboardPattern = true.
Proof. vm_compute. reflexivity. Qed.

Definition progress_only (ev : list Event) : Prop :=
  Forall (fun e => exists p, e = StatusChange (StReceiving p None)) ev.

Definition grid_bytes (fs : list GridProtocol.frame) : Prop :=
  Forall (fun f => is_byte (fst f) /\ is_byte (snd f)) fs.

Definition no_marker (fs : list GridProtocol.frame) : bool :=
  forallb (fun f => negb (GridAnalyzer.isCheckerboard (GridProtocol.frameToCells f))) fs.

(** Receiving the frames [fs] and then the end marker, one per frame
    interval, while in the bits state. *)
Lemma bits_frames_run (acc fs : list GridProtocol.frame) (g t : Z) :
  grid_bytes fs -> no_marker fs = true ->
  (length acc + length fs <= 200)%nat ->
  exists ev0,
    progress_only ev0 /\
    run {| state := Bits; frames := acc; gapStartTime := g; lastFrameTime := t |} (grid_ticks t fs)
    = (fst (tryDecode {| state := Bits; frames := acc ++ fs; gapStartTime := g;
                         lastFrameTime := t + GRID_FRAME_MS * Z.of_nat (length fs) |}),
       ev0 ++ snd (tryDecode {| state := Bits; frames := acc ++ fs; gapStartTime := g;
                                lastFrameTime := t + GRID_FRAME_MS * Z.of_nat (length fs) |})).
Proof.
  revert acc t. induction fs as [|[hi lo] fs IH]; intros acc t Hb Hm Hlen.
  - exists []. split; [constructor|].
    cbn [grid_ticks run processFrame state]. unfold handleBitsState.
    cbn [lastFrameTime cells].
    rewrite (proj2 (Z.leb_le _ _)) by (unfold GRID_FRAME_MS; lia).
    rewrite checkerboard_marker, app_nil_r. cbn [length].
    replace (t + GRID_FRAME_MS * Z.of_nat 0) with t by lia.
    destruct (tryDecode _) as [r1 ev1]. cbn. rewrite app_nil_r. reflexivity.
  - inversion Hb as [|? ? [Hh Hl] Hb']; subst. cbn [no_marker forallb] in Hm.
    apply andb_true_iff in Hm as [Hc Hm]. apply negb_true_iff in Hc.
    cbn [length] in Hlen.
    destruct (IH (acc ++ [(hi, lo)]) (t + GRID_FRAME_MS) Hb' Hm
                ltac:(rewrite length_app; cbn [length]; lia)) as [ev0 [Hev Hrun]].
    cbn [grid_ticks run processFrame state]. unfold handleBitsState.
    cbn [lastFrameTime cells frames state gapStartTime].
    rewrite (proj2 (Z.leb_le _ _)) by (unfold GRID_FRAME_MS; lia).
    rewrite Hc, frame_cells_mod.
    cbn [fst snd] in Hh, Hl. rewrite !Z.mod_small by (unfold is_byte in *; lia).
    rewrite (proj2 (Nat.ltb_ge _ _)) by (rewrite length_app; cbn [length]; lia).
    cbn [length frames].
    unfold GridProtocol.frame in *. rewrite Hrun.
    replace ((acc ++ [(hi, lo)]) ++ fs) with (acc ++ (hi, lo) :: fs) by (rewrite <- app_assoc; reflexivity).
    replace (t + GRID_FRAME_MS + GRID_FRAME_MS * Z.of_nat (length fs))
      with (t + GRID_FRAME_MS * Z.of_nat (length ((hi, lo) :: fs))) by (cbn [length]; lia).
    exists (StatusChange (StReceiving (Qmin 1 (inject_Z (Z.of_nat (length (acc ++ [(hi, lo)])))
                                               / inject_Z 10)) None) :: ev0).
    split; [constructor; [eexists; reflexivity | exact Hev]|].
    reflexivity.
Qed.

End GridChannelFacts.

(** X13: a message sent by [GridChannel.send] (frames, one per frame
    interval, then the checkerboard) is delivered: from the bits state the
    receiver reports only progress, then success and the message, and goes
    back to idle with no frames; this needs a message of 1..200 UTF-8 bytes
    that does not begin with U+FEFF, and no data frame that the end-marker
    test takes for the checkerboard. *)
Theorem GridChannel_receives_message (m : text) (frames : list GridProtocol.frame) (g t0 : Z) :
  forallb is_scalar m = true ->
  1 <= Protocol.getByteLength m <= 200 ->
  hd_error m <> Some 0xFEFF ->
  GridProtocol.encode m = Ok frames ->
  forallb (fun f => negb (GridAnalyzer.isCheckerboard (GridProtocol.frameToCells f))) frames = true ->
  exists ev0 r',
    GridChannel.run {| GridChannel.state := Bits; GridChannel.frames := [];
                       GridChannel.gapStartTime := g; GridChannel.lastFrameTime := t0 |}
                    (grid_ticks t0 frames)
    = (r', ev0 ++ [StatusChange StSuccess; OnMessage m; StatusChange StIdle]) /\
    GridChannel.state r' = Idle /\ GridChannel.frames r' = [] /\
    Forall (fun e => exists p, e = StatusChange (StReceiving p None)) ev0.
Proof.
  intros Hs Hlen Hbom He Hm.
  pose proof (encode_frames_spec m Hs) as Hspec. cbv zeta in Hspec. rewrite He in Hspec.
  destruct Hspec as [Hn [_ [Hfl Hfb]]].
  destruct (Grid_roundtrip_no_bom m Hs Hlen Hbom) as [frames' [He' Hd]].
  rewrite He in He'. injection He' as <-.
  destruct (GridChannelFacts.bits_frames_run [] frames g t0 Hfb Hm
              ltac:(cbn [length]; rewrite Hfl; apply (Nat.le_trans _ ((200 + 3) / 2)%nat);
                    [apply Nat.Div0.div_le_mono; lia | cbv; lia])) as [ev0 [Hev Hrun]].
  rewrite Hrun. unfold GridChannel.tryDecode. cbn [app GridChannel.frames]. rewrite Hd.
  cbn. exists ev0. eexists. split; [reflexivity|]. split; [reflexivity|]. split; [reflexivity|].
  exact Hev.
Qed.

Lemma GridChannel_receives_message_witness :
  exists ev0 r',
    GridChannel.run {| GridChannel.state := Bits; GridChannel.frames := [];
                       GridChannel.gapStartTime := 0; GridChannel.lastFrameTime := 1000 |}
                    (grid_ticks 1000 [(4, 84); (101, 115); (116, 54)])
    = (r', ev0 ++ [StatusChange StSuccess; OnMessage test_text; StatusChange StIdle]) /\
    GridChannel.state r' = Idle /\ GridChannel.frames r' = [] /\
    Forall (fun e => exists p, e = StatusChange (StReceiving p None)) ev0.
Proof.
  apply (GridChannel_receives_message test_text [(4, 84); (101, 115); (116, 54)] 0 1000).
  - reflexivity.
  - vm_compute. split; discriminate.
  - vm_compute. discriminate.
  - vm_compute. reflexivity.
  - vm_compute. reflexivity.
Defined.

(** ** Receiver invariants *)

(** The next phase of a receive session. *)
Module Phases.

Definition next_phase (s : ReceiverState) : ReceiverState :=
  match s with Idle => Pilot | Pilot => Gap | Gap => Bits | Bits => Idle end.

(** Every progress value in an event list lies in [0, 1]. *)
Definition progress_in_range (ev : list Event) : Prop :=
  Forall (fun e => match e with
                   | StatusChange (StReceiving p _) => (0 <= p <= 1)%Q
                   | _ => True
                   end) ev.

Lemma progress_app (e1 e2 : list Event) :
  progress_in_range e1 -> progress_in_range e2 -> progress_in_range (e1 ++ e2).
Proof. intros H1 H2. apply Forall_app. split; assumption. Qed.

Lemma progress_fixed (ev : list Event) :
  Forall (fun e => match e with StatusChange (StReceiving _ _) => False | _ => True end) ev ->
  progress_in_range ev.
Proof.
  intros H. unfold progress_in_range. eapply Forall_impl; [|exact H].
  intros [[]| |]; cbn; tauto.
Qed.

Lemma Qmin_progress (n : nat) (d : Z) :
  0 < d -> (0 <= Qmin 1 (inject_Z (Z.of_nat n) / inject_Z d) <= 1)%Q.
Proof.
  intros Hd. split.
  - apply Q.min_glb; [discriminate|].
    apply Qle_shift_div_l; [unfold Qlt; cbn; lia|].
    rewrite Qmult_0_l. unfold Qle; cbn; lia.
  - apply Q.le_min_l.
Qed.

Lemma progress_zero : (0 <= 0 <= 1)%Q.
Proof. split; discriminate. Qed.

End Phases.

Module BitRunFacts.
Import BitReceiver Phases.

(** One tick in the bits state, with the progress event spelled out. *)
Lemma bits_tick_bit (cfg : Config) (r : Receiver) (now : Z) (smp : Sample) (b : Z) :
  state r = Bits -> bitInterval cfg <= now - lastBitTime r -> detectBit smp = Some b ->
  exists pt,
    let bs := bits r ++ [b] in
    let r1 := {| state := state r; bits := bs; gapStartTime := gapStartTime r;
                 lastBitTime := now; running := running r |} in
    let ev1 := [StatusChange (StReceiving (Qmin 1 (inject_Z (Z.of_nat (length bs)) / inject_Z (24 + 8))) pt)] in
    processFrame cfg r now smp =
      match (if (24 <=? length bs)%nat then Protocol.decode bs else None) with
      | Some m => (reset r1, ev1 ++ [StatusChange StSuccess; OnMessage m; StatusChange StIdle])
      | None =>
        if Z.of_nat (length bs) >? MAX_BITS_TIMEOUT
        then (reset r1, ev1 ++ [StatusChange (StError Messages.timeout);
                                OnError ErrTimeout Messages.timeout_long;
                                StatusChange StIdle])
        else (r1, ev1)
      end.
Proof.
  intros Hs Hel Hb.
  assert (E : processFrame cfg r now smp = handleBitsState cfg r now smp)
    by (unfold processFrame; rewrite Hs; reflexivity).
  rewrite E. unfold handleBitsState.
  rewrite (proj2 (Z.leb_le _ _) Hel), Hb.
  eexists. cbv zeta. unfold tryDecode. cbn [bits].
  destruct (24 <=? length (bits r ++ [b]))%nat; [destruct (Protocol.decode (bits r ++ [b])) as [m|]|];
    cbn [bits].
  - reflexivity.
  - destruct (Z.of_nat (length (bits r ++ [b])) >? MAX_BITS_TIMEOUT); [reflexivity|].
    rewrite !app_nil_r. reflexivity.
  - destruct (Z.of_nat (length (bits r ++ [b])) >? MAX_BITS_TIMEOUT); [reflexivity|].
    rewrite !app_nil_r. reflexivity.
Qed.

Lemma bits_tick (cfg : Config) (r : Receiver) (now : Z) (smp : Sample) :
  state r = Bits ->
  processFrame cfg r now smp = (r, []) \/
  exists b pt,
    bitInterval cfg <= now - lastBitTime r /\ detectBit smp = Some b /\
    let bs := bits r ++ [b] in
    let r1 := {| state := state r; bits := bs; gapStartTime := gapStartTime r;
                 lastBitTime := now; running := running r |} in
    let ev1 := [StatusChange (StReceiving (Qmin 1 (inject_Z (Z.of_nat (length bs)) / inject_Z (24 + 8))) pt)] in
    processFrame cfg r now smp =
      match (if (24 <=? length bs)%nat then Protocol.decode bs else None) with
      | Some m => (reset r1, ev1 ++ [StatusChange StSuccess; OnMessage m; StatusChange StIdle])
      | None =>
        if Z.of_nat (length bs) >? MAX_BITS_TIMEOUT
        then (reset r1, ev1 ++ [StatusChange (StError Messages.timeout);
                                OnError ErrTimeout Messages.timeout_long;
                                StatusChange StIdle])
        else (r1, ev1)
      end.
Proof.
  intros Hs. destruct (Z.leb_spec (bitInterval cfg) (now - lastBitTime r)) as [Hel|Hlt].
  - destruct (detectBit smp) as [b|] eqn:Hb.
    + right. destruct (bits_tick_bit cfg r now smp b Hs Hel Hb) as [pt Ept].
      exists b, pt. split; [exact Hel|]. split; [reflexivity | exact Ept].
    + left. unfold processFrame. rewrite Hs. unfold handleBitsState.
      rewrite (proj2 (Z.leb_le _ _) Hel), Hb. reflexivity.
  - left. unfold processFrame. rewrite Hs. unfold handleBitsState.
    rewrite (proj2 (Z.leb_gt _ _) Hlt). reflexivity.
Qed.

Definition bits_inv (r : Receiver) : Prop :=
  (state r <> Bits -> bits r = []) /\ (length (bits r) <= 2000)%nat.

Lemma processFrame_facts (cfg : Config) (r : Receiver) (now : Z) (smp : Sample) :
  let '(r', ev) := processFrame cfg r now smp in
  (bits_inv r -> bits_inv r') /\ progress_in_range ev /\
  (state r' = state r \/ state r' = next_phase (state r)) /\ running r' = running r.
Proof.
  destruct (state r) eqn:Hs.
  - unfold processFrame. rewrite Hs. unfold handleIdleState.
    destruct (detectPilot smp); cbn.
    + split; [intros [H1 H2]; split; [intros _; apply H1; congruence | exact H2]|].
      split; [repeat constructor|]. split; [right; reflexivity | reflexivity].
    + split; [tauto|]. split; [constructor|]. split; [left; first [reflexivity | assumption] | reflexivity].
  - unfold processFrame. rewrite Hs. unfold handlePilotState.
    destruct (detectPilot smp); cbn.
    + split; [tauto|]. split; [constructor|]. split; [left; first [reflexivity | assumption] | reflexivity].
    + split; [intros [H1 H2]; split; [intros _; apply H1; congruence | exact H2]|].
      split; [repeat constructor|]. split; [right; reflexivity | reflexivity].
  - unfold processFrame. rewrite Hs. unfold handleGapState.
    destruct (_ <=? _); cbn.
    + split; [intros _; split; [reflexivity | cbn; lia]|].
      split; [constructor; [exact progress_zero | constructor]|].
      split; [right; reflexivity | reflexivity].
    + split; [tauto|]. split; [constructor|]. split; [left; first [reflexivity | assumption] | reflexivity].
  - destruct (bits_tick cfg r now smp Hs) as [E | [b [pt [Hel [Hb E]]]]]; rewrite E.
    + split; [tauto|]. split; [constructor|]. split; [left; first [reflexivity | assumption] | reflexivity].
    + cbv zeta in E |- *.
      set (bs := bits r ++ [b]) in *.
      assert (Hp : progress_in_range
                     [StatusChange (StReceiving (Qmin 1 (inject_Z (Z.of_nat (length bs)) / inject_Z (24 + 8))) pt)])
        by (constructor; [apply Qmin_progress; lia | constructor]).
      destruct (if (24 <=? length bs)%nat then Protocol.decode bs else None) as [m|].
      * split; [intros _; split; [reflexivity | cbn; lia]|].
        split; [apply progress_app; [exact Hp | apply progress_fixed; repeat constructor]|].
        split; [right; reflexivity | reflexivity].
      * destruct (Z.of_nat (length bs) >? MAX_BITS_TIMEOUT) eqn:Et.
        -- split; [intros _; split; [reflexivity | cbn; lia]|].
           split; [apply progress_app; [exact Hp | apply progress_fixed; repeat constructor]|].
           split; [right; reflexivity | reflexivity].
        -- unfold MAX_BITS_TIMEOUT in Et. rewrite Z.gtb_ltb in Et. apply Z.ltb_ge in Et.
           split; [intros _; split; [cbn; rewrite Hs; congruence | cbn; lia]|].
           split; [exact Hp|]. split; [left; cbn; exact Hs | reflexivity].
Qed.

Lemma poll_facts (cfg : Config) (r : Receiver) (now : Z) (smp : Sample) :
  let '(r', ev) := poll cfg r now smp in
  (bits_inv r -> bits_inv r') /\ progress_in_range ev /\
  (state r' = state r \/ state r' = next_phase (state r)) /\ running r' = running r.
Proof.
  unfold poll. destruct (running r) eqn:Hr; cbn [negb].
  - pose proof (processFrame_facts cfg r now smp) as H.
    destruct (processFrame cfg r now smp) as [r' ev]. rewrite Hr in H. exact H.
  - split; [tauto|]. split; [constructor|]. split; [left; first [reflexivity | assumption] | exact Hr].
Qed.

Lemma run_facts (cfg : Config) (r : Receiver) (ticks : list (Z * Sample)) :
  let '(r', ev) := run cfg r ticks in
  (bits_inv r -> bits_inv r') /\ progress_in_range ev /\ running r' = running r.
Proof.
  revert r. induction ticks as [|[now smp] ts IH]; intros r; cbn [run].
  - split; [tauto|]. split; [constructor | reflexivity].
  - pose proof (poll_facts cfg r now smp) as Hp.
    destruct (poll cfg r now smp) as [r1 ev1].
    specialize (IH r1). destruct (run cfg r1 ts) as [r2 ev2].
    destruct Hp as [Hi1 [Hp1 [_ Hr1]]]. destruct IH as [Hi2 [Hp2 Hr2]].
    split; [tauto|]. split; [apply progress_app; assumption | congruence].
Qed.

Lemma stopped_run (cfg : Config) (r : Receiver) (ticks : list (Z * Sample)) :
  running r = false -> run cfg r ticks = (r, []).
Proof.
  intros Hr. induction ticks as [|[now smp] ts IH]; [reflexivity|].
  cbn [run]. unfold poll. rewrite Hr. cbn [negb]. rewrite IH. reflexivity.
Qed.

Lemma start_facts (cfg : Config) (r : Receiver) (now : Z) (smp : Sample) :
  running r = false ->
  let '(r', ev) := start cfg r now smp in
  running r' = true /\ bits r' = [] /\ (state r' = Idle \/ state r' = Pilot) /\
  hd_error ev = Some (StatusChange StIdle) /\ bits_inv r' /\ progress_in_range ev.
Proof.
  intros Hr. unfold start. rewrite Hr.
  set (r1 := reset _).
  pose proof (poll_facts cfg r1 now smp) as Hp.
  destruct (poll cfg r1 now smp) as [r2 ev] eqn:E.
  destruct Hp as [Hi [Hpr [Hst Hrun]]].
  assert (Hi1 : bits_inv r1) by (split; [reflexivity | cbn; lia]).
  specialize (Hi Hi1).
  assert (Hb : bits r2 = []).
  { unfold poll in E. cbn [r1 running reset negb] in E. unfold processFrame in E.
    cbn [r1 state reset] in E. unfold handleIdleState in E.
    destruct (detectPilot smp); injection E as <- _; reflexivity. }
  split; [rewrite Hrun; reflexivity|]. split; [exact Hb|].
  split; [destruct Hst as [-> | ->]; [left | right]; reflexivity|].
  split; [reflexivity|]. split; [exact Hi|].
  constructor; [exact I | exact Hpr].
Qed.

End BitRunFacts.

Module GridRunFacts.
Import GridChannel Phases.

Definition grid_inv (r : Receiver) : Prop :=
  (length (frames r) <= 200)%nat /\ (state r <> Bits -> frames r = []) /\
  Forall (fun f => is_byte (fst f) /\ is_byte (snd f)) (frames r).

Lemma tryDecode_facts (r : Receiver) :
  let '(r', ev) := tryDecode r in
  state r' = Idle /\ frames r' = [] /\
  Forall (fun e => match e with StatusChange (StReceiving _ _) => False | _ => True end) ev.
Proof.
  unfold tryDecode, resetState. destruct (GridProtocol.decode (frames r)); cbn;
    repeat split; repeat constructor.
Qed.

Lemma grid_processFrame_facts (r : Receiver) (now : Z) (smp : Sample) :
  let '(r', ev) := processFrame r now smp in
  (grid_inv r -> grid_inv r') /\ progress_in_range ev /\
  (state r' = state r \/ state r' = next_phase (state r)).
Proof.
  destruct (state r) eqn:Hs; unfold processFrame; rewrite Hs.
  - unfold handleIdleState. destruct (isAllWhite smp); cbn.
    + split; [intros [H1 [H2 H3]]; repeat split; try assumption; intros _; apply H2; congruence|].
      split; [repeat constructor | right; reflexivity].
    + split; [tauto|]. split; [constructor | left; first [reflexivity | assumption]].
  - unfold handlePilotState. destruct (isAllWhite smp); cbn.
    + split; [tauto|]. split; [constructor | left; first [reflexivity | assumption]].
    + split; [intros [H1 [H2 H3]]; repeat split; try assumption; intros _; apply H2; congruence|].
      split; [repeat constructor | right; reflexivity].
  - unfold handleGapState. destruct (_ <=? _); cbn.
    + split; [intros _; unfold grid_inv; cbn; split; [lia | split; [reflexivity | constructor]]|].
      split; [constructor; [exact progress_zero | constructor] | right; reflexivity].
    + split; [tauto|]. split; [constructor | left; first [reflexivity | assumption]].
  - unfold handleBitsState. destruct (GRID_FRAME_MS <=? now - lastFrameTime r);
      [|split; [tauto|]; split; [constructor | left; first [reflexivity | assumption]]].
    destruct (GridAnalyzer.isCheckerboard (cells smp)).
    + pose proof (tryDecode_facts r) as Ht. destruct (tryDecode r) as [r' ev].
      destruct Ht as [H1 [H2 H3]].
      split; [intros _; unfold grid_inv; rewrite H2; split; [cbn; lia | split; [reflexivity | constructor]]|].
      split; [apply progress_fixed; exact H3 | right; rewrite H1; reflexivity].
    + cbv zeta. cbn [frames].
      set (fr := frames r ++ [GridProtocol.cellsToFrame (cells smp)]).
      assert (Hp : progress_in_range
                [StatusChange (StReceiving (Qmin 1 (inject_Z (Z.of_nat (length fr)) / inject_Z 10)) None)])
        by (constructor; [apply Qmin_progress; lia | constructor]).
      destruct (200 <? length fr)%nat eqn:El.
      * unfold resetState. cbv beta iota.
        split; [intros _; unfold grid_inv; cbn; split; [lia | split; [reflexivity | constructor]]|].
        split; [apply progress_app; [exact Hp | apply progress_fixed; repeat constructor]|].
        right; reflexivity.
      * apply Nat.ltb_ge in El. split; [|split; [exact Hp | left; first [reflexivity | assumption]]].
        intros [_ [_ H3]]. cbn [frames state]. split; [exact El|]. split; [intros Hn; contradiction (Hn Hs)|].
        unfold fr. apply Forall_app. split; [exact H3|]. constructor; [|constructor].
        destruct (cellsToFrame_reads (cells smp)) as [Hh [Hl _]]. split; assumption.
Qed.

Lemma grid_run_facts (r : Receiver) (ticks : list (Z * Sample)) :
  let '(r', ev) := run r ticks in
  (grid_inv r -> grid_inv r') /\ progress_in_range ev.
Proof.
  revert r. induction ticks as [|[now smp] ts IH]; intros r; cbn [run].
  - split; [tauto | constructor].
  - pose proof (grid_processFrame_facts r now smp) as Hp.
    destruct (processFrame r now smp) as [r1 ev1].
    specialize (IH r1). destruct (run r1 ts) as [r2 ev2].
    destruct Hp as [Hi1 [Hp1 _]]. destruct IH as [Hi2 Hp2].
    split; [tauto | apply progress_app; assumption].
Qed.

End GridRunFacts.

(** ** Receiving a whole message *)

Module SessionFacts.

Lemma encode_decode_some (m : text) (bits : list Z) :
  forallb is_scalar m = true -> 1 <= Protocol.getByteLength m <= 200 ->
  hd_error m <> Some 0xFEFF -> Protocol.encode m = Ok bits -> Protocol.decode bits = Some m.
Proof.
  intros Hs Hlen Hbom He. unfold Protocol.getByteLength in Hlen.
  destruct (ProtocolFacts.encoded_bytes m Hs) as [Hb Hc].
  unfold Protocol.encode, MAX_MESSAGE_BYTES in He. rewrite Z.gtb_ltb in He.
  rewrite (proj2 (Z.ltb_ge _ _)) in He by lia. injection He as <-.
  rewrite (ProtocolFacts.decode_frame _ 8 (text_encoder_encode m)
             (Protocol.calculateChecksum (text_encoder_encode m)) []).
  - rewrite Z.eqb_refl. apply text_decoder_decode_roundtrip; assumption.
  - exact (ProtocolFacts.findStartMarker_frame [] _ eq_refl).
  - rewrite app_nil_r. reflexivity.
  - exact Hb.
  - exact Hc.
  - lia.
Qed.

Section BitSession.
Import BitReceiver.

Variable cfg : Config.
Variable m : text.
Variable bits0 : list Z.
Variable g : Z.
Hypothesis Henc : Protocol.encode m = Ok bits0.
Hypothesis Hdec : Protocol.decode bits0 = Some m.

Lemma bits_session (rest acc : list Z) (t : Z) :
  acc ++ rest = bits0 -> rest <> [] ->
  exists ev0,
    Forall (fun e => exists p pt, e = StatusChange (StReceiving p pt)) ev0 /\
    run cfg {| state := Bits; bits := acc; gapStartTime := g; lastBitTime := t; running := true |}
        (bit_ticks (bitInterval cfg) t rest)
    = ({| state := Idle; bits := []; gapStartTime := 0; lastBitTime := 0; running := true |},
       ev0 ++ [StatusChange StSuccess; OnMessage m; StatusChange StIdle]).
Proof.
  pose proof (CodecFacts.encode_length m bits0 Henc) as Hlen0.
  pose proof (proj1 (ProtocolFacts.encode_ok m bits0 Henc)) as Hn.
  revert acc t. induction rest as [|b rest IH]; intros acc t Hacc Hne; [congruence|].
  cbn [bit_ticks run]. unfold poll. cbn [running negb].
  destruct (BitRunFacts.bits_tick_bit cfg
              {| state := Bits; bits := acc; gapStartTime := g; lastBitTime := t; running := true |}
              (t + bitInterval cfg)
              {| detectPilot := false; detectBit := Some b |} b eq_refl
              ltac:(cbn; lia) eq_refl) as [pt Ept].
  cbv zeta in Ept. cbn [bits state gapStartTime running] in Ept. rewrite Ept.
  assert (Hl : length bits0 = (length acc + S (length rest))%nat)
    by (rewrite <- Hacc, length_app; reflexivity).
  destruct rest as [|b' rest'].
  - assert (Eb : acc ++ [b] = bits0) by exact Hacc.
    rewrite Eb, (proj2 (Nat.leb_le 24 (length bits0))) by lia. rewrite Hdec.
    cbn [bit_ticks run]. rewrite app_nil_r.
    eexists. split; [|reflexivity]. constructor; [do 2 eexists; reflexivity | constructor].
  - assert (Hpre : Protocol.decode (acc ++ [b]) = None).
    { assert (Ef : firstn (length (acc ++ [b])) bits0 = acc ++ [b]).
      { rewrite <- Hacc.
        replace (acc ++ b :: b' :: rest') with ((acc ++ [b]) ++ b' :: rest')
          by (rewrite <- app_assoc; reflexivity).
        rewrite firstn_app, Nat.sub_diag, firstn_O, app_nil_r. apply firstn_all. }
      rewrite <- Ef. apply (CodecFacts.decode_firstn_encode m bits0 _ Henc).
      rewrite length_app. cbn [length] in Hl |- *. lia. }
    replace (if (24 <=? length (acc ++ [b]))%nat then Protocol.decode (acc ++ [b]) else None)
      with (@None text) by (destruct (24 <=? _)%nat; [symmetry; exact Hpre | reflexivity]).
    unfold MAX_BITS_TIMEOUT. rewrite Z.gtb_ltb.
    rewrite (proj2 (Z.ltb_ge _ _)) by (rewrite length_app; cbn [length] in Hl |- *; lia).
    destruct (IH (acc ++ [b]) (t + bitInterval cfg)
                ltac:(rewrite <- app_assoc; exact Hacc) ltac:(discriminate)) as [ev0 [Hev Hrun]].
    rewrite Hrun.
    exists (StatusChange (StReceiving (Qmin 1 (inject_Z (Z.of_nat (length (acc ++ [b]))) / inject_Z (24 + 8))) pt)
            :: ev0).
    split; [constructor; [do 2 eexists; reflexivity | exact Hev] | reflexivity].
Qed.

End BitSession.

Lemma fold_addBit (l acc : list Z) (s : ReceiverState) :
  fold_left ManualBitReceiver.addBit l {| ManualBitReceiver.state := s; ManualBitReceiver.bits := acc |}
  = {| ManualBitReceiver.state := s; ManualBitReceiver.bits := acc ++ l |}.
Proof.
  revert acc. induction l as [|b l IH]; intros acc; cbn [fold_left].
  - rewrite app_nil_r. reflexivity.
  - unfold ManualBitReceiver.addBit at 2. cbn [ManualBitReceiver.state ManualBitReceiver.bits].
    rewrite IH, <- app_assoc. reflexivity.
Qed.

End SessionFacts.

(** X14: a frame list received by the grid channel never holds more than 200
    frames, each a pair of bytes, and it is empty outside the bits state;
    this holds after any sequence of camera ticks. *)
Theorem GridChannel_frames_bounded (r : GridChannel.Receiver) (ticks : list (Z * GridChannel.Sample)) :
  (length (GridChannel.frames r) <= 200)%nat ->
  (GridChannel.state r <> Bits -> GridChannel.frames r = []) ->
  Forall (fun f => is_byte (fst f) /\ is_byte (snd f)) (GridChannel.frames r) ->
  let r' := fst (GridChannel.run r ticks) in
  (length (GridChannel.frames r') <= 200)%nat /\
  (GridChannel.state r' <> Bits -> GridChannel.frames r' = []) /\
  Forall (fun f => is_byte (fst f) /\ is_byte (snd f)) (GridChannel.frames r').
Proof.
  intros H1 H2 H3. pose proof (GridRunFacts.grid_run_facts r ticks) as H.
  destruct (GridChannel.run r ticks) as [r' ev]. exact (proj1 H (conj H1 (conj H2 H3))).
Qed.

Lemma GridChannel_frames_bounded_witness :
  let r' := fst (GridChannel.run
                   {| GridChannel.state := Bits; GridChannel.frames := [];
                      GridChannel.gapStartTime := 0; GridChannel.lastFrameTime := 0 |}
                   (grid_ticks 0 [(300, -1); (4, 84)])) in
  (length (GridChannel.frames r') <= 200)%nat /\
  (GridChannel.state r' <> Bits -> GridChannel.frames r' = []) /\
  Forall (fun f => is_byte (fst f) /\ is_byte (snd f)) (GridChannel.frames r').
Proof.
  apply GridChannel_frames_bounded; cbn; [lia | intros H; contradiction H; reflexivity | constructor].
Defined.

(** X15: the bit buffer of a [BitReceiver] never exceeds 2000 bits and is
    empty outside the bits state, after any sequence of animation frames
    and after [start]; [stop] always leaves it empty. *)
Theorem BitReceiver_bits_bounded (cfg : BitReceiver.Config) (r : BitReceiver.Receiver)
  (ticks : list (Z * BitReceiver.Sample)) (now : Z) (smp : BitReceiver.Sample) :
  (BitReceiver.state r <> Bits -> BitReceiver.bits r = []) ->
  (length (BitReceiver.bits r) <= 2000)%nat ->
  let r1 := fst (BitReceiver.run cfg r ticks) in
  let r2 := fst (BitReceiver.start cfg r now smp) in
  ((BitReceiver.state r1 <> Bits -> BitReceiver.bits r1 = []) /\ (length (BitReceiver.bits r1) <= 2000)%nat) /\
  ((BitReceiver.state r2 <> Bits -> BitReceiver.bits r2 = []) /\ (length (BitReceiver.bits r2) <= 2000)%nat) /\
  BitReceiver.bits (BitReceiver.stop r) = [].
Proof.
  intros H1 H2. split; [|split; [|reflexivity]].
  - pose proof (BitRunFacts.run_facts cfg r ticks) as H.
    destruct (BitReceiver.run cfg r ticks) as [r' ev]. exact (proj1 H (conj H1 H2)).
  - destruct (BitReceiver.running r) eqn:Hr.
    + unfold BitReceiver.start. rewrite Hr. split; assumption.
    + pose proof (BitRunFacts.start_facts cfg r now smp Hr) as H.
      destruct (BitReceiver.start cfg r now smp) as [r' ev]. apply H.
Qed.

Lemma BitReceiver_bits_bounded_witness :
  let cfg := {| BitReceiver.bitMs := 100; BitReceiver.guardMs := 20; BitReceiver.gapMs := 200 |} in
  let r := {| BitReceiver.state := Bits; BitReceiver.bits := []; BitReceiver.gapStartTime := 0;
              BitReceiver.lastBitTime := 0; BitReceiver.running := true |} in
  let smp := {| BitReceiver.detectPilot := true; BitReceiver.detectBit := None |} in
  let r1 := fst (BitReceiver.run cfg r (bit_ticks 120 0 (alternating 30))) in
  let r2 := fst (BitReceiver.start cfg r 0 smp) in
  ((BitReceiver.state r1 <> Bits -> BitReceiver.bits r1 = []) /\ (length (BitReceiver.bits r1) <= 2000)%nat) /\
  ((BitReceiver.state r2 <> Bits -> BitReceiver.bits r2 = []) /\ (length (BitReceiver.bits r2) <= 2000)%nat) /\
  BitReceiver.bits (BitReceiver.stop r) = [].
Proof.
  apply BitReceiver_bits_bounded; cbn; [intros H; contradiction H; reflexivity | lia].
Defined.

(** X16: every progress value that either receiver reports lies between 0
    and 1, over any sequence of ticks (and, for the [BitReceiver], also in
    the first frame run by [start]). *)
Theorem Receivers_progress_range :
  (forall cfg r ticks, Phases.progress_in_range (snd (BitReceiver.run cfg r ticks))) /\
  (forall cfg r now smp, Phases.progress_in_range (snd (BitReceiver.start cfg r now smp))) /\
  (forall r ticks, Phases.progress_in_range (snd (GridChannel.run r ticks))).
Proof.
  split; [|split].
  - intros cfg r ticks. pose proof (BitRunFacts.run_facts cfg r ticks) as H.
    destruct (BitReceiver.run cfg r ticks). apply H.
  - intros cfg r now smp. destruct (BitReceiver.running r) eqn:Hr.
    + unfold BitReceiver.start. rewrite Hr. constructor.
    + pose proof (BitRunFacts.start_facts cfg r now smp Hr) as H.
      destruct (BitReceiver.start cfg r now smp). apply H.
  - intros r ticks. pose proof (GridRunFacts.grid_run_facts r ticks) as H.
    destruct (GridChannel.run r ticks). apply H.
Qed.

(** X17: each tick moves a receiver at most one phase along the session
    cycle idle, pilot, gap, bits, idle: no phase is skipped and no session
    goes back to an earlier phase except by returning to idle from bits. *)
Theorem Receivers_phase_order :
  (forall cfg r now smp,
     let s' := BitReceiver.state (fst (BitReceiver.poll cfg r now smp)) in
     s' = BitReceiver.state r \/ s' = Phases.next_phase (BitReceiver.state r)) /\
  (forall r now smp,
     let s' := GridChannel.state (fst (GridChannel.processFrame r now smp)) in
     s' = GridChannel.state r \/ s' = Phases.next_phase (GridChannel.state r)).
Proof.
  split.
  - intros cfg r now smp. pose proof (BitRunFacts.poll_facts cfg r now smp) as H.
    destruct (BitReceiver.poll cfg r now smp). apply H.
  - intros r now smp. pose proof (GridRunFacts.grid_processFrame_facts r now smp) as H.
    destruct (GridChannel.processFrame r now smp). apply H.
Qed.

(** X18: the start/stop life cycle of a [BitReceiver]: a stopped receiver
    ignores every animation frame; ticks never change whether it runs;
    [stop] leaves it stopped, idle and empty; [start] on a running receiver
    does nothing; [start] on a stopped one makes it run with an empty
    buffer, in idle (or pilot, if the first frame already shows the pilot),
    and reports idle first. *)
Theorem BitReceiver_lifecycle :
  (forall cfg r ticks, BitReceiver.running r = false -> BitReceiver.run cfg r ticks = (r, [])) /\
  (forall cfg r ticks, BitReceiver.running (fst (BitReceiver.run cfg r ticks)) = BitReceiver.running r) /\
  (forall r, BitReceiver.running (BitReceiver.stop r) = false /\
             BitReceiver.state (BitReceiver.stop r) = Idle /\ BitReceiver.bits (BitReceiver.stop r) = []) /\
  (forall cfg r now smp, BitReceiver.running r = true -> BitReceiver.start cfg r now smp = (r, [])) /\
  (forall cfg r now smp, BitReceiver.running r = false ->
     let '(r', ev) := BitReceiver.start cfg r now smp in
     BitReceiver.running r' = true /\ BitReceiver.bits r' = [] /\
     (BitReceiver.state r' = Idle \/ BitReceiver.state r' = Pilot) /\
     hd_error ev = Some (StatusChange StIdle)).
Proof.
  split; [exact BitRunFacts.stopped_run|].
  split; [intros cfg r ticks; pose proof (BitRunFacts.run_facts cfg r ticks) as H;
          destruct (BitReceiver.run cfg r ticks); apply H|].
  split; [intros r; repeat split|].
  split; [intros cfg r now smp Hr; unfold BitReceiver.start; rewrite Hr; reflexivity|].
  intros cfg r now smp Hr. pose proof (BitRunFacts.start_facts cfg r now smp Hr) as H.
  destruct (BitReceiver.start cfg r now smp). tauto.
Qed.

Lemma BitReceiver_lifecycle_witness :
  let cfg := {| BitReceiver.bitMs := 100; BitReceiver.guardMs := 20; BitReceiver.gapMs := 200 |} in
  let r := {| BitReceiver.state := Bits; BitReceiver.bits := [1; 0]; BitReceiver.gapStartTime := 0;
              BitReceiver.lastBitTime := 0; BitReceiver.running := false |} in
  let smp := {| BitReceiver.detectPilot := true; BitReceiver.detectBit := None |} in
  BitReceiver.run cfg r (bit_ticks 120 0 [1; 1]) = (r, []) /\
  (let '(r', ev) := BitReceiver.start cfg r 0 smp in
   BitReceiver.running r' = true /\ BitReceiver.bits r' = [] /\
   (BitReceiver.state r' = Idle \/ BitReceiver.state r' = Pilot) /\
   hd_error ev = Some (StatusChange StIdle)).
Proof.
  cbv zeta. split.
  - apply (proj1 BitReceiver_lifecycle). reflexivity.
  - apply (proj2 (proj2 (proj2 (proj2 BitReceiver_lifecycle)))). reflexivity.
Defined.

(** X19: a [BitReceiver] in the bits state that is shown the bits of
    [Protocol.encode m], one per bit interval, delivers m exactly once, at
    the last bit: before it, it only reports progress (no proper prefix of an
    encoding decodes, and the buffer never reaches the 2000-bit timeout);
    then it reports success, the message and idle, and is idle, empty and
    still running.  This needs a message of 1..200 UTF-8 bytes that does not
    begin with U+FEFF. *)
Theorem BitReceiver_receives_message (cfg : BitReceiver.Config) (m : text) (bits : list Z) (g t0 : Z) :
  forallb is_scalar m = true ->
  1 <= Protocol.getByteLength m <= 200 ->
  hd_error m <> Some 0xFEFF ->
  Protocol.encode m = Ok bits ->
  exists ev0,
    BitReceiver.run cfg {| BitReceiver.state := Bits; BitReceiver.bits := [];
                           BitReceiver.gapStartTime := g; BitReceiver.lastBitTime := t0;
                           BitReceiver.running := true |}
                    (bit_ticks (BitReceiver.bitInterval cfg) t0 bits)
    = ({| BitReceiver.state := Idle; BitReceiver.bits := []; BitReceiver.gapStartTime := 0;
          BitReceiver.lastBitTime := 0; BitReceiver.running := true |},
       ev0 ++ [StatusChange StSuccess; OnMessage m; StatusChange StIdle]) /\
    Forall (fun e => exists p pt, e = StatusChange (StReceiving p pt)) ev0.
Proof.
  intros Hs Hlen Hbom He.
  pose proof (SessionFacts.encode_decode_some m bits Hs Hlen Hbom He) as Hd.
  pose proof (CodecFacts.encode_length m bits He) as Hl.
  destruct (SessionFacts.bits_session cfg m bits g He Hd bits [] t0 eq_refl
              ltac:(intros E; rewrite E in Hl; discriminate)) as [ev0 [Hev Hrun]].
  exists ev0. split; [exact Hrun | exact Hev].
Qed.

Lemma BitReceiver_receives_message_witness :
  exists ev0,
    BitReceiver.run {| BitReceiver.bitMs := 100; BitReceiver.guardMs := 20; BitReceiver.gapMs := 200 |}
                    {| BitReceiver.state := Bits; BitReceiver.bits := [];
                       BitReceiver.gapStartTime := 0; BitReceiver.lastBitTime := 500;
                       BitReceiver.running := true |}
                    (bit_ticks 120 500 (match Protocol.encode test_text with Ok b => b | Throw _ => [] end))
    = ({| BitReceiver.state := Idle; BitReceiver.bits := []; BitReceiver.gapStartTime := 0;
          BitReceiver.lastBitTime := 0; BitReceiver.running := true |},
       ev0 ++ [StatusChange StSuccess; OnMessage test_text; StatusChange StIdle]) /\
    Forall (fun e => exists p pt, e = StatusChange (StReceiving p pt)) ev0.
Proof.
  apply (BitReceiver_receives_message
           {| BitReceiver.bitMs := 100; BitReceiver.guardMs := 20; BitReceiver.gapMs := 200 |}
           test_text (match Protocol.encode test_text with Ok b => b | Throw _ => [] end) 0 500).
  - reflexivity.
  - vm_compute. split; discriminate.
  - vm_compute. discriminate.
  - vm_compute. reflexivity.
Defined.

(** X20: driving a [ManualBitReceiver] through a whole session (pilot seen,
    pilot gone, bit collection started, the bits of [Protocol.encode m]
    added, [tryDecode]) reports pilot, gap, receiving, success, the message
    and idle, and leaves it in its initial state; this needs a message of
    1..200 UTF-8 bytes that does not begin with U+FEFF. *)
Theorem ManualBitReceiver_session (m : text) (bits : list Z) :
  forallb is_scalar m = true ->
  1 <= Protocol.getByteLength m <= 200 ->
  hd_error m <> Some 0xFEFF ->
  Protocol.encode m = Ok bits ->
  let '(r1, e1) := ManualBitReceiver.processPilotDetected ManualBitReceiver.initial true in
  let '(r2, e2) := ManualBitReceiver.processPilotDetected r1 false in
  let '(r3, e3) := ManualBitReceiver.startBitCollection r2 in
  let '(r4, e4) := ManualBitReceiver.tryDecode (fold_left ManualBitReceiver.addBit bits r3) in
  r4 = ManualBitReceiver.initial /\
  e1 ++ e2 ++ e3 ++ e4 =
    [StatusChange StPilot; StatusChange StGap; StatusChange (StReceiving 0 None);
     StatusChange StSuccess; OnMessage m; StatusChange StIdle].
Proof.
  intros Hs Hlen Hbom He.
  pose proof (SessionFacts.encode_decode_some m bits Hs Hlen Hbom He) as Hd.
  cbn [ManualBitReceiver.processPilotDetected ManualBitReceiver.initial ManualBitReceiver.state
       ManualBitReceiver.bits ManualBitReceiver.startBitCollection].
  rewrite SessionFacts.fold_addBit. cbn [app].
  unfold ManualBitReceiver.tryDecode. cbn [ManualBitReceiver.bits]. rewrite Hd.
  cbn. split; reflexivity.
Qed.

Lemma ManualBitReceiver_session_witness :
  let '(r1, e1) := ManualBitReceiver.processPilotDetected ManualBitReceiver.initial true in
  let '(r2, e2) := ManualBitReceiver.processPilotDetected r1 false in
  let '(r3, e3) := ManualBitReceiver.startBitCollection r2 in
  let '(r4, e4) := ManualBitReceiver.tryDecode
                     (fold_left ManualBitReceiver.addBit
                        (match Protocol.encode konnichiwa with Ok b => b | Throw _ => [] end) r3) in
  r4 = ManualBitReceiver.initial /\
  e1 ++ e2 ++ e3 ++ e4 =
    [StatusChange StPilot; StatusChange StGap; StatusChange (StReceiving 0 None);
     StatusChange StSuccess; OnMessage konnichiwa; StatusChange StIdle].
Proof.
  apply (ManualBitReceiver_session konnichiwa
           (match Protocol.encode konnichiwa with Ok b => b | Throw _ => [] end)).
  - reflexivity.
  - vm_compute. split; discriminate.
  - vm_compute. discriminate.
  - vm_compute. reflexivity.
Defined.
